(** * xmtp-rss-bot: the subscription and delivery-dedup registry

    A shallow embedding of [fifo-set.ts], [reddit-service.ts] and
    [conversation-manager.ts], and the properties of the specification
    checked against it.

    Conventions of the embedding:
    - a JavaScript [Set<T>] is the list of its values in insertion order,
      each value once; a [Map<string, V>] is the list of its entries in
      insertion order, each key once;
    - a JavaScript [number] used as a capacity is an integer of [Z] (it may
      be zero or negative: the constructor accepts any number);
    - a JavaScript string is a [string]; [toLowerCase] acts on the letters
      [A]-[Z] and [trim] on the white space of ASCII, which is what the
      methods of JavaScript do on a string of ASCII characters;
    - a plain object used as a dictionary is the list of its own entries
      in the order [Object.entries] and [JSON.stringify] list them: the
      keys that are array indices in ascending order, then the others in
      the order of their creation;
    - a method of a class that mutates [this] takes the state and returns
      the new state next to its result. *)

From Stdlib Require Import String Ascii ZArith Lia Bool Arith Permutation List.
Import ListNotations.

Set Implicit Arguments.

(* ================================================================= *)
(** ** JavaScript [Set] *)

Module JsSet.
Section WithItem.
Variable T : Type.
Variable T_eq_dec : forall x y : T, {x = y} + {x <> y}.

(** [set.has(x)] *)
Definition has (x : T) (l : list T) : bool :=
  if in_dec T_eq_dec x l then true else false.

(** [set.add(x)]: a new value goes last, a present one keeps its place. *)
Definition add (x : T) (l : list T) : list T :=
  if has x l then l else l ++ [x].

(** [set.delete(x)]: the set without [x]. *)
Definition delete (x : T) (l : list T) : list T :=
  remove T_eq_dec x l.

(** [new Set(iterable)] *)
Definition of_list (xs : list T) : list T :=
  fold_left (fun acc x => add x acc) xs [].

(** [set.values().next().value]: [None] stands for [undefined], the
    answer of the iterator of an empty set. *)
Definition first (l : list T) : option T := hd_error l.
End WithItem.
End JsSet.

(* ================================================================= *)
(** ** fifo-set.ts *)

Module FifoSet.
Section WithItem.
(** [T] is the type of the items, compared by [===]. [undefined] is not an
    item: the manager keeps sets of strings, and in [add] the test
    [oldestItem !== undefined] tells the empty set from the others. *)
Variable T : Type.
Variable T_eq_dec : forall x y : T, {x = y} + {x <> y}.

(** The two private fields of the class. *)
Record t : Type := mk { items : list T; maxCapacity : Z }.

(** [constructor(maxCapacity: number = 100)] *)
Definition default_capacity : Z := 100.
Definition new (maxCapacity : Z) : t := mk [] maxCapacity.

Definition size (s : t) : nat := length (items s).
Definition capacity (s : t) : Z := maxCapacity s.
Definition has (x : T) (s : t) : bool := JsSet.has T_eq_dec x (items s).

(** [add(item)]: the result and the set afterwards. A member is left where
    it is; otherwise, when [size >= maxCapacity], the first value of the
    set, if there is one, is deleted; then the item is added. *)
Definition add (item : T) (s : t) : bool * t :=
  if JsSet.has T_eq_dec item (items s) then (false, s)
  else
    let items1 :=
      if (Z.of_nat (length (items s)) >=? maxCapacity s)%Z then
        match JsSet.first (items s) with
        | Some oldestItem => JsSet.delete T_eq_dec oldestItem (items s)
        | None => items s
        end
      else items s in
    (true, mk (JsSet.add T_eq_dec item items1) (maxCapacity s)).

(** [delete(item)] *)
Definition delete (item : T) (s : t) : bool * t :=
  (JsSet.has T_eq_dec item (items s),
   mk (JsSet.delete T_eq_dec item (items s)) (maxCapacity s)).

(** [clear()] *)
Definition clear (s : t) : t := mk [] (maxCapacity s).

(** [serialize()] *)
Definition serialize (s : t) : list T := items s.

(** The loop [for (const item of items) fifoSet.add(item)]. *)
Definition add_all (xs : list T) (s : t) : t :=
  fold_left (fun acc x => snd (add x acc)) xs s.

(** [static deserialize(items, maxCapacity = 100)] *)
Definition deserialize (xs : list T) (maxCapacity : Z) : t :=
  add_all xs (new maxCapacity).

(** The operations a client can apply to a set. *)
Inductive op : Type :=
| Add (x : T)
| Delete (x : T)
| Clear.

Definition step (s : t) (o : op) : t :=
  match o with
  | Add x => snd (add x s)
  | Delete x => snd (delete x s)
  | Clear => clear s
  end.

Definition run (ops : list op) (s : t) : t := fold_left step ops s.

(** The representation invariant of the underlying [Set]: each value once. *)
Definition wf (s : t) : Prop := NoDup (items s).
End WithItem.
End FifoSet.

(* ================================================================= *)
(** ** JavaScript strings *)

Module JsString.
Local Open Scope string_scope.

Definition nl : string := String (ascii_of_nat 10) EmptyString.

Definition in_range (lo hi : nat) (c : ascii) : bool :=
  ((lo <=? nat_of_ascii c) && (nat_of_ascii c <=? hi))%nat.

Definition is_upper (c : ascii) : bool := in_range 65 90 c.
Definition is_lower (c : ascii) : bool := in_range 97 122 c.
Definition is_digit (c : ascii) : bool := in_range 48 57 c.

Definition lower_char (c : ascii) : ascii :=
  if is_upper c then ascii_of_nat (nat_of_ascii c + 32) else c.

(** [s.toLowerCase()], for the letters of ASCII: a capital letter beyond
    ASCII is left as it is. *)
Fixpoint toLowerCase (s : string) : string :=
  match s with
  | EmptyString => EmptyString
  | String c r => String (lower_char c) (toLowerCase r)
  end.

(** A value used as a condition: the empty string is falsy, and so is
    [undefined] ([None]). *)
Definition truthy (o : option string) : bool :=
  match o with
  | Some (String _ _) => true
  | _ => false
  end.

(** The class [\w] of a regular expression without the [u] and [i]
    flags: letters, digits and the underscore. *)
Definition is_word (c : ascii) : bool :=
  is_upper c || is_lower c || is_digit c || Ascii.eqb c "_".

(** What is left of [s] after the literal [p], when [s] starts with it. *)
Fixpoint strip_prefix (p s : string) : option string :=
  match p, s with
  | EmptyString, _ => Some s
  | String a p', String b s' => if Ascii.eqb a b then strip_prefix p' s' else None
  | String _ _, EmptyString => None
  end.

(** The longest run of word characters at the start of [s], and the rest. *)
Fixpoint span_word (s : string) : string * string :=
  match s with
  | EmptyString => (EmptyString, EmptyString)
  | String c r =>
      if is_word c
      then let (w, rest) := span_word r in (String c w, rest)
      else (EmptyString, s)
  end.

(** [\w+] when the next thing to match is a character outside [\w]: the
    run has to be the longest one, and it has to be non-empty. *)
Definition word_plus (s : string) : option string :=
  match span_word s with
  | (EmptyString, _) => None
  | (String _ _, rest) => Some rest
  end.
End JsString.

(* ================================================================= *)
(** ** JavaScript [Map] with string keys *)

Module JsMap.
Section WithValue.
Variable V : Type.

Definition t : Type := list (string * V).

(** [map.get(k)]; [None] is [undefined]. *)
Fixpoint get (k : string) (m : t) : option V :=
  match m with
  | [] => None
  | (k', v) :: r => if String.eqb k k' then Some v else get k r
  end.

(** [map.has(k)] *)
Definition has (k : string) (m : t) : bool :=
  match get k m with Some _ => true | None => false end.

(** [map.set(k, v)]: a present key keeps its place, a new one goes last. *)
Fixpoint set (k : string) (v : V) (m : t) : t :=
  match m with
  | [] => [(k, v)]
  | (k', v') :: r =>
      if String.eqb k k' then (k', v) :: r else (k', v') :: set k v r
  end.

(** [map.delete(k)] *)
Definition delete (k : string) (m : t) : t :=
  filter (fun e => negb (String.eqb k (fst e))) m.

Definition size (m : t) : nat := length m.

Definition keys (m : t) : list string := map fst m.

(** The representation invariant: each key once. *)
Definition wf (m : t) : Prop := NoDup (keys m).
End WithValue.
End JsMap.

(* ================================================================= *)
(** ** Plain JavaScript objects used as dictionaries *)

Module JsObject.
Import JsString.
Local Open Scope string_scope.
Section WithValue.
Variable V : Type.

(** The number written by a string of decimal digits, read after [acc]. *)
Fixpoint digits_value (s : string) (acc : N) : option N :=
  match s with
  | EmptyString => Some acc
  | String c r =>
      if is_digit c
      then digits_value r (acc * 10 + (N.of_nat (nat_of_ascii c) - 48))%N
      else None
  end.

(** Whether a property key is an array index: the canonical decimal
    writing of an integer from 0 to 2^32 - 2. *)
Definition array_index (k : string) : option N :=
  match k with
  | EmptyString => None
  | String c r =>
      if Ascii.eqb c "0" && negb (String.eqb r "") then None
      else
        match digits_value k 0 with
        | Some n => if (n <=? 4294967294)%N then Some n else None
        | None => None
        end
  end.

(** [obj[k] = v] on an object made by [{}], for a [v] that is an object
    (here, an array): the key [__proto__] names the setter inherited from
    [Object.prototype], which changes the prototype and creates no
    property; any other key is created, or written where it is. *)
Definition assign (k : string) (v : V) (o : JsMap.t V) : JsMap.t V :=
  if String.eqb k "__proto__" then o else JsMap.set k v o.

(** The properties whose key is an array index, with the index. *)
Fixpoint indexed (o : JsMap.t V) : list (N * (string * V)) :=
  match o with
  | [] => []
  | e :: r =>
      match array_index (fst e) with
      | Some n => (n, e) :: indexed r
      | None => indexed r
      end
  end.

(** The other properties, in the order of their creation. *)
Definition named (o : JsMap.t V) : JsMap.t V :=
  filter (fun e => match array_index (fst e) with Some _ => false | None => true end) o.

Fixpoint insert_by_index (x : N * (string * V)) (l : list (N * (string * V)))
    : list (N * (string * V)) :=
  match l with
  | [] => [x]
  | y :: r => if (fst x <=? fst y)%N then x :: l else y :: insert_by_index x r
  end.

Definition sort_by_index (l : list (N * (string * V))) : list (N * (string * V)) :=
  fold_right insert_by_index [] l.

(** [Object.entries(obj)], which is also the order of [JSON.stringify]
    and of the object that [JSON.parse] makes of its output. *)
Definition entries (o : JsMap.t V) : list (string * V) :=
  map snd (sort_by_index (indexed o)) ++ named o.

(** The entries of the object filled by
    [map.forEach((v, k) => { obj[k] = v })] from [{}]. *)
Definition of_map (m : JsMap.t V) : list (string * V) :=
  entries (fold_left (fun o e => assign (fst e) (snd e) o) m []).
End WithValue.
End JsObject.

(* ================================================================= *)
(** ** reddit-service.ts *)

Record RedditPost : Type := mkPost {
  id : string;
  title : string;
  link : string;
  contentSnippet : string;
  pubDate : option string;
  author : string
}.

Module RedditService.
Import JsString.
Local Open Scope string_scope.

Definition orelse {A : Type} (a b : option A) : option A :=
  match a with Some _ => a | None => b end.

Definition and_then {A B : Type} (a : option A) (k : A -> option B) : option B :=
  match a with Some x => k x | None => None end.

(** [reddit\.com\/r\/\w+\/comments\/\w+] with a [\/] after it: what
    follows the post id (it starts with that slash). *)
Definition match_path (s : string) : option string :=
  and_then (strip_prefix "reddit.com/r/" s) (fun r1 =>
  and_then (word_plus r1) (fun r2 =>
  and_then (strip_prefix "/comments/" r2) (fun r3 =>
  and_then (word_plus r3) (fun r4 =>
  and_then (strip_prefix "/" r4) (fun _ => Some r4))))).

(** [:\/\/(?:\w+\.)?] and the path: first with a subdomain, then without. *)
Definition match_authority (s : string) : option string :=
  and_then (strip_prefix "://" s) (fun r =>
    orelse
      (and_then (word_plus r) (fun r1 =>
       and_then (strip_prefix "." r1) match_path))
      (match_path r)).

(** The pattern
    [/^(https?:\/\/(?:\w+\.)?reddit\.com\/r\/\w+\/comments\/\w+)\/.*/]
    applied to [url]: [None] when [url.match] is [null], else what
    follows group 1 in [url]. The final [.*] matches whatever is left. *)
Definition redditUrlPattern (url : string) : option string :=
  and_then (strip_prefix "http" url) (fun r0 =>
    orelse
      (and_then (strip_prefix "s" r0) match_authority)
      (match_authority r0)).

(** [trimRedditUrl(url)]: group 1 of the match, or [url] itself. *)
Definition trimRedditUrl (url : string) : string :=
  match redditUrlPattern url with
  | Some rest => substring 0 (String.length url - String.length rest) url
  | None => url
  end.

Section WithDate.
(** [new Date(s).toUTCString()], a function of the host. *)
Variable toUTCString : string -> string.

Definition published (post : RedditPost) : string :=
  if truthy (pubDate post)
  then match pubDate post with
       | Some d => "⏰ Published: " ++ toUTCString d
       | None => ""
       end
  else "".

(** [formatRedditPost(post)] *)
Definition formatRedditPost (post : RedditPost) : string :=
  let trimmedLink := trimRedditUrl (link post) in
  "📰 " ++ title post ++ nl ++
  "🔗 Link: " ++ trimmedLink ++ nl ++
  published post.
End WithDate.
End RedditService.

(* ================================================================= *)
(** ** The second [formatRedditPost], at the end of conversation-manager.ts *)

Module EmbeddedCopy.
Import JsString.
Local Open Scope string_scope.

Section WithDate.
Variable toUTCString : string -> string.

Definition published (post : RedditPost) : string :=
  if truthy (pubDate post)
  then match pubDate post with
       | Some d => "⏰ Published: " ++ toUTCString d
       | None => ""
       end
  else "".

(** [formatRedditPost(post)]: the link goes out as it is. *)
Definition formatRedditPost (post : RedditPost) : string :=
  "📰 " ++ title post ++ nl ++
  "🔗 Link: " ++ link post ++ nl ++
  published post.
End WithDate.
End EmbeddedCopy.

(* ================================================================= *)
(** ** conversation-manager.ts *)

Module ConversationManager.
Import JsString.

(** [interface UserData]: the document of [user_data.json]. Each field is
    [None] when the parsed document lacks it, the case the guards
    [if (data.subscriptions)] and [if (data.seenPosts)] test for; an
    object is the list of its entries, as [Object.entries] lists them. *)
Record UserData : Type := mkUserData {
  subscriptions : option (list (string * list string));
  seenPosts : option (list (string * list string))
}.

(** [JSON.parse(...) as UserData] is a cast: nothing checks the document
    against the interface. The value of an entry of a document that
    parses is an array of strings (or a string, which is iterated as the
    list of its characters), [null], or a value that cannot be iterated
    (a number, a boolean, an object). Arrays of other values than
    strings are not modelled. *)
Inductive entry_value : Type :=
| Strings (items : list string)
| Null_value
| Not_iterable.

Record LooseData : Type := mkLooseData {
  loose_subscriptions : option (list (string * entry_value));
  loose_seenPosts : option (list (string * entry_value))
}.

(** What [JSON.parse(fs.readFileSync(path))] meets in the file: text that
    is not a JSON document (or the document [null], whose fields cannot
    be read), a document of the interface [UserData], or a document some
    of whose entries may hold another value than an array of strings. *)
Inductive file_content : Type :=
| Unparseable
| Parsed (data : UserData)
| Parsed_loose (data : LooseData).

Record Disk : Type := mkDisk {
  dir_exists : bool;
  data_file : option file_content
}.

(** What a call of [fs.writeFileSync] that throws has done to the file.
    The call opens the file with the flag [w], which empties it, writes
    the text and closes the file: when it throws, it has not opened the
    file, or it has left the file cut short, or (it throws on closing)
    it has written the whole text. *)
Inductive write_failure : Type :=
| Not_opened
| Cut_short
| Text_written.

(** The calls of the host that may throw, and whether each one does in
    the method call at hand; for [fs.writeFileSync], also what a call
    that throws leaves. *)
Record Faults : Type := mkFaults {
  mkdir_throws : bool;
  write_throws : bool;
  read_throws : bool;
  list_throws : bool;
  write_leaves : write_failure
}.

Definition no_fault : Faults := mkFaults false false false false Not_opened.

(** The lines written by [console.log] and [console.error]. *)
Inductive console_entry : Type :=
| Log_loaded (subscriptions seen : nat)
| Error_load_failed
| Error_save_failed
| Log_unsubscribed_all (address : string) (count : nat)
| Log_no_subscribers (subreddit : string)
| Log_subscribed (address subreddit : string)
| Log_unsubscribed (address subreddit : string).

(** The two maps of the manager, and what it acts on: the disk, the
    console and the messages handed to [sendToSpecificAddresses]. *)
Record state : Type := mkState {
  seenPostsBySubreddit : JsMap.t (FifoSet.t string);
  userSubscriptions : JsMap.t (list string);
  disk : Disk;
  console : list console_entry;
  outbox : list (string * list string)
}.

Definition with_seen (m : JsMap.t (FifoSet.t string)) (st : state) : state :=
  mkState m (userSubscriptions st) (disk st) (console st) (outbox st).
Definition with_subscriptions (m : JsMap.t (list string)) (st : state) : state :=
  mkState (seenPostsBySubreddit st) m (disk st) (console st) (outbox st).
Definition with_disk (d : Disk) (st : state) : state :=
  mkState (seenPostsBySubreddit st) (userSubscriptions st) d (console st) (outbox st).
Definition with_console (c : list console_entry) (st : state) : state :=
  mkState (seenPostsBySubreddit st) (userSubscriptions st) (disk st) c (outbox st).
Definition with_outbox (o : list (string * list string)) (st : state) : state :=
  mkState (seenPostsBySubreddit st) (userSubscriptions st) (disk st) (console st) o.

(** *** Methods as state transformers that return or throw *)

Inductive completion (A : Type) : Type :=
| Return (a : A)
| Throw.
Arguments Throw {A}.

Definition M (A : Type) : Type := state -> completion A * state.

Definition ret {A : Type} (a : A) : M A := fun st => (Return a, st).
Definition throw {A : Type} : M A := fun st => (Throw, st).

Definition bind {A B : Type} (m : M A) (k : A -> M B) : M B :=
  fun st =>
    match m st with
    | (Return a, st') => k a st'
    | (Throw, st') => (Throw, st')
    end.

(** [try { body } catch (error) { handler }] *)
Definition try_catch {A : Type} (body handler : M A) : M A :=
  fun st =>
    match body st with
    | (Return a, st') => (Return a, st')
    | (Throw, st') => handler st'
    end.

Definition gets {A : Type} (f : state -> A) : M A := fun st => (Return (f st), st).
Definition modify (f : state -> state) : M unit := fun st => (Return tt, f st).

Notation "x <- m ;; k" := (bind m (fun x => k))
  (at level 61, m at next level, right associativity).
Notation "m ;;; k" := (bind m (fun _ => k))
  (at level 61, right associativity).

Definition when (b : bool) (m : M unit) : M unit := if b then m else ret tt.

Definition logged (e : console_entry) (st : state) : state :=
  with_console (console st ++ [e]) st.

Definition console_write (e : console_entry) : M unit := modify (logged e).

(** [fs.mkdirSync(dir, { recursive: true })] *)
Definition mkdirSync (f : Faults) : M unit :=
  if mkdir_throws f then throw
  else modify (fun st => with_disk (mkDisk true (data_file (disk st))) st).

(** The state that a write of [data] that throws leaves: a file cut
    short is empty or holds the start of the text of an object, neither
    of which parses. *)
Definition write_failed (f : Faults) (data : UserData) (st : state) : state :=
  match write_leaves f with
  | Not_opened => st
  | Cut_short => with_disk (mkDisk (dir_exists (disk st)) (Some Unparseable)) st
  | Text_written => with_disk (mkDisk (dir_exists (disk st)) (Some (Parsed data))) st
  end.

(** [fs.writeFileSync(path, JSON.stringify(data))] *)
Definition writeFileSync (f : Faults) (data : UserData) : M unit :=
  if write_throws f then modify (write_failed f data) ;;; throw
  else modify (fun st => with_disk (mkDisk (dir_exists (disk st)) (Some (Parsed data))) st).

(** [JSON.parse(fs.readFileSync(path, 'utf8'))]: the document, when the
    file is read and its text parses. *)
Definition readAndParse (f : Faults) : M file_content :=
  if read_throws f then throw
  else fun st =>
    match data_file (disk st) with
    | Some (Parsed data) => (Return (Parsed data), st)
    | Some (Parsed_loose data) => (Return (Parsed_loose data), st)
    | Some Unparseable => (Throw, st)
    | None => (Throw, st)
    end.

Definition initialData : UserData := mkUserData (Some []) (Some []).

(** The two [forEach] loops of [loadUserData]. *)
Definition load_subscriptions (entries : list (string * list string))
    (m : JsMap.t (list string)) : JsMap.t (list string) :=
  fold_left
    (fun acc e =>
       let lowerAddress := toLowerCase (fst e) in
       JsMap.set lowerAddress (JsSet.of_list string_dec (snd e)) acc)
    entries m.

Definition load_seen (entries : list (string * list string))
    (m : JsMap.t (FifoSet.t string)) : JsMap.t (FifoSet.t string) :=
  fold_left
    (fun acc e =>
       let normalizedSubreddit := toLowerCase (fst e) in
       JsMap.set normalizedSubreddit (FifoSet.deserialize string_dec (snd e) 1000) acc)
    entries m.

(** [new Set(value)]: [null] gives the empty set; [None] when the
    constructor throws, the value being not iterable. *)
Definition topics_of (v : entry_value) : option (list string) :=
  match v with
  | Strings items => Some items
  | Null_value => Some []
  | Not_iterable => None
  end.

(** [for (const item of value)] in [FifoSet.deserialize]: [None] when the
    loop throws, the value being [null] or not iterable. *)
Definition ids_of (v : entry_value) : option (list string) :=
  match v with
  | Strings items => Some items
  | Null_value => None
  | Not_iterable => None
  end.

(** [entries.forEach(body)] for a body that may throw. *)
Fixpoint for_each {A : Type} (body : A -> M unit) (l : list A) : M unit :=
  match l with
  | [] => ret tt
  | x :: r => body x ;;; for_each body r
  end.

(** The bodies of the two [forEach] loops, for the entries of a document
    that nothing has checked. *)
Definition store_subscription (e : string * entry_value) : M unit :=
  let lowerAddress := toLowerCase (fst e) in
  match topics_of (snd e) with
  | Some subreddits =>
      modify (fun st =>
        with_subscriptions
          (JsMap.set lowerAddress (JsSet.of_list string_dec subreddits)
             (userSubscriptions st)) st)
  | None => throw
  end.

Definition store_window (e : string * entry_value) : M unit :=
  let normalizedSubreddit := toLowerCase (fst e) in
  match ids_of (snd e) with
  | Some postIds =>
      modify (fun st =>
        with_seen
          (JsMap.set normalizedSubreddit (FifoSet.deserialize string_dec postIds 1000)
             (seenPostsBySubreddit st)) st)
  | None => throw
  end.

(** [private loadUserData()] *)
Definition loadUserData (f : Faults) : M unit :=
  try_catch
    (dir <- gets (fun st => dir_exists (disk st)) ;;
     when (negb dir) (mkdirSync f) ;;;
     file <- gets (fun st => data_file (disk st)) ;;
     match file with
     | None => writeFileSync f initialData
     | Some _ =>
         content <- readAndParse f ;;
         match content with
         | Parsed data =>
             match subscriptions data with
             | Some entries =>
                 modify (fun st =>
                   with_subscriptions (load_subscriptions entries (userSubscriptions st)) st)
             | None => ret tt
             end ;;;
             match seenPosts data with
             | Some entries =>
                 modify (fun st =>
                   with_seen (load_seen entries (seenPostsBySubreddit st)) st)
             | None => ret tt
             end
         | Parsed_loose data =>
             match loose_subscriptions data with
             | Some entries => for_each store_subscription entries
             | None => ret tt
             end ;;;
             match loose_seenPosts data with
             | Some entries => for_each store_window entries
             | None => ret tt
             end
         | Unparseable => throw
         end ;;;
         st <- gets (fun st => st) ;;
         console_write
           (Log_loaded (JsMap.size (userSubscriptions st))
                       (JsMap.size (seenPostsBySubreddit st)))
     end)
    (console_write Error_load_failed).

(** The entries that a loop of [loadUserData] stores before it throws, if
    it does: those before the first value that [read] refuses. *)
Fixpoint readable_prefix (read : entry_value -> option (list string))
    (entries : list (string * entry_value)) : list (string * list string) * bool :=
  match entries with
  | [] => ([], false)
  | e :: r =>
      match read (snd e) with
      | Some items =>
          let (stored, throws) := readable_prefix read r in
          ((fst e, items) :: stored, throws)
      | None => ([], true)
      end
  end.

(** The part of an unchecked document that the loader stores, as a
    document of the interface, and whether the loader throws after it:
    the second loop is not reached when the first one throws. *)
Definition stored_part (data : LooseData) : UserData * bool :=
  let subs := option_map (readable_prefix topics_of) (loose_subscriptions data) in
  let wins := option_map (readable_prefix ids_of) (loose_seenPosts data) in
  match subs with
  | Some (_, true) => (mkUserData (option_map fst subs) None, true)
  | _ =>
      (mkUserData (option_map fst subs) (option_map fst wins),
       match wins with Some (_, true) => true | _ => false end)
  end.

(** The object that [saveUserData] hands to [JSON.stringify]: two plain
    objects filled from the maps. *)
Definition snapshot (st : state) : UserData :=
  mkUserData
    (Some (JsObject.of_map (userSubscriptions st)))
    (Some (JsObject.of_map
             (map (fun e => (fst e, FifoSet.serialize (snd e))) (seenPostsBySubreddit st)))).

(** [private saveUserData()] *)
Definition saveUserData (f : Faults) : M unit :=
  try_catch
    (data <- gets snapshot ;; writeFileSync f data)
    (console_write Error_save_failed).

(** The state that [saveUserData] leaves. *)
Definition saved (f : Faults) (st : state) : state := snd (saveUserData f st).

(** [constructor(client, dataDir)]: the maps start empty and the file is
    loaded. *)
Definition fresh (d : Disk) : state := mkState [] [] d [] [].

Definition constructor (f : Faults) (d : Disk) : completion unit * state :=
  loadUserData f (fresh d).

(** [getSubscribersForSubreddit(subreddit)] *)
Definition getSubscribersForSubreddit (st : state) (subreddit : string) : list string :=
  let normalizedSubreddit := toLowerCase subreddit in
  fold_left
    (fun subscribers e =>
       if JsSet.has string_dec normalizedSubreddit (snd e)
       then subscribers ++ [fst e]
       else subscribers)
    (userSubscriptions st) [].

(** [getUserSubscriptions(address)] *)
Definition getUserSubscriptions (st : state) (address : string) : list string :=
  let lowerCaseAddress := toLowerCase address in
  match JsMap.get lowerCaseAddress (userSubscriptions st) with
  | Some userSubs => userSubs
  | None => []
  end.

(** [getAllSubscribedSubreddits()] *)
Definition getAllSubscribedSubreddits (st : state) : list string :=
  fold_left
    (fun allSubs e =>
       fold_left (fun acc sub => JsSet.add string_dec sub acc) (snd e) allSubs)
    (userSubscriptions st) [].

(** [unsubscribeFromAllSubreddits(address)] *)
Definition unsubscribeFromAllSubreddits (f : Faults) (address : string) : M bool :=
  let lowerCaseAddress := toLowerCase address in
  userSubs <- gets (fun st => JsMap.get lowerCaseAddress (userSubscriptions st)) ;;
  match userSubs with
  | None => ret false
  | Some userSubs =>
      if (length userSubs =? 0)%nat then ret false
      else
        let subredditCount := length userSubs in
        modify (fun st =>
          with_subscriptions (JsMap.delete lowerCaseAddress (userSubscriptions st)) st) ;;;
        saveUserData f ;;;
        console_write (Log_unsubscribed_all address subredditCount) ;;;
        ret true
  end.

(** [sendToSpecificAddresses(message, addresses)]: the list of
    conversations is asked for outside any [try], then the message goes
    to the conversations of [addresses]; what reaches whom is the
    messaging client's business, the request is what is recorded. *)
Definition sendToSpecificAddresses (f : Faults) (message : string)
    (addresses : list string) : M unit :=
  if list_throws f then throw
  else modify (fun st => with_outbox (outbox st ++ [(message, addresses)]) st).

Section WithDate.
Variable toUTCString : string -> string.

(** [sendRedditPostToSubscribers(post, subreddit)] *)
Definition sendRedditPostToSubscribers (f : Faults) (post : RedditPost)
    (subreddit : string) : M bool :=
  let normalizedSubreddit := toLowerCase subreddit in
  has <- gets (fun st => JsMap.has normalizedSubreddit (seenPostsBySubreddit st)) ;;
  when (negb has)
    (modify (fun st =>
       with_seen (JsMap.set normalizedSubreddit (FifoSet.new string 50)
                    (seenPostsBySubreddit st)) st)) ;;;
  seen <- gets (fun st => JsMap.get normalizedSubreddit (seenPostsBySubreddit st)) ;;
  match seen with
  | None => throw
  | Some seenPosts =>
      if FifoSet.has string_dec (id post) seenPosts then ret false
      else
        modify (fun st =>
          with_seen (JsMap.set normalizedSubreddit
                       (snd (FifoSet.add string_dec (id post) seenPosts))
                       (seenPostsBySubreddit st)) st) ;;;
        saveUserData f ;;;
        subscribers <- gets (fun st => getSubscribersForSubreddit st subreddit) ;;
        if (length subscribers =? 0)%nat then
          console_write (Log_no_subscribers subreddit) ;;;
          ret false
        else
          let formattedPost := RedditService.formatRedditPost toUTCString post in
          sendToSpecificAddresses f formattedPost subscribers ;;;
          ret true
  end.
End WithDate.

(** [subscribeToSubreddit(address, subreddit)] *)
Definition subscribeToSubreddit (f : Faults) (address subreddit : string) : M bool :=
  let lowerCaseAddress := toLowerCase address in
  let normalizedSubreddit := toLowerCase subreddit in
  has <- gets (fun st => JsMap.has lowerCaseAddress (userSubscriptions st)) ;;
  when (negb has)
    (modify (fun st =>
       with_subscriptions (JsMap.set lowerCaseAddress [] (userSubscriptions st)) st)) ;;;
  userSubs <- gets (fun st => JsMap.get lowerCaseAddress (userSubscriptions st)) ;;
  match userSubs with
  | None => throw
  | Some userSubs =>
      if JsSet.has string_dec normalizedSubreddit userSubs then ret false
      else
        modify (fun st =>
          with_subscriptions
            (JsMap.set lowerCaseAddress (JsSet.add string_dec normalizedSubreddit userSubs)
               (userSubscriptions st)) st) ;;;
        saveUserData f ;;;
        console_write (Log_subscribed address subreddit) ;;;
        ret true
  end.

(** [unsubscribeFromSubreddit(address, subreddit)] *)
Definition unsubscribeFromSubreddit (f : Faults) (address subreddit : string) : M bool :=
  let lowerCaseAddress := toLowerCase address in
  let normalizedSubreddit := toLowerCase subreddit in
  userSubs <- gets (fun st => JsMap.get lowerCaseAddress (userSubscriptions st)) ;;
  match userSubs with
  | None => ret false
  | Some userSubs =>
      if negb (JsSet.has string_dec normalizedSubreddit userSubs) then ret false
      else
        let userSubs' := JsSet.delete string_dec normalizedSubreddit userSubs in
        modify (fun st =>
          with_subscriptions (JsMap.set lowerCaseAddress userSubs' (userSubscriptions st)) st) ;;;
        when (length userSubs' =? 0)%nat
          (modify (fun st =>
             with_subscriptions (JsMap.delete lowerCaseAddress (userSubscriptions st)) st)) ;;;
        saveUserData f ;;;
        console_write (Log_unsubscribed address subreddit) ;;;
        ret true
  end.

(** The calls that change the registry of subscriptions. *)
Inductive registry_op : Type :=
| Subscribe (address subreddit : string)
| Unsubscribe (address subreddit : string)
| UnsubscribeAll (address : string).

Definition registry_call (f : Faults) (o : registry_op) : M bool :=
  match o with
  | Subscribe a s => subscribeToSubreddit f a s
  | Unsubscribe a s => unsubscribeFromSubreddit f a s
  | UnsubscribeAll a => unsubscribeFromAllSubreddits f a
  end.

(** A sequence of such calls, each with the faults it meets. *)
Definition registry_run (calls : list (Faults * registry_op)) (st : state) : state :=
  fold_left (fun acc c => snd (registry_call (fst c) (snd c) acc)) calls st.

(** The calls that end in [saveUserData]: those of the registry, and the
    delivery of a post. *)
Inductive mutating_op : Type :=
| Registry (o : registry_op)
| Deliver (post : RedditPost) (subreddit : string).

Definition mutating_call (toUTCString : string -> string) (f : Faults)
    (o : mutating_op) : M bool :=
  match o with
  | Registry o => registry_call f o
  | Deliver post subreddit => sendRedditPostToSubscribers toUTCString f post subreddit
  end.

Definition set_write_throws (b : bool) (f : Faults) : Faults :=
  mkFaults (mkdir_throws f) b (read_throws f) (list_throws f) (write_leaves f).

(** No subscriber of the registry has an empty set of topics. *)
Definition no_empty_topic_set (m : JsMap.t (list string)) : Prop :=
  Forall (fun e => snd e <> []) m.

(** The subscribers and their topics are stored in lowercase. *)
Definition is_lowercase (s : string) : Prop := toLowerCase s = s.

Definition lowercase_registry (m : JsMap.t (list string)) : Prop :=
  Forall (fun e => is_lowercase (fst e) /\ Forall is_lowercase (snd e)) m.

(** No subscriber of the document on disk has an empty list of topics
    (nor [null], which [new Set] takes for one). *)
Definition disk_no_empty_topic_list (d : Disk) : Prop :=
  match data_file d with
  | Some (Parsed data) =>
      match subscriptions data with
      | Some entries => Forall (fun e => snd e <> []) entries
      | None => True
      end
  | Some (Parsed_loose data) =>
      match loose_subscriptions data with
      | Some entries => Forall (fun e => topics_of (snd e) <> Some []) entries
      | None => True
      end
  | _ => True
  end.

(** Whether the window of [subreddit] holds [postId]. *)
Definition seen (st : state) (subreddit postId : string) : bool :=
  match JsMap.get (toLowerCase subreddit) (seenPostsBySubreddit st) with
  | Some seenPosts => FifoSet.has string_dec postId seenPosts
  | None => false
  end.

(** Whether a mutating call gets past its guard, changes a map and comes
    to [saveUserData]: [subscribe] for a topic the subscriber has not,
    [unsubscribe] for one the subscriber has, [unsubscribe-all] for a
    subscriber with a topic, a delivery for a post that is not seen. *)
Definition reaches_save (o : mutating_op) (st : state) : bool :=
  match o with
  | Registry (Subscribe a s) =>
      negb (JsSet.has string_dec (toLowerCase s) (getUserSubscriptions st a))
  | Registry (Unsubscribe a s) =>
      JsSet.has string_dec (toLowerCase s) (getUserSubscriptions st a)
  | Registry (UnsubscribeAll a) =>
      negb (length (getUserSubscriptions st a) =? 0)%nat
  | Deliver post s => negb (seen st s (id post))
  end.

(** What such a call has done to the maps by then. *)
Definition change_kept (o : mutating_op) (st' : state) : Prop :=
  match o with
  | Registry (Subscribe a s) => In (toLowerCase s) (getUserSubscriptions st' a)
  | Registry (Unsubscribe a s) => ~ In (toLowerCase s) (getUserSubscriptions st' a)
  | Registry (UnsubscribeAll a) => getUserSubscriptions st' a = []
  | Deliver post s => seen st' s (id post) = true
  end.

(** The key of the entry it has written or deleted. *)
Definition written_key (o : mutating_op) : string :=
  match o with
  | Registry (Subscribe a _) => toLowerCase a
  | Registry (Unsubscribe a _) => toLowerCase a
  | Registry (UnsubscribeAll a) => toLowerCase a
  | Deliver _ s => toLowerCase s
  end.
End ConversationManager.

(* ================================================================= *)
(** ** Well-formed maps of the manager, and sequences of offers *)

Module Registry.
Import JsString ConversationManager.

(** Each subscriber once, and each topic of a subscriber once: what a
    [Map<string, Set<string>>] is. *)
Definition wf_registry (m : JsMap.t (list string)) : Prop :=
  JsMap.wf m /\ Forall (fun e => NoDup (snd e)) m.

(** Each topic once, and each id of a window once. *)
Definition wf_windows (m : JsMap.t (FifoSet.t string)) : Prop :=
  JsMap.wf m /\ Forall (fun e => FifoSet.wf (snd e)) m.

(** The keys of a map are in lowercase. *)
Definition lowercase_keys {V : Type} (m : JsMap.t V) : Prop :=
  Forall (fun e => is_lowercase (fst e)) m.

(** The address a registry call is about. *)
Definition op_address (o : registry_op) : string :=
  match o with
  | Subscribe a _ => a
  | Unsubscribe a _ => a
  | UnsubscribeAll a => a
  end.

(** The window of a topic: the one of the map, or the one that
    [sendRedditPostToSubscribers] creates for a topic without window. *)
Definition window (st : state) (subreddit : string) : FifoSet.t string :=
  match JsMap.get (toLowerCase subreddit) (seenPostsBySubreddit st) with
  | Some w => w
  | None => FifoSet.new string 50
  end.

(** A sequence of calls of [sendRedditPostToSubscribers] for one topic,
    one per post, each with the faults it meets and whatever it returns. *)
Definition offer_all (toUTCString : string -> string) (faults : RedditPost -> Faults)
    (subreddit : string) (posts : list RedditPost) (st : state) : state :=
  fold_left
    (fun acc post =>
       snd (sendRedditPostToSubscribers toUTCString (faults post) post subreddit acc))
    posts st.
End Registry.

(* ================================================================= *)
(** ** conversation-manager.ts: the loop of [sendToSpecificAddresses] *)

Module Transport.
Import JsString.
Local Open Scope string_scope.

(** What the loop meets in a conversation of the messaging client:
    [conversation.peerAddress]; the identifier that the inbox state of
    [conversation.peerInboxId] gives ([None] when any link of
    [inboxState[0]?.identifiers[0]?.identifier] is missing), or the lookup
    throws; and whether [conversation.send] throws. *)
Record Conversation : Type := mkConversation {
  peerAddress : option string;
  inbox_throws : bool;
  inboxIdentifier : option string;
  send_throws : bool
}.

(** [getAddressFromConversation(conversation)] *)
Definition getAddressFromConversation (c : Conversation) : string :=
  match peerAddress c with
  | Some (String a r) => String a r
  | _ =>
      if inbox_throws c then "unknown-address"
      else
        match inboxIdentifier c with
        | Some (String a r) => String a r
        | _ => "unknown-address"
        end
  end.

(** The two counters of the loop, the conversations the message went to,
    and the number of passes that ended in the [catch] (the source logs
    them and keeps no count). *)
Record Tally : Type := mkTally {
  delivered : list Conversation;
  sentCount : nat;
  skippedCount : nat;
  failedCount : nat
}.

(** The body of [for (const conversation of conversations)]. *)
Definition visit (addresses : list string) (t : Tally) (c : Conversation) : Tally :=
  let address := getAddressFromConversation c in
  if negb (JsSet.has string_dec (toLowerCase address) addresses) then
    mkTally (delivered t) (sentCount t) (S (skippedCount t)) (failedCount t)
  else if send_throws c then
    mkTally (delivered t) (sentCount t) (skippedCount t) (S (failedCount t))
  else
    mkTally (delivered t ++ [c]) (S (sentCount t)) (skippedCount t) (failedCount t).

(** The loop of [sendToSpecificAddresses(message, addresses)] over the
    conversations that [getAllConversations] gave. *)
Definition sendToSpecificAddresses (conversations : list Conversation)
    (addresses : list string) : Tally :=
  fold_left (visit addresses) conversations (mkTally [] 0 0 0).
End Transport.

(* ================================================================= *)
(** ** index.ts *)

Module JsText.

(** The white space that [trim] removes, among the characters of ASCII:
    tab, line feed, vertical tab, form feed, carriage return and space.
    (The white space of JavaScript beyond ASCII, the no-break space for
    one, is left where it is.) *)
Definition is_space (c : ascii) : bool :=
  let n := nat_of_ascii c in
  ((9 <=? n) && (n <=? 13) || (n =? 32))%nat.

Fixpoint trimStart (s : string) : string :=
  match s with
  | EmptyString => EmptyString
  | String c r => if is_space c then trimStart r else s
  end.

Fixpoint trimEnd (s : string) : string :=
  match s with
  | EmptyString => EmptyString
  | String c r =>
      match trimEnd r with
      | EmptyString => if is_space c then EmptyString else String c EmptyString
      | r' => String c r'
      end
  end.

(** [s.trim()] *)
Definition trim (s : string) : string := trimEnd (trimStart s).

(** A text of ASCII characters only: on these, [trim] and
    [JsString.toLowerCase] are the methods of JavaScript. *)
Fixpoint ascii_only (s : string) : bool :=
  match s with
  | EmptyString => true
  | String c r => (nat_of_ascii c <? 128)%nat && ascii_only r
  end.

(** [s.split(" ")]: the pieces between the spaces, empty ones included. *)
Fixpoint split_space (s : string) : list string :=
  match s with
  | EmptyString => [EmptyString]
  | String c r =>
      if Ascii.eqb c " " then EmptyString :: split_space r
      else
        match split_space r with
        | p :: ps => String c p :: ps
        | [] => [String c EmptyString]
        end
  end.

(** [s.startsWith(p)] *)
Definition startsWith (p s : string) : bool :=
  match JsString.strip_prefix p s with Some _ => true | None => false end.

(** A string of word characters only, and a string that does not go on
    with a word character. *)
Fixpoint all_word (s : string) : Prop :=
  match s with
  | EmptyString => True
  | String c r => JsString.is_word c = true /\ all_word r
  end.

Definition starts_outside_word (s : string) : Prop :=
  match s with
  | EmptyString => True
  | String c _ => JsString.is_word c = false
  end.

(** [s] is [p] and then something. *)
Definition is_prefix_of (p s : string) : Prop := exists rest, s = (p ++ rest)%string.
End JsText.

Module Index.
Import JsString JsText ConversationManager.
Local Open Scope string_scope.

(** The messages that the handler sends back, by their template. *)
Inductive reply : Type :=
| Reply_unsubscribed_all
| Reply_had_no_subscriptions
| Reply_no_subscriptions_yet
| Reply_subscriptions (subs : list string)
| Reply_subscribed (subreddit : string)
| Reply_post (formattedPost : string)
| Reply_no_posts (subreddit : string)
| Reply_reddit_usage
| Reply_unsubscribed (subreddit : string)
| Reply_was_not_subscribed (subreddit : string)
| Reply_unsubscribe_usage
| Reply_help.

(** The manager, the replies sent on the conversation, and how many calls
    of [conversation.send] succeed before one throws ([None]: all do). *)
Record world : Type := mkWorld {
  manager : state;
  replies : list reply;
  sends_left : option nat
}.

Definition outcome : Type := completion unit * world.

Definition done (w : world) : outcome := (Return tt, w).

(** [await conversation.send(text)], then [k]. *)
Definition send (r : reply) (k : world -> outcome) (w : world) : outcome :=
  match sends_left w with
  | Some O => (Throw, w)
  | Some (S n) => k (mkWorld (manager w) (replies w ++ [r]) (Some n))
  | None => k (mkWorld (manager w) (replies w ++ [r]) None)
  end.

(** A method of the manager, then [k] on what it returns. *)
Definition call {A : Type} (m : M A) (k : A -> world -> outcome) (w : world) : outcome :=
  match m (manager w) with
  | (Return a, st) => k a (mkWorld st (replies w) (sends_left w))
  | (Throw, st) => (Throw, mkWorld st (replies w) (sends_left w))
  end.

(** A relation [R] between the manager before and after that a piece of
    the handler keeps. *)
Definition keeps (R : state -> state -> Prop) (h : world -> outcome) : Prop :=
  forall w, R (manager w) (manager (snd (h w))).

(** When no [send] throws, a piece of the handler returns and only adds
    replies; [strict] says that it adds at least one. *)
Definition answers (strict : bool) (h : world -> outcome) : Prop :=
  forall w, sends_left w = None ->
    fst (h w) = Return tt /\ sends_left (snd (h w)) = None /\
    exists rs, replies (snd (h w)) = (replies w ++ rs)%list /\ (strict = true -> rs <> []).

(** [for (const post of posts) await conversation.send(formatRedditPost(post))] *)
Fixpoint send_each (texts : list string) (k : world -> outcome) (w : world) : outcome :=
  match texts with
  | [] => k w
  | t :: ts => send (Reply_post t) (send_each ts k) w
  end.

Section WithHost.
Variable toUTCString : string -> string.
(** [fetchRedditTopPosts(subreddit, postLimit)]: it catches what the feed
    throws and returns the empty array then. *)
Variable fetch : string -> list RedditPost.

(** The body of [for await (const message of stream)] from
    [const textContent = message.content] on, for a text message of
    another inbox in a conversation that was found. The lines of
    [console.log] are left out. *)
Definition handle_message (f : Faults) (addressFromInboxId textContent : string)
    : world -> outcome :=
  let lowerCaseText := trim (toLowerCase textContent) in
  if String.eqb lowerCaseText "stop" then
    call (unsubscribeFromAllSubreddits f addressFromInboxId) (fun hadSubscriptions =>
      if hadSubscriptions then send Reply_unsubscribed_all done
      else send Reply_had_no_subscriptions done)
  else if startsWith "reddit" lowerCaseText then
    match split_space lowerCaseText with
    | [_] =>
        call (gets (fun st => getUserSubscriptions st addressFromInboxId)) (fun userSubs =>
          if (length userSubs =? 0)%nat then send Reply_no_subscriptions_yet done
          else send (Reply_subscriptions userSubs) done)
    | [_; subreddit] =>
        call (gets (fun st => getUserSubscriptions st addressFromInboxId)) (fun userSubs =>
          let isSubscribed := JsSet.has string_dec (toLowerCase subreddit) userSubs in
          let fetch_and_send :=
            let posts := fetch subreddit in
            if (0 <? length posts)%nat then
              send_each (map (RedditService.formatRedditPost toUTCString) posts) done
            else send (Reply_no_posts subreddit) done in
          if negb isSubscribed then
            call (subscribeToSubreddit f addressFromInboxId subreddit) (fun _ =>
              send (Reply_subscribed subreddit) fetch_and_send)
          else fetch_and_send)
    | _ => send Reply_reddit_usage done
    end
  else if startsWith "unsubscribe" lowerCaseText then
    match split_space lowerCaseText with
    | [_; subreddit] =>
        call (unsubscribeFromSubreddit f addressFromInboxId subreddit) (fun wasUnsubscribed =>
          if wasUnsubscribed then send (Reply_unsubscribed subreddit) done
          else send (Reply_was_not_subscribed subreddit) done)
    | _ => send Reply_unsubscribe_usage done
    end
  else send Reply_help done.

(** The inner loop of [checkAndSendRedditPosts]: the posts of one
    subreddit, until one call throws. *)
Fixpoint send_posts (faults : string -> RedditPost -> Faults) (subreddit : string)
    (posts : list RedditPost) (st : state) : completion unit * state :=
  match posts with
  | [] => (Return tt, st)
  | post :: rest =>
      match sendRedditPostToSubscribers toUTCString (faults subreddit post)
              post subreddit st with
      | (Return _, st') => send_posts faults subreddit rest st'
      | (Throw, st') => (Throw, st')
      end
  end.

(** [checkAndSendRedditPosts()], with no message handled while it runs:
    the subscribed subreddits are listed once, and what one subreddit
    throws is caught before the next one. *)
Definition checkAndSendRedditPosts (faults : string -> RedditPost -> Faults)
    (st : state) : state :=
  fold_left
    (fun acc subreddit => snd (send_posts faults subreddit (fetch subreddit) acc))
    (getAllSubscribedSubreddits st) st.
End WithHost.
End Index.

(* ================================================================= *)
(** ** Facts about JavaScript sets *)

Section JsSetFacts.
Variable T : Type.
Variable T_eq_dec : forall x y : T, {x = y} + {x <> y}.

Lemma JsSet_has_true (x : T) l : JsSet.has T_eq_dec x l = true <-> In x l.
Proof.
  unfold JsSet.has. destruct (in_dec T_eq_dec x l); split; intros; auto; discriminate.
Qed.

Lemma JsSet_has_false (x : T) l : JsSet.has T_eq_dec x l = false <-> ~ In x l.
Proof.
  unfold JsSet.has. destruct (in_dec T_eq_dec x l); split; intros; auto;
    try discriminate; contradiction.
Qed.

Lemma JsSet_add_fresh (x : T) l : ~ In x l -> JsSet.add T_eq_dec x l = l ++ [x].
Proof.
  intros H. unfold JsSet.add. apply JsSet_has_false in H. now rewrite H.
Qed.

Lemma JsSet_add_present (x : T) l : In x l -> JsSet.add T_eq_dec x l = l.
Proof.
  intros H. unfold JsSet.add. apply JsSet_has_true in H. now rewrite H.
Qed.

Lemma JsSet_in_add (x y : T) l : In y (JsSet.add T_eq_dec x l) <-> y = x \/ In y l.
Proof.
  unfold JsSet.add. destruct (JsSet.has T_eq_dec x l) eqn:E.
  - apply JsSet_has_true in E. split; [auto | intros [-> | ?]; auto].
  - rewrite in_app_iff. simpl. intuition.
Qed.

Lemma JsSet_add_NoDup (x : T) l : NoDup l -> NoDup (JsSet.add T_eq_dec x l).
Proof.
  intros H. unfold JsSet.add. destruct (JsSet.has T_eq_dec x l) eqn:E; auto.
  apply JsSet_has_false in E.
  apply NoDup_app; auto.
  - constructor; [intros [] | constructor].
  - intros y Hy [<- | []]. contradiction.
Qed.

Lemma JsSet_delete_NoDup (x : T) l : NoDup l -> NoDup (JsSet.delete T_eq_dec x l).
Proof.
  unfold JsSet.delete. induction 1 as [| y l Hy Hl IH]; simpl; [constructor |].
  destruct (T_eq_dec x y); auto. constructor; auto.
  intros Hin. apply in_remove in Hin. tauto.
Qed.

Lemma JsSet_in_delete (x y : T) l :
  In y (JsSet.delete T_eq_dec x l) <-> In y l /\ y <> x.
Proof.
  unfold JsSet.delete. split.
  - apply in_remove.
  - intros [? ?]. now apply in_in_remove.
Qed.

(** Deleting the first value of a set leaves the values after it. *)
Lemma JsSet_delete_first (x : T) l :
  NoDup (x :: l) -> JsSet.delete T_eq_dec x (x :: l) = l.
Proof.
  intros H. inversion H; subst. unfold JsSet.delete. simpl.
  destruct (T_eq_dec x x); [| congruence]. now apply notin_remove.
Qed.

Lemma JsSet_of_list_NoDup (xs : list T) : NoDup (JsSet.of_list T_eq_dec xs).
Proof.
  unfold JsSet.of_list.
  assert (G : forall acc, NoDup acc ->
            NoDup (fold_left (fun acc x => JsSet.add T_eq_dec x acc) xs acc)).
  { induction xs as [| x xs IH]; simpl; auto.
    intros acc Hacc. apply IH. now apply JsSet_add_NoDup. }
  apply G. constructor.
Qed.

Lemma JsSet_in_of_list (xs : list T) y : In y (JsSet.of_list T_eq_dec xs) <-> In y xs.
Proof.
  unfold JsSet.of_list.
  assert (G : forall acc,
            In y (fold_left (fun acc x => JsSet.add T_eq_dec x acc) xs acc)
            <-> In y acc \/ In y xs).
  { induction xs as [| x xs IH]; simpl; intros acc; [tauto |].
    rewrite IH, JsSet_in_add. intuition. }
  rewrite G. simpl. tauto.
Qed.
End JsSetFacts.

(* ================================================================= *)
(** ** Facts about [FifoSet] *)

Section FifoSetFacts.
Variable T : Type.
Variable T_eq_dec : forall x y : T, {x = y} + {x <> y}.

Abbreviation add := (FifoSet.add T_eq_dec).
Abbreviation add_all := (FifoSet.add_all T_eq_dec).
Abbreviation has := (FifoSet.has T_eq_dec).

Lemma FifoSet_has_true (x : T) s : has x s = true <-> In x (FifoSet.items s).
Proof. apply JsSet_has_true. Qed.

(** An item that is a member already: [false], and the set is untouched. *)
Lemma FifoSet_add_member (x : T) s :
  In x (FifoSet.items s) -> add x s = (false, s).
Proof.
  intros H. unfold FifoSet.add. apply (JsSet_has_true T_eq_dec) in H. now rewrite H.
Qed.

(** A new item while there is room goes last. *)
Lemma FifoSet_add_room (x : T) s :
  ~ In x (FifoSet.items s) ->
  (Z.of_nat (length (FifoSet.items s)) < FifoSet.maxCapacity s)%Z ->
  add x s = (true, FifoSet.mk (FifoSet.items s ++ [x]) (FifoSet.maxCapacity s)).
Proof.
  intros Hx Hlt. unfold FifoSet.add.
  apply (JsSet_has_false T_eq_dec) in Hx. rewrite Hx.
  rewrite Z.geb_leb. destruct (Z.leb_spec (FifoSet.maxCapacity s)
    (Z.of_nat (length (FifoSet.items s)))); [lia |].
  apply (JsSet_has_false T_eq_dec) in Hx. now rewrite JsSet_add_fresh.
Qed.

(** A new item at capacity: the oldest member leaves, the others keep
    their order, the new item goes last. *)
Lemma FifoSet_add_full (x oldest : T) rest c :
  NoDup (oldest :: rest) -> ~ In x (oldest :: rest) ->
  (c <= Z.of_nat (length (oldest :: rest)))%Z ->
  add x (FifoSet.mk (oldest :: rest) c) = (true, FifoSet.mk (rest ++ [x]) c).
Proof.
  intros Hnd Hx Hge. unfold FifoSet.add. cbn [FifoSet.items FifoSet.maxCapacity].
  pose proof Hx as Hx'. apply (JsSet_has_false T_eq_dec) in Hx'. rewrite Hx'.
  rewrite Z.geb_leb. destruct (Z.leb_spec c (Z.of_nat (length (oldest :: rest)))); [| lia].
  cbn [JsSet.first hd_error]. rewrite JsSet_delete_first by assumption.
  rewrite JsSet_add_fresh; [reflexivity |]. intros Hin. apply Hx. now right.
Qed.

(** A new item in an empty set always enters, whatever the capacity. *)
Lemma FifoSet_add_empty (x : T) c :
  add x (FifoSet.new T c) = (true, FifoSet.mk [x] c).
Proof.
  unfold FifoSet.add, FifoSet.new. cbn.
  destruct (0 >=? c)%Z; reflexivity.
Qed.

(** After [add], the item is a member, whatever the capacity. *)
Lemma FifoSet_has_after_add (x : T) s : has x (snd (add x s)) = true.
Proof.
  unfold FifoSet.add, FifoSet.has.
  destruct (JsSet.has T_eq_dec x (FifoSet.items s)) eqn:E; cbn [snd]; [exact E |].
  cbn [FifoSet.items]. apply JsSet_has_true, JsSet_in_add. now left.
Qed.

Lemma FifoSet_capacity_add (x : T) s :
  FifoSet.maxCapacity (snd (add x s)) = FifoSet.maxCapacity s.
Proof.
  unfold FifoSet.add. destruct (JsSet.has T_eq_dec x (FifoSet.items s)); reflexivity.
Qed.

(** The operations keep each member once. *)
Lemma FifoSet_wf_new c : FifoSet.wf (FifoSet.new T c).
Proof. constructor. Qed.

Lemma FifoSet_wf_add (x : T) s : FifoSet.wf s -> FifoSet.wf (snd (add x s)).
Proof.
  unfold FifoSet.wf, FifoSet.add. intros H.
  destruct (JsSet.has T_eq_dec x (FifoSet.items s)); cbn [snd FifoSet.items]; auto.
  apply JsSet_add_NoDup.
  destruct (Z.of_nat (length (FifoSet.items s)) >=? FifoSet.maxCapacity s)%Z; auto.
  destruct (JsSet.first (FifoSet.items s)); auto. now apply JsSet_delete_NoDup.
Qed.

Lemma FifoSet_wf_step s o : FifoSet.wf s -> FifoSet.wf (FifoSet.step T_eq_dec s o).
Proof.
  destruct o as [x | x |]; cbn [FifoSet.step].
  - apply FifoSet_wf_add.
  - unfold FifoSet.wf. cbn. apply JsSet_delete_NoDup.
  - intros _. constructor.
Qed.

Lemma FifoSet_wf_run ops s : FifoSet.wf s -> FifoSet.wf (FifoSet.run T_eq_dec ops s).
Proof.
  revert s. unfold FifoSet.run.
  induction ops as [| o ops IH]; cbn [fold_left]; auto.
  intros s H. apply IH. now apply FifoSet_wf_step.
Qed.

Lemma FifoSet_wf_add_all xs s : FifoSet.wf s -> FifoSet.wf (add_all xs s).
Proof.
  revert s. unfold FifoSet.add_all.
  induction xs as [| x xs IH]; cbn [fold_left]; auto.
  intros s H. apply IH. now apply FifoSet_wf_add.
Qed.

(** Replaying [add] over new items, from a set that is not over its
    capacity: what is left is the last [c] of all the items. *)
Lemma FifoSet_add_all_window (c : nat) (xs pre : list T) :
  (1 <= c)%nat -> NoDup (pre ++ xs) -> (length pre <= c)%nat ->
  add_all xs (FifoSet.mk pre (Z.of_nat c))
  = FifoSet.mk (skipn (length (pre ++ xs) - c) (pre ++ xs)) (Z.of_nat c).
Proof.
  intros Hc. revert pre. unfold FifoSet.add_all.
  induction xs as [| x xs IH]; intros pre Hnd Hlen; cbn [fold_left].
  - rewrite app_nil_r. replace (length pre - c)%nat with 0%nat by lia. reflexivity.
  - assert (Hx : ~ In x pre).
    { intros Hin. apply NoDup_remove_2 in Hnd. apply Hnd, in_or_app. now left. }
    destruct (Nat.eq_dec (length pre) c) as [Hfull | Hroom].
    + destruct pre as [| oldest rest]; [simpl in Hfull; lia |].
      assert (Hpre : NoDup (oldest :: rest)).
      { revert Hnd. apply NoDup_app_remove_r. }
      rewrite FifoSet_add_full by (auto; lia). cbn [snd].
      rewrite IH.
      * f_equal. rewrite <- !app_assoc. cbn [app].
        rewrite !length_app. cbn [length] in *. rewrite length_app. cbn [length].
        replace (S (length rest + S (length xs)) - c)%nat with (S (length xs)) by lia.
        replace (length rest + S (length xs) - c)%nat with (length xs) by lia.
        reflexivity.
      * rewrite <- app_assoc. cbn [app]. cbn [app] in Hnd. now inversion Hnd.
      * rewrite length_app. cbn [length] in *. lia.
    + rewrite FifoSet_add_room by (cbn; auto; lia). cbn [snd FifoSet.items FifoSet.maxCapacity].
      rewrite IH.
      * rewrite <- app_assoc. reflexivity.
      * now rewrite <- app_assoc.
      * rewrite length_app. cbn [length]. lia.
Qed.

(** Replaying [add] over new items that all fit: nothing is evicted. *)
Lemma FifoSet_add_all_fits (c : Z) (xs pre : list T) :
  NoDup (pre ++ xs) -> (Z.of_nat (length (pre ++ xs)) <= c)%Z ->
  add_all xs (FifoSet.mk pre c) = FifoSet.mk (pre ++ xs) c.
Proof.
  revert pre. unfold FifoSet.add_all.
  induction xs as [| x xs IH]; intros pre Hnd Hlen; cbn [fold_left].
  - now rewrite app_nil_r.
  - assert (Hx : ~ In x pre).
    { intros Hin. apply NoDup_remove_2 in Hnd. apply Hnd, in_or_app. now left. }
    rewrite length_app in Hlen. cbn [length] in Hlen.
    rewrite FifoSet_add_room by (cbn; auto; lia). cbn [snd FifoSet.items FifoSet.maxCapacity].
    rewrite IH.
    + now rewrite <- app_assoc.
    + now rewrite <- app_assoc.
    + rewrite !length_app. cbn [length]. lia.
Qed.

(** With a capacity of one or more, no operation takes the size over it. *)
Lemma FifoSet_size_step s o :
  (1 <= FifoSet.maxCapacity s)%Z ->
  (Z.of_nat (FifoSet.size s) <= FifoSet.maxCapacity s)%Z ->
  (Z.of_nat (FifoSet.size (FifoSet.step T_eq_dec s o))
   <= FifoSet.maxCapacity (FifoSet.step T_eq_dec s o))%Z.
Proof.
  unfold FifoSet.size. intros Hc Hs. destruct o as [x | x |]; cbn [FifoSet.step].
  - unfold FifoSet.add.
    destruct (JsSet.has T_eq_dec x (FifoSet.items s)) eqn:E; cbn [snd]; auto.
    cbn [FifoSet.items FifoSet.maxCapacity].
    rewrite Z.geb_leb.
    destruct (Z.leb_spec (FifoSet.maxCapacity s) (Z.of_nat (length (FifoSet.items s)))).
    + destruct (FifoSet.items s) as [| oldest rest] eqn:Ei; [cbn in *; lia |].
      cbn [JsSet.first hd_error].
      assert (Hin : In oldest (oldest :: rest)) by now left.
      pose proof (remove_length_lt T_eq_dec (oldest :: rest) oldest Hin) as Hlt.
      unfold JsSet.add, JsSet.delete.
      destruct (JsSet.has T_eq_dec x (remove T_eq_dec oldest (oldest :: rest)));
        [| rewrite length_app; cbn [length]]; lia.
    + unfold JsSet.add. rewrite E. rewrite length_app. cbn [length]. lia.
  - cbn [snd FifoSet.delete FifoSet.items FifoSet.maxCapacity].
    pose proof (remove_length_le T_eq_dec (FifoSet.items s) x).
    unfold JsSet.delete. lia.
  - cbn. lia.
Qed.

Lemma FifoSet_capacity_step s o :
  FifoSet.maxCapacity (FifoSet.step T_eq_dec s o) = FifoSet.maxCapacity s.
Proof.
  destruct o; cbn [FifoSet.step]; [apply FifoSet_capacity_add | reflexivity | reflexivity].
Qed.

Lemma FifoSet_size_run ops c :
  (1 <= c)%Z ->
  forall s, FifoSet.maxCapacity s = c ->
  (Z.of_nat (FifoSet.size s) <= c)%Z ->
  (Z.of_nat (FifoSet.size (FifoSet.run T_eq_dec ops s)) <= c)%Z.
Proof.
  intros Hc. unfold FifoSet.run.
  induction ops as [| o ops IH]; cbn [fold_left]; intros s Hcap Hs; auto.
  apply IH.
  - now rewrite FifoSet_capacity_step.
  - rewrite <- Hcap, <- (FifoSet_capacity_step s o).
    apply FifoSet_size_step; rewrite Hcap; auto.
Qed.
End FifoSetFacts.

(* ================================================================= *)
(** ** The recency window: eviction order, capacity, round trip *)

Section FifoSetProperties.
Variable T : Type.
Variable T_eq_dec : forall x y : T, {x = y} + {x <> y}.

(** C1. For a capacity [C >= 1] and [N > C] pairwise distinct items
    added in order with [add] to a new set of capacity [C], the members
    are exactly the last [C] items of the sequence, and [serialize]
    lists them in their original order. *)
Theorem add_sequence_keeps_last_capacity (C : Z) (xs : list T) :
  (1 <= C)%Z -> NoDup xs -> (C < Z.of_nat (length xs))%Z ->
  let s := FifoSet.add_all T_eq_dec xs (FifoSet.new T C) in
  let lastC := skipn (length xs - Z.to_nat C) xs in
  length lastC = Z.to_nat C /\
  FifoSet.serialize s = lastC /\
  (forall x, FifoSet.has T_eq_dec x s = true <-> In x lastC).
Proof.
  intros HC Hnd HN s lastC.
  assert (Hs : s = FifoSet.mk lastC C).
  { subst s lastC. unfold FifoSet.new.
    rewrite <- (Z2Nat.id C) at 1 2 by lia.
    rewrite FifoSet_add_all_window; cbn [app length]; auto; try lia.
    now rewrite Z2Nat.id by lia. }
  split; [| split].
  - subst lastC. rewrite length_skipn. lia.
  - now rewrite Hs.
  - intros x. rewrite Hs. apply FifoSet_has_true.
Qed.

(** C3, as the code has it. In a set of capacity 0, [add] of an item
    that is not a member returns [true]. *)
Theorem add_capacity_zero_returns_true (s : FifoSet.t T) (x : T) :
  FifoSet.maxCapacity s = 0%Z ->
  FifoSet.has T_eq_dec x s = false ->
  fst (FifoSet.add T_eq_dec x s) = true.
Proof.
  intros _ Hx. unfold FifoSet.add. unfold FifoSet.has in Hx. now rewrite Hx.
Qed.

(** C4. For a set [s] of capacity [C] whose serialized sequence has at
    most [C] items, [deserialize (serialize s) C] is [s] again: the same
    members in the same, oldest first, order. *)
Theorem deserialize_serialize (s : FifoSet.t T) :
  FifoSet.wf s ->
  (Z.of_nat (length (FifoSet.serialize s)) <= FifoSet.maxCapacity s)%Z ->
  let s' := FifoSet.deserialize T_eq_dec (FifoSet.serialize s) (FifoSet.maxCapacity s) in
  s' = s /\
  FifoSet.serialize s' = FifoSet.serialize s /\
  (forall x, FifoSet.has T_eq_dec x s' = FifoSet.has T_eq_dec x s).
Proof.
  intros Hwf Hlen s'.
  assert (Hs : s' = s).
  { subst s'. unfold FifoSet.deserialize, FifoSet.new, FifoSet.serialize in *.
    rewrite FifoSet_add_all_fits; cbn [app]; auto. now destruct s. }
  rewrite Hs. auto.
Qed.
End FifoSetProperties.

(** C1 at capacity 2 and the items [a], [b], [c]. *)
Lemma add_sequence_keeps_last_capacity_witness :
  FifoSet.serialize
    (FifoSet.add_all string_dec ["a"; "b"; "c"]%string (FifoSet.new string 2))
  = ["b"; "c"]%string.
Proof.
  refine (proj1 (proj2 (add_sequence_keeps_last_capacity string_dec (C := 2)
                          (xs := ["a"; "b"; "c"]%string) _ _ _))).
  - lia.
  - repeat constructor; simpl; intuition discriminate.
  - simpl. lia.
Defined.

(** C2, at its failing input. A new set of capacity 0 holds one item after
    one [add]: its size is over its capacity. *)
Theorem add_capacity_zero_exceeds_capacity :
  let s := FifoSet.run string_dec [FifoSet.Add "a"%string] (FifoSet.new string 0) in
  FifoSet.serialize s = ["a"%string] /\
  FifoSet.size s = 1%nat /\
  (FifoSet.capacity s < Z.of_nat (FifoSet.size s))%Z.
Proof. cbv. repeat split. Qed.

(** C3 fails on the code: on a new set of capacity 0, [add] of an item
    returns [true] and the item is a member afterwards. *)
Lemma add_capacity_zero_counterexample :
  let r := FifoSet.add string_dec "a"%string (FifoSet.new string 0) in
  fst r = true /\
  FifoSet.has string_dec "a"%string (snd r) = true /\
  ~ (fst r = false /\ FifoSet.serialize (snd r) = []).
Proof.
  cbv zeta. rewrite FifoSet_add_empty. cbn [fst snd]. repeat split.
  intros [H _]. discriminate H.
Qed.

(** C3 as amended, on a new set of capacity 0. *)
Lemma add_capacity_zero_returns_true_witness :
  fst (FifoSet.add string_dec "a"%string (FifoSet.new string 0)) = true.
Proof.
  apply (add_capacity_zero_returns_true string_dec (FifoSet.new string 0) "a"%string);
    reflexivity.
Defined.

(** C4 on a set of capacity 3 that holds [a] and [b]. *)
Lemma deserialize_serialize_witness :
  FifoSet.deserialize string_dec ["a"; "b"]%string 3
  = FifoSet.mk ["a"; "b"]%string 3.
Proof.
  refine (proj1 (deserialize_serialize string_dec
                   (s := FifoSet.mk ["a"; "b"]%string 3) _ _)).
  - repeat constructor; simpl; intuition discriminate.
  - simpl. lia.
Defined.

(* ================================================================= *)
(** ** Facts about strings and maps *)

Section JsMapFacts.
Variable V : Type.

Lemma JsMap_get_set_same k (v : V) m : JsMap.get k (JsMap.set k v m) = Some v.
Proof.
  induction m as [| [k' v'] m IH]; cbn.
  - now rewrite String.eqb_refl.
  - destruct (String.eqb k k') eqn:E; cbn; rewrite E; auto.
Qed.

Lemma JsMap_get_set_other k k' (v : V) m :
  k' <> k -> JsMap.get k' (JsMap.set k v m) = JsMap.get k' m.
Proof.
  intros Hk. induction m as [| [k0 v0] m IH]; cbn.
  - apply String.eqb_neq in Hk. now rewrite Hk.
  - destruct (String.eqb k k0) eqn:E; cbn.
    + apply String.eqb_eq in E. subst k0.
      apply String.eqb_neq in Hk. now rewrite Hk.
    + now rewrite IH.
Qed.

Lemma JsMap_set_set k (v1 v2 : V) m :
  JsMap.set k v2 (JsMap.set k v1 m) = JsMap.set k v2 m.
Proof.
  induction m as [| [k' v'] m IH]; cbn.
  - now rewrite String.eqb_refl.
  - destruct (String.eqb k k') eqn:E; cbn; rewrite E; [reflexivity | now rewrite IH].
Qed.

Lemma JsMap_get_delete_same k (m : JsMap.t V) : JsMap.get k (JsMap.delete k m) = None.
Proof.
  unfold JsMap.delete. induction m as [| [k' v'] m IH]; cbn; auto.
  destruct (String.eqb k k') eqn:E; cbn; auto. now rewrite E.
Qed.

Lemma JsMap_get_delete_other k k' (m : JsMap.t V) :
  k' <> k -> JsMap.get k' (JsMap.delete k m) = JsMap.get k' m.
Proof.
  intros Hk. unfold JsMap.delete. induction m as [| [k0 v0] m IH]; cbn; auto.
  destruct (String.eqb k k0) eqn:E; cbn.
  - apply String.eqb_eq in E. subst k0.
    apply String.eqb_neq in Hk. now rewrite Hk.
  - now rewrite IH.
Qed.

Lemma JsMap_get_in k (v : V) m : JsMap.get k m = Some v -> In (k, v) m.
Proof.
  induction m as [| [k' v'] m IH]; cbn; [discriminate |].
  destruct (String.eqb k k') eqn:E.
  - apply String.eqb_eq in E. intros [= ->]. subst. now left.
  - auto.
Qed.

(** An entry of [set k v m] is the new one or an entry of [m]. *)
Lemma JsMap_in_set k (v : V) m e :
  In e (JsMap.set k v m) -> e = (k, v) \/ In e m.
Proof.
  induction m as [| [k' v'] m IH]; cbn.
  - intros [<- | []]. now left.
  - destruct (String.eqb k k') eqn:E; cbn.
    + apply String.eqb_eq in E. subst k'. intros [<- | H]; auto.
    + intros [<- | H]; auto. apply IH in H. tauto.
Qed.

Lemma JsMap_in_delete k (m : JsMap.t V) e : In e (JsMap.delete k m) -> In e m.
Proof. unfold JsMap.delete. intros H. now apply filter_In in H. Qed.

Lemma JsMap_keys_set k (v : V) m :
  JsMap.keys (JsMap.set k v m)
  = if JsMap.has k m then JsMap.keys m else JsMap.keys m ++ [k].
Proof.
  unfold JsMap.has, JsMap.keys. induction m as [| [k' v'] m IH]; cbn; auto.
  destruct (String.eqb k k') eqn:E; cbn; auto.
  rewrite IH. now destruct (JsMap.get k m).
Qed.

Lemma JsMap_has_in_keys k (m : JsMap.t V) : JsMap.has k m = true <-> In k (JsMap.keys m).
Proof.
  unfold JsMap.has, JsMap.keys. induction m as [| [k' v'] m IH]; cbn.
  - split; [discriminate | tauto].
  - destruct (String.eqb k k') eqn:E.
    + apply String.eqb_eq in E. subst. split; auto.
    + rewrite IH. apply String.eqb_neq in E. split; [auto | intros [? | ?]; congruence || auto].
Qed.

Lemma JsMap_wf_set k (v : V) m : JsMap.wf m -> JsMap.wf (JsMap.set k v m).
Proof.
  unfold JsMap.wf. intros H. rewrite JsMap_keys_set.
  destruct (JsMap.has k m) eqn:E; auto.
  apply NoDup_app; auto.
  - constructor; [intros [] | constructor].
  - intros x Hx [<- | []]. apply JsMap_has_in_keys in Hx. congruence.
Qed.

Lemma JsMap_wf_delete k (m : JsMap.t V) : JsMap.wf m -> JsMap.wf (JsMap.delete k m).
Proof.
  unfold JsMap.wf, JsMap.delete, JsMap.keys.
  induction m as [| [k' v'] m IH]; cbn; auto.
  intros H. inversion H as [| ? ? Hk Hm]; subst.
  destruct (String.eqb k k'); cbn; auto.
  constructor; auto. intros Hin. apply Hk.
  apply in_map_iff in Hin. destruct Hin as [e [He Hin]].
  apply filter_In in Hin. apply in_map_iff. exists e. tauto.
Qed.

(** Maps with different answers to one [get] are different maps. *)
Lemma JsMap_get_differs k (m m' : JsMap.t V) :
  JsMap.get k m <> JsMap.get k m' -> m <> m'.
Proof. intros H ->. now apply H. Qed.
End JsMapFacts.

Lemma JsMap_get_map (V W : Type) (g : V -> W) k (m : JsMap.t V) :
  JsMap.get k (map (fun e => (fst e, g (snd e))) m) = option_map g (JsMap.get k m).
Proof.
  induction m as [| [k' v'] m IH]; cbn; auto.
  destruct (String.eqb k k'); auto.
Qed.

Lemma toLowerCase_idempotent s :
  JsString.toLowerCase (JsString.toLowerCase s) = JsString.toLowerCase s.
Proof.
  induction s as [| c s IH]; cbn; [reflexivity |]. rewrite IH. f_equal.
  unfold JsString.lower_char at 1.
  destruct (JsString.is_upper (JsString.lower_char c)) eqn:E; [| reflexivity].
  exfalso. revert E. destruct c as [[] [] [] [] [] [] [] []]; vm_compute; discriminate.
Qed.

(* ================================================================= *)
(** ** Facts about the methods of [ConversationManager] *)

Import ConversationManager.

Ltac unfold_M :=
  unfold saveUserData, mkdirSync, writeFileSync, readAndParse,
    sendToSpecificAddresses, console_write, when, try_catch, bind, gets,
    modify, ret, throw in *.

(** [saveUserData] returns, whether the write throws or not: a write that
    throws is logged, one that does not leaves the snapshot on disk. *)
Lemma saveUserData_eq f st :
  saveUserData f st
  = (Return tt,
     if write_throws f then logged Error_save_failed (write_failed f (snapshot st) st)
     else with_disk (mkDisk (dir_exists (disk st)) (Some (Parsed (snapshot st)))) st).
Proof.
  unfold_M. unfold write_failed.
  destruct (write_throws f), (write_leaves f); reflexivity.
Qed.

Lemma saved_eq f st :
  saved f st
  = if write_throws f then logged Error_save_failed (write_failed f (snapshot st) st)
    else with_disk (mkDisk (dir_exists (disk st)) (Some (Parsed (snapshot st)))) st.
Proof. unfold saved. now rewrite saveUserData_eq. Qed.

Lemma saved_memory f st :
  seenPostsBySubreddit (saved f st) = seenPostsBySubreddit st /\
  userSubscriptions (saved f st) = userSubscriptions st /\
  outbox (saved f st) = outbox st.
Proof.
  rewrite saved_eq. unfold write_failed.
  destruct (write_throws f), (write_leaves f); auto.
Qed.

(** [subscribeToSubreddit], by cases on the topics the subscriber has. *)
Lemma subscribeToSubreddit_eq f a s st :
  let k := JsString.toLowerCase a in
  let n := JsString.toLowerCase s in
  let subs := getUserSubscriptions st a in
  subscribeToSubreddit f a s st
  = if JsSet.has string_dec n subs then (Return false, st)
    else (Return true,
          logged (Log_subscribed a s)
            (saved f (with_subscriptions
                        (JsMap.set k (JsSet.add string_dec n subs) (userSubscriptions st))
                        st))).
Proof.
  cbv zeta. unfold subscribeToSubreddit, getUserSubscriptions, JsMap.has.
  unfold bind at 1. unfold gets at 1.
  destruct (JsMap.get (JsString.toLowerCase a) (userSubscriptions st)) as [u |] eqn:E.
  - cbn [negb when]. unfold bind at 1. unfold ret at 1.
    unfold bind at 1. unfold gets at 1. rewrite E.
    destruct (JsSet.has string_dec (JsString.toLowerCase s) u) eqn:H; [reflexivity |].
    unfold bind, modify, console_write, ret. unfold saved.
    destruct (saveUserData f _) as [[[] |] st'] eqn:Es;
      rewrite saveUserData_eq in Es; inversion Es; reflexivity.
  - cbn [negb when]. unfold bind at 1. unfold modify at 1.
    unfold bind at 1. unfold gets at 1. cbn [userSubscriptions with_subscriptions].
    rewrite JsMap_get_set_same.
    change (JsSet.has string_dec (JsString.toLowerCase s) []) with false. cbv iota.
    unfold bind, modify, console_write, ret. unfold saved.
    unfold with_subscriptions at 1 2. cbn [userSubscriptions seenPostsBySubreddit disk console outbox].
    rewrite JsMap_set_set. fold (with_subscriptions
      (JsMap.set (JsString.toLowerCase a)
         (JsSet.add string_dec (JsString.toLowerCase s) []) (userSubscriptions st)) st).
    destruct (saveUserData f _) as [[[] |] st'] eqn:Es;
      rewrite saveUserData_eq in Es; inversion Es; reflexivity.
Qed.

(** [unsubscribeFromSubreddit], by cases on the topics the subscriber has. *)
Lemma unsubscribeFromSubreddit_eq f a s st :
  let k := JsString.toLowerCase a in
  let n := JsString.toLowerCase s in
  unsubscribeFromSubreddit f a s st
  = match JsMap.get k (userSubscriptions st) with
    | None => (Return false, st)
    | Some subs =>
        if JsSet.has string_dec n subs then
          let subs' := JsSet.delete string_dec n subs in
          let m := JsMap.set k subs' (userSubscriptions st) in
          (Return true,
           logged (Log_unsubscribed a s)
             (saved f (with_subscriptions
                         (if (length subs' =? 0)%nat then JsMap.delete k m else m) st)))
        else (Return false, st)
    end.
Proof.
  cbv zeta. unfold unsubscribeFromSubreddit.
  unfold bind at 1. unfold gets at 1.
  destruct (JsMap.get (JsString.toLowerCase a) (userSubscriptions st)) as [u |]; [| reflexivity].
  destruct (JsSet.has string_dec (JsString.toLowerCase s) u); [| reflexivity].
  cbn [negb]. unfold saved.
  destruct (length (JsSet.delete string_dec (JsString.toLowerCase s) u) =? 0)%nat;
    unfold when, bind, modify, console_write, ret;
    unfold with_subscriptions at 1 2;
    cbn [userSubscriptions seenPostsBySubreddit disk console outbox];
    rewrite !saveUserData_eq; reflexivity.
Qed.

(** [unsubscribeFromAllSubreddits], by cases on the topics the subscriber has. *)
Lemma unsubscribeFromAllSubreddits_eq f a st :
  let k := JsString.toLowerCase a in
  unsubscribeFromAllSubreddits f a st
  = match JsMap.get k (userSubscriptions st) with
    | None => (Return false, st)
    | Some subs =>
        if (length subs =? 0)%nat then (Return false, st)
        else (Return true,
              logged (Log_unsubscribed_all a (length subs))
                (saved f (with_subscriptions (JsMap.delete k (userSubscriptions st)) st)))
    end.
Proof.
  cbv zeta. unfold unsubscribeFromAllSubreddits.
  unfold bind at 1. unfold gets at 1.
  destruct (JsMap.get (JsString.toLowerCase a) (userSubscriptions st)) as [u |]; [| reflexivity].
  destruct (length u =? 0)%nat; [reflexivity |].
  unfold saved, bind, modify, console_write, ret.
  rewrite !saveUserData_eq. reflexivity.
Qed.

(** The subscribers of a topic depend on the registry only. *)
Lemma getSubscribersForSubreddit_ext st st' s :
  userSubscriptions st' = userSubscriptions st ->
  getSubscribersForSubreddit st' s = getSubscribersForSubreddit st s.
Proof. unfold getSubscribersForSubreddit. now intros ->. Qed.

Lemma getSubscribersForSubreddit_saved f m st s :
  getSubscribersForSubreddit (saved f (with_seen m st)) s = getSubscribersForSubreddit st s.
Proof.
  apply getSubscribersForSubreddit_ext.
  now rewrite (proj1 (proj2 (saved_memory f (with_seen m st)))).
Qed.

Section WithDateFacts.
Variable toUTCString : string -> string.

(** [sendRedditPostToSubscribers], by cases on the window of the topic, the
    subscribers and the messaging client. *)
Lemma sendRedditPostToSubscribers_eq f post s st :
  let n := JsString.toLowerCase s in
  let window :=
    match JsMap.get n (seenPostsBySubreddit st) with
    | Some w => w
    | None => FifoSet.new string 50
    end in
  sendRedditPostToSubscribers toUTCString f post s st
  = if FifoSet.has string_dec (id post) window then
      (Return false,
       match JsMap.get n (seenPostsBySubreddit st) with
       | Some _ => st
       | None => with_seen (JsMap.set n (FifoSet.new string 50) (seenPostsBySubreddit st)) st
       end)
    else
      let st1 :=
        saved f (with_seen
                   (JsMap.set n (snd (FifoSet.add string_dec (id post) window))
                      (seenPostsBySubreddit st)) st) in
      let subscribers := getSubscribersForSubreddit st s in
      if (length subscribers =? 0)%nat then
        (Return false, logged (Log_no_subscribers s) st1)
      else if list_throws f then (Throw, st1)
      else (Return true,
            with_outbox
              (outbox st1 ++ [(RedditService.formatRedditPost toUTCString post, subscribers)])
              st1).
Proof.
  cbv zeta. unfold sendRedditPostToSubscribers, JsMap.has.
  unfold bind at 1. unfold gets at 1.
  destruct (JsMap.get (JsString.toLowerCase s) (seenPostsBySubreddit st)) as [w |] eqn:E.
  - cbn [negb when]. unfold bind at 1. unfold ret at 1.
    unfold bind at 1. unfold gets at 1. rewrite E.
    destruct (FifoSet.has string_dec (id post) w); [reflexivity |].
    unfold bind at 1. unfold modify at 1.
    unfold bind at 1. rewrite saveUserData_eq. fold (saved f
      (with_seen (JsMap.set (JsString.toLowerCase s)
         (snd (FifoSet.add string_dec (id post) w)) (seenPostsBySubreddit st)) st)).
    rewrite <- saved_eq.
    unfold bind at 1. unfold gets at 1.
    rewrite getSubscribersForSubreddit_saved.
    destruct (length (getSubscribersForSubreddit st s) =? 0)%nat; [reflexivity |].
    unfold bind, sendToSpecificAddresses, ret, throw, modify.
    destruct (list_throws f); reflexivity.
  - cbn [negb when]. unfold bind at 1. unfold modify at 1.
    unfold bind at 1. unfold gets at 1. cbn [seenPostsBySubreddit with_seen].
    rewrite JsMap_get_set_same.
    change (FifoSet.has string_dec (id post) (FifoSet.new string 50)) with false. cbv iota.
    unfold bind at 1. unfold modify at 1.
    unfold with_seen. cbn [userSubscriptions seenPostsBySubreddit disk console outbox].
    rewrite JsMap_set_set.
    fold (with_seen (JsMap.set (JsString.toLowerCase s)
            (snd (FifoSet.add string_dec (id post) (FifoSet.new string 50)))
            (seenPostsBySubreddit st)) st).
    unfold bind at 1. rewrite saveUserData_eq. rewrite <- saved_eq.
    unfold bind at 1. unfold gets at 1.
    rewrite getSubscribersForSubreddit_saved.
    destruct (length (getSubscribersForSubreddit st s) =? 0)%nat; [reflexivity |].
    unfold bind, sendToSpecificAddresses, ret, throw, modify.
    destruct (list_throws f); reflexivity.
Qed.
End WithDateFacts.

(** The two loops over the entries of an unchecked document store the
    entries before the first value they cannot iterate, and throw there. *)
Lemma for_each_store_subscription entries st :
  for_each store_subscription entries st
  = (if snd (readable_prefix topics_of entries) then Throw else Return tt,
     with_subscriptions
       (load_subscriptions (fst (readable_prefix topics_of entries)) (userSubscriptions st))
       st).
Proof.
  revert st. induction entries as [| [k v] r IH]; intros st.
  - destruct st; reflexivity.
  - cbn [for_each readable_prefix fst snd]. unfold bind at 1.
    unfold store_subscription at 1. cbn [fst snd].
    destruct (topics_of v) as [items |].
    + unfold modify at 1. rewrite IH.
      destruct (readable_prefix topics_of r) as [stored throws]. cbn [fst snd].
      destruct throws; reflexivity.
    + destruct st; reflexivity.
Qed.

Lemma for_each_store_window entries st :
  for_each store_window entries st
  = (if snd (readable_prefix ids_of entries) then Throw else Return tt,
     with_seen
       (load_seen (fst (readable_prefix ids_of entries)) (seenPostsBySubreddit st))
       st).
Proof.
  revert st. induction entries as [| [k v] r IH]; intros st.
  - destruct st; reflexivity.
  - cbn [for_each readable_prefix fst snd]. unfold bind at 1.
    unfold store_window at 1. cbn [fst snd].
    destruct (ids_of v) as [items |].
    + unfold modify at 1. rewrite IH.
      destruct (readable_prefix ids_of r) as [stored throws]. cbn [fst snd].
      destruct throws; reflexivity.
    + destruct st; reflexivity.
Qed.

(** [loadUserData] on the maps of a new manager, by cases on the disk and
    on the calls that throw. *)
Lemma constructor_eq f d :
  let d1 := if dir_exists d then d else mkDisk true (data_file d) in
  constructor f d
  = (Return tt,
     if negb (dir_exists d) && mkdir_throws f then logged Error_load_failed (fresh d)
     else
       match data_file d with
       | None =>
           if write_throws f
           then logged Error_load_failed (write_failed f initialData (fresh d1))
           else fresh (mkDisk (dir_exists d1) (Some (Parsed initialData)))
       | Some content =>
           if read_throws f then logged Error_load_failed (fresh d1)
           else
             match content with
             | Unparseable => logged Error_load_failed (fresh d1)
             | Parsed data =>
                 let subs :=
                   match subscriptions data with
                   | Some entries => load_subscriptions entries []
                   | None => []
                   end in
                 let seen :=
                   match seenPosts data with
                   | Some entries => load_seen entries []
                   | None => []
                   end in
                 logged (Log_loaded (JsMap.size subs) (JsMap.size seen))
                   (mkState seen subs d1 [] [])
             | Parsed_loose data =>
                 let subs :=
                   match subscriptions (fst (stored_part data)) with
                   | Some entries => load_subscriptions entries []
                   | None => []
                   end in
                 let seen :=
                   match seenPosts (fst (stored_part data)) with
                   | Some entries => load_seen entries []
                   | None => []
                   end in
                 logged
                   (if snd (stored_part data) then Error_load_failed
                    else Log_loaded (JsMap.size subs) (JsMap.size seen))
                   (mkState seen subs d1 [] [])
             end
       end).
Proof.
  destruct d as [dir file], f as [mk wr rd ls tr].
  unfold constructor, loadUserData.
  destruct file as [[| data | [subs posts]] |].
  - unfold_M. destruct dir, mk, rd; reflexivity.
  - unfold_M. destruct data as [[subs |] [posts |]], dir, mk, rd; reflexivity.
  - unfold stored_part. cbn [loose_subscriptions loose_seenPosts].
    unfold mkdirSync, writeFileSync, readAndParse, console_write, when, try_catch.
    unfold bind, gets, modify, ret, throw.
    cbn [fresh disk dir_exists data_file mkdir_throws read_throws with_disk
         seenPostsBySubreddit userSubscriptions console outbox].
    destruct subs as [subs |], posts as [posts |], dir, mk, rd;
      cbn [option_map negb andb];
      repeat first
        [ rewrite for_each_store_subscription
        | rewrite for_each_store_window
        | match goal with
          | |- context [readable_prefix ?r ?l] =>
              destruct (readable_prefix r l) as [? []]
          end
        | progress cbn ];
      reflexivity.
  - unfold_M. unfold write_failed. destruct dir, mk, wr, tr; reflexivity.
Qed.

(** Whatever the state, the disk and the calls that throw, [loadUserData]
    returns. *)
Lemma loadUserData_returns f st : fst (loadUserData f st) = Return tt.
Proof.
  unfold loadUserData, try_catch.
  match goal with |- context [let (c, st') := ?body st in _] =>
    destruct (body st) as [[[] |] st'] end; reflexivity.
Qed.

(** The registry calls leave the windows of seen posts alone. *)
Lemma registry_call_seen f o st :
  seenPostsBySubreddit (snd (registry_call f o st)) = seenPostsBySubreddit st.
Proof.
  destruct o as [a s | a s | a]; cbn [registry_call].
  - rewrite subscribeToSubreddit_eq.
    destruct (JsSet.has string_dec _ _); cbn [snd]; [reflexivity |].
    cbn [logged with_console seenPostsBySubreddit].
    now rewrite (proj1 (saved_memory f _)).
  - rewrite unsubscribeFromSubreddit_eq.
    destruct (JsMap.get _ _); [| reflexivity].
    destruct (JsSet.has string_dec _ _); cbn [snd]; [| reflexivity].
    cbn [logged with_console seenPostsBySubreddit].
    now rewrite (proj1 (saved_memory f _)).
  - rewrite unsubscribeFromAllSubreddits_eq.
    destruct (JsMap.get _ _); [| reflexivity].
    destruct (length _ =? 0)%nat; cbn [snd]; [reflexivity |].
    cbn [logged with_console seenPostsBySubreddit].
    now rewrite (proj1 (saved_memory f _)).
Qed.

Lemma registry_run_seen calls st :
  seenPostsBySubreddit (registry_run calls st) = seenPostsBySubreddit st.
Proof.
  revert st. unfold registry_run.
  induction calls as [| c calls IH]; intros st; cbn [fold_left]; [reflexivity |].
  rewrite IH. apply registry_call_seen.
Qed.

Lemma seen_ext st st' s i :
  seenPostsBySubreddit st' = seenPostsBySubreddit st -> seen st' s i = seen st s i.
Proof. unfold seen. now intros ->. Qed.

Lemma seen_same_topic st s s' i :
  JsString.toLowerCase s' = JsString.toLowerCase s -> seen st s' i = seen st s i.
Proof. unfold seen. now intros ->. Qed.

Section DeliveryFacts.
Variable toUTCString : string -> string.

(** A post whose id is in the window of its topic is not sent, and nothing
    changes. *)
Lemma sendRedditPostToSubscribers_seen f post s st :
  seen st s (id post) = true ->
  sendRedditPostToSubscribers toUTCString f post s st = (Return false, st).
Proof.
  unfold seen. intros H. rewrite sendRedditPostToSubscribers_eq.
  destruct (JsMap.get (JsString.toLowerCase s) (seenPostsBySubreddit st)) as [w |];
    [| discriminate].
  now rewrite H.
Qed.

(** After the call the id of the post is in the window of its topic,
    whatever the call returned. *)
Lemma sendRedditPostToSubscribers_marks_seen f post s st :
  seen (snd (sendRedditPostToSubscribers toUTCString f post s st)) s (id post) = true.
Proof.
  destruct (seen st s (id post)) eqn:Hseen.
  - now rewrite sendRedditPostToSubscribers_seen.
  - rewrite sendRedditPostToSubscribers_eq.
    set (w := match JsMap.get _ _ with Some w => w | None => FifoSet.new string 50 end).
    assert (Hw : FifoSet.has string_dec (id post) w = false).
    { subst w. unfold seen in Hseen.
      destruct (JsMap.get (JsString.toLowerCase s) (seenPostsBySubreddit st)); auto. }
    rewrite Hw.
    set (m := JsMap.set _ _ _).
    assert (Hm : forall st', seenPostsBySubreddit st' = m -> seen st' s (id post) = true).
    { intros st' E. unfold seen. rewrite E. subst m. rewrite JsMap_get_set_same.
      apply FifoSet_has_after_add. }
    cbv zeta.
    destruct (length _ =? 0)%nat; [| destruct (list_throws f)]; cbn [snd]; apply Hm;
      cbn [logged with_console with_outbox seenPostsBySubreddit];
      now rewrite (proj1 (saved_memory f _)).
Qed.
End DeliveryFacts.

(* ================================================================= *)
(** ** Delivery at most once *)

(** C6. When [sendRedditPostToSubscribers] is called for a topic without
    subscribers it returns [false] and the id of the post is recorded as
    seen; a later call for the same topic and id returns [false] and sends
    nothing, whatever subscriptions were made in between. *)
Theorem delivery_without_subscribers_marks_seen
    (toUTCString : string -> string) (f : Faults) (post : RedditPost)
    (subreddit : string) (st : state) :
  getSubscribersForSubreddit st subreddit = [] ->
  let r := sendRedditPostToSubscribers toUTCString f post subreddit st in
  fst r = Return false /\
  seen (snd r) subreddit (id post) = true /\
  forall calls f' post' subreddit',
    id post' = id post ->
    JsString.toLowerCase subreddit' = JsString.toLowerCase subreddit ->
    let st' := registry_run calls (snd r) in
    sendRedditPostToSubscribers toUTCString f' post' subreddit' st' = (Return false, st').
Proof.
  intros Hnone r. subst r. split; [| split].
  - rewrite sendRedditPostToSubscribers_eq. cbv zeta. rewrite Hnone. cbn [length Nat.eqb].
    now destruct (FifoSet.has string_dec (id post) _).
  - apply sendRedditPostToSubscribers_marks_seen.
  - intros calls f' post' subreddit' Hid Htopic st'.
    apply sendRedditPostToSubscribers_seen.
    rewrite Hid, (seen_same_topic _ _ _ _ Htopic). subst st'.
    rewrite (seen_ext _ _ _ _ (registry_run_seen calls _)).
    apply sendRedditPostToSubscribers_marks_seen.
Qed.

(** C6 on a new manager: a post for [golang] while nobody is subscribed,
    then a subscription to [GoLang], then the same post again. *)
Lemma delivery_without_subscribers_marks_seen_witness :
  let post := mkPost "t3_1" "Title" "https://example.com/a" "" None "u" in
  let st := fresh (mkDisk true None) in
  let r := sendRedditPostToSubscribers (fun d => d) no_fault post "golang" st in
  fst r = Return false /\
  fst (sendRedditPostToSubscribers (fun d => d) no_fault post "GoLang"
         (registry_run [(no_fault, Subscribe "0xABC" "GoLang")] (snd r)))
  = Return false.
Proof.
  cbv zeta.
  pose proof (delivery_without_subscribers_marks_seen (fun d => d) no_fault
                (mkPost "t3_1" "Title" "https://example.com/a" "" None "u")
                "golang" (fresh (mkDisk true None)) eq_refl) as H.
  cbv zeta in H. destruct H as [H1 [_ H3]]. split; [exact H1 |].
  rewrite (H3 [(no_fault, Subscribe "0xABC" "GoLang")] no_fault _ "GoLang"%string
              eq_refl eq_refl).
  reflexivity.
Defined.

(* ================================================================= *)
(** ** Subscribers without topics *)

Lemma no_empty_set k (v : list string) m :
  v <> [] -> no_empty_topic_set m -> no_empty_topic_set (JsMap.set k v m).
Proof.
  unfold no_empty_topic_set. intros Hv Hm. apply Forall_forall. intros e He.
  apply JsMap_in_set in He. destruct He as [-> | He]; [exact Hv |].
  revert e He. now apply Forall_forall.
Qed.

Lemma no_empty_delete k (m : JsMap.t (list string)) :
  no_empty_topic_set m -> no_empty_topic_set (JsMap.delete k m).
Proof.
  unfold no_empty_topic_set. intros Hm. apply Forall_forall. intros e He.
  apply JsMap_in_delete in He. revert e He. now apply Forall_forall.
Qed.

(** Deleting a key right after setting it leaves entries of the map before. *)
Lemma JsMap_in_delete_set (V : Type) k (v : V) m e :
  In e (JsMap.delete k (JsMap.set k v m)) -> In e m.
Proof.
  unfold JsMap.delete. intros H. apply filter_In in H. destruct H as [H Hk].
  apply JsMap_in_set in H. destruct H as [-> | H]; [| exact H].
  cbn [fst] in Hk. now rewrite String.eqb_refl in Hk.
Qed.

Lemma no_empty_get k (v : list string) m :
  no_empty_topic_set m -> JsMap.get k m = Some v -> v <> [].
Proof.
  unfold no_empty_topic_set. intros Hm Hg. apply JsMap_get_in in Hg.
  rewrite Forall_forall in Hm. exact (Hm _ Hg).
Qed.

Lemma userSubscriptions_logged_saved e f m st :
  userSubscriptions (logged e (saved f (with_subscriptions m st))) = m.
Proof.
  cbn [logged with_console userSubscriptions].
  now rewrite (proj1 (proj2 (saved_memory f _))).
Qed.

(** The three registry calls keep every subscriber with a topic. *)
Lemma registry_call_no_empty f o st :
  no_empty_topic_set (userSubscriptions st) ->
  no_empty_topic_set (userSubscriptions (snd (registry_call f o st))).
Proof.
  intros H. destruct o as [a s | a s | a]; cbn [registry_call].
  - rewrite subscribeToSubreddit_eq. cbv zeta.
    destruct (JsSet.has string_dec _ _) eqn:E; cbn [snd]; [exact H |].
    rewrite userSubscriptions_logged_saved. apply no_empty_set; [| exact H].
    unfold JsSet.add. rewrite E. now destruct (getUserSubscriptions st a).
  - rewrite unsubscribeFromSubreddit_eq. cbv zeta.
    destruct (JsMap.get _ _) as [subs |]; [| exact H].
    destruct (JsSet.has string_dec _ _); cbn [snd]; [| exact H].
    rewrite userSubscriptions_logged_saved.
    destruct (length _ =? 0)%nat eqn:E.
    + unfold no_empty_topic_set in *. apply Forall_forall. intros e He.
      apply JsMap_in_delete_set in He. rewrite Forall_forall in H. now apply H.
    + apply no_empty_set; [| exact H].
      apply Nat.eqb_neq in E. intros E'. now rewrite E' in E.
  - rewrite unsubscribeFromAllSubreddits_eq. cbv zeta.
    destruct (JsMap.get _ _) as [subs |]; [| exact H].
    destruct (length _ =? 0)%nat; cbn [snd]; [exact H |].
    rewrite userSubscriptions_logged_saved. now apply no_empty_delete.
Qed.

Lemma JsSet_of_list_nonempty (l : list string) :
  l <> [] -> JsSet.of_list string_dec l <> [].
Proof.
  destruct l as [| x l]; [congruence |]. intros _ E.
  assert (H : In x (JsSet.of_list string_dec (x :: l))).
  { apply JsSet_in_of_list. now left. }
  now rewrite E in H.
Qed.

Lemma load_subscriptions_no_empty entries m :
  Forall (fun e => snd e <> []) entries ->
  no_empty_topic_set m ->
  no_empty_topic_set (load_subscriptions entries m).
Proof.
  unfold load_subscriptions. revert m.
  induction entries as [| e entries IH]; intros m He Hm; cbn [fold_left]; [exact Hm |].
  inversion He; subst. apply IH; [assumption |].
  apply no_empty_set; [| exact Hm]. now apply JsSet_of_list_nonempty.
Qed.

(** The subscribers that the loader stores of an unchecked document. *)
Lemma stored_part_subscriptions data :
  subscriptions (fst (stored_part data))
  = option_map (fun entries => fst (readable_prefix topics_of entries))
      (loose_subscriptions data).
Proof.
  unfold stored_part.
  destruct (loose_subscriptions data) as [subs |]; cbn [option_map]; [| reflexivity].
  destruct (readable_prefix topics_of subs) as [stored []]; reflexivity.
Qed.

Lemma readable_prefix_Forall (P : string -> list string -> Prop) read entries :
  Forall (fun e => forall items, read (snd e) = Some items -> P (fst e) items) entries ->
  Forall (fun e => P (fst e) (snd e)) (fst (readable_prefix read entries)).
Proof.
  induction entries as [| [k v] r IH]; intros H; cbn [readable_prefix fst snd];
    [constructor |].
  inversion H as [| ? ? Hv Hr]; subst. cbn [fst snd] in Hv.
  destruct (read v) as [items |]; [| constructor].
  specialize (IH Hr). destruct (readable_prefix read r) as [stored throws].
  cbn [fst] in *. constructor; [now apply Hv | exact IH].
Qed.

Lemma constructor_no_empty f d :
  disk_no_empty_topic_list d ->
  no_empty_topic_set (userSubscriptions (snd (constructor f d))).
Proof.
  unfold disk_no_empty_topic_list. intros H. rewrite constructor_eq. cbv zeta. cbn [snd].
  destruct (negb (dir_exists d) && mkdir_throws f); [constructor |].
  destruct (data_file d) as [[| data | data] |].
  - destruct (read_throws f); constructor.
  - destruct (read_throws f); [constructor |].
    cbn [logged with_console userSubscriptions].
    destruct (subscriptions data) as [entries |]; [| constructor].
    apply load_subscriptions_no_empty; [exact H | constructor].
  - destruct (read_throws f); [constructor |].
    cbn [logged with_console userSubscriptions].
    rewrite stored_part_subscriptions.
    destruct (loose_subscriptions data) as [entries |]; cbn [option_map]; [| constructor].
    apply load_subscriptions_no_empty; [| constructor].
    apply (readable_prefix_Forall (fun _ items => items <> [])).
    revert H. apply Forall_impl. intros e He items Hi. congruence.
  - unfold write_failed. destruct (write_throws f), (write_leaves f); constructor.
Qed.

Lemma registry_run_no_empty calls st :
  no_empty_topic_set (userSubscriptions st) ->
  no_empty_topic_set (userSubscriptions (registry_run calls st)).
Proof.
  revert st. unfold registry_run.
  induction calls as [| c calls IH]; intros st H; cbn [fold_left]; [exact H |].
  apply IH. now apply registry_call_no_empty.
Qed.

(** The subscriber whose only topic is removed leaves the registry. *)
Lemma unsubscribe_last_topic f a s st :
  getUserSubscriptions st a = [JsString.toLowerCase s] ->
  JsMap.has (JsString.toLowerCase a)
    (userSubscriptions (snd (unsubscribeFromSubreddit f a s st))) = false.
Proof.
  unfold getUserSubscriptions. intros H. rewrite unsubscribeFromSubreddit_eq. cbv zeta.
  destruct (JsMap.get (JsString.toLowerCase a) (userSubscriptions st)) as [subs |];
    [| discriminate].
  subst subs.
  assert (Hin : JsSet.has string_dec (JsString.toLowerCase s) [JsString.toLowerCase s] = true).
  { apply JsSet_has_true. now left. }
  rewrite Hin. cbn [snd]. rewrite userSubscriptions_logged_saved.
  rewrite JsSet_delete_first by (constructor; [intros [] | constructor]).
  cbn [length Nat.eqb]. unfold JsMap.has. now rewrite JsMap_get_delete_same.
Qed.




(* ================================================================= *)
(** ** Lowercase identifiers *)

Lemma JsMap_Forall_set (V : Type) (P : string * V -> Prop) k v m :
  P (k, v) -> Forall P m -> Forall P (JsMap.set k v m).
Proof.
  intros Hv Hm. apply Forall_forall. intros e He.
  apply JsMap_in_set in He. destruct He as [-> | He]; [exact Hv |].
  revert e He. now apply Forall_forall.
Qed.

Lemma JsMap_Forall_delete (V : Type) (P : string * V -> Prop) k (m : JsMap.t V) :
  Forall P m -> Forall P (JsMap.delete k m).
Proof.
  intros Hm. apply Forall_forall. intros e He.
  apply JsMap_in_delete in He. revert e He. now apply Forall_forall.
Qed.

(** The three registry calls store what they are given in lowercase, and
    leave a registry in lowercase in lowercase. *)
Lemma registry_call_lowercase f o st :
  lowercase_registry (userSubscriptions st) ->
  lowercase_registry (userSubscriptions (snd (registry_call f o st))).
Proof.
  unfold lowercase_registry. intros H.
  destruct o as [a s | a s | a]; cbn [registry_call].
  - rewrite subscribeToSubreddit_eq. cbv zeta.
    destruct (JsSet.has string_dec _ _) eqn:E; cbn [snd]; [exact H |].
    rewrite userSubscriptions_logged_saved. apply JsMap_Forall_set; [| exact H].
    cbn [fst snd]. split; [apply toLowerCase_idempotent |].
    apply Forall_forall. intros x Hx. apply JsSet_in_add in Hx.
    destruct Hx as [-> | Hx]; [apply toLowerCase_idempotent |].
    unfold getUserSubscriptions in Hx.
    destruct (JsMap.get (JsString.toLowerCase a) (userSubscriptions st)) as [subs |] eqn:G;
      [| destruct Hx].
    apply JsMap_get_in in G. rewrite Forall_forall in H. apply H in G.
    cbn [snd] in G. destruct G as [_ G]. rewrite Forall_forall in G. now apply G.
  - rewrite unsubscribeFromSubreddit_eq. cbv zeta.
    destruct (JsMap.get _ _) as [subs |] eqn:G; [| exact H].
    destruct (JsSet.has string_dec _ _); cbn [snd]; [| exact H].
    rewrite userSubscriptions_logged_saved.
    assert (Hset : Forall (fun e => is_lowercase (fst e) /\ Forall is_lowercase (snd e))
                     (JsMap.set (JsString.toLowerCase a)
                        (JsSet.delete string_dec (JsString.toLowerCase s) subs)
                        (userSubscriptions st))).
    { apply JsMap_Forall_set; [| exact H]. cbn [fst snd].
      split; [apply toLowerCase_idempotent |].
      apply Forall_forall. intros x Hx. apply JsSet_in_delete in Hx. destruct Hx as [Hx _].
      apply JsMap_get_in in G. rewrite Forall_forall in H. apply H in G.
      cbn [snd] in G. destruct G as [_ G]. rewrite Forall_forall in G. now apply G. }
    destruct (length _ =? 0)%nat; [now apply JsMap_Forall_delete | exact Hset].
  - rewrite unsubscribeFromAllSubreddits_eq. cbv zeta.
    destruct (JsMap.get _ _) as [subs |]; [| exact H].
    destruct (length _ =? 0)%nat; cbn [snd]; [exact H |].
    rewrite userSubscriptions_logged_saved. now apply JsMap_Forall_delete.
Qed.

(** The subscribers of a topic are the keys of the entries that hold it. *)
Lemma getSubscribersForSubreddit_filter st s :
  getSubscribersForSubreddit st s
  = map fst (filter (fun e => JsSet.has string_dec (JsString.toLowerCase s) (snd e))
               (userSubscriptions st)).
Proof.
  unfold getSubscribersForSubreddit.
  assert (G : forall (m : JsMap.t (list string)) (acc : list string),
    fold_left (fun subscribers e =>
                 if JsSet.has string_dec (JsString.toLowerCase s) (snd e)
                 then subscribers ++ [fst e] else subscribers) m acc
    = acc ++ map fst (filter (fun e => JsSet.has string_dec (JsString.toLowerCase s) (snd e)) m)).
  { induction m as [| e m IH]; intros acc; cbn [fold_left filter map].
    - now rewrite app_nil_r.
    - rewrite IH. destruct (JsSet.has string_dec _ (snd e)); [| reflexivity].
      cbn [map]. now rewrite <- app_assoc. }
  apply (G _ []).
Qed.

Lemma NoDup_keys_filter (V : Type) (P : string * V -> bool) (m : JsMap.t V) :
  NoDup (map fst m) -> NoDup (map fst (filter P m)).
Proof.
  induction m as [| e m IH]; cbn [map filter]; [auto |].
  intros H. inversion H as [| ? ? Hk Hm]; subst.
  destruct (P e); cbn [map]; auto.
  constructor; auto. intros Hin. apply Hk.
  apply in_map_iff in Hin. destruct Hin as [e' [He' Hin]].
  apply filter_In in Hin. apply in_map_iff. exists e'. tauto.
Qed.

(** Through the methods the scenario of C5 holds: after
    [subscribeToSubreddit a s], the subscriber is stored under the
    lowercase of [a] with the lowercase of [s] among the topics, and the
    subscribers of any spelling of [s] hold the lowercase of [a] once. *)
Lemma subscribe_then_subscribers f a s s' st :
  JsMap.wf (userSubscriptions st) ->
  JsString.toLowerCase s' = JsString.toLowerCase s ->
  let st' := snd (subscribeToSubreddit f a s st) in
  In (JsString.toLowerCase s) (getUserSubscriptions st' a) /\
  count_occ string_dec (getSubscribersForSubreddit st' s') (JsString.toLowerCase a) = 1%nat.
Proof.
  intros Hwf Hs st'.
  assert (H : JsMap.wf (userSubscriptions st') /\
              exists subs, JsMap.get (JsString.toLowerCase a) (userSubscriptions st') = Some subs
                           /\ In (JsString.toLowerCase s) subs).
  { subst st'. rewrite subscribeToSubreddit_eq. cbv zeta.
    destruct (JsSet.has string_dec _ _) eqn:E; cbn [snd].
    - split; [exact Hwf |]. unfold getUserSubscriptions in E.
      destruct (JsMap.get (JsString.toLowerCase a) (userSubscriptions st)) as [subs |];
        [| discriminate].
      exists subs. split; [reflexivity |]. now apply (JsSet_has_true string_dec).
    - rewrite userSubscriptions_logged_saved. split; [now apply JsMap_wf_set |].
      rewrite JsMap_get_set_same. eexists. split; [reflexivity |].
      apply JsSet_in_add. now left. }
  destruct H as [Hwf' [subs [Hget Hin]]]. split.
  - unfold getUserSubscriptions. now rewrite Hget.
  - rewrite getSubscribersForSubreddit_filter, Hs.
    set (l := map fst _).
    assert (Hnd : NoDup l) by (subst l; now apply NoDup_keys_filter).
    assert (Hl : In (JsString.toLowerCase a) l).
    { subst l. apply in_map_iff. exists (JsString.toLowerCase a, subs). split; [reflexivity |].
      apply filter_In. split; [now apply JsMap_get_in |].
      cbn [snd]. now apply (JsSet_has_true string_dec). }
    pose proof (proj1 (NoDup_count_occ string_dec l) Hnd (JsString.toLowerCase a)) as Hle.
    apply (count_occ_In string_dec) in Hl. lia.
Qed.

(** C5, at its failing input. [loadUserData] puts the subscriber and the
    topic of a window in lowercase, and leaves the topics of a subscriber
    as the document has them: the topic is stored in mixed case, no lookup
    finds the subscriber under it, and the next save writes it as it is. *)
Theorem load_keeps_case_of_subscription_topics :
  let d := mkDisk true
             (Some (Parsed (mkUserData (Some [("0xABC", ["GoLang"])])
                                       (Some [("GoLang", ["t3_1"])]))))%string in
  let st := snd (constructor no_fault d) in
  userSubscriptions st = [("0xabc", ["GoLang"])]%string /\
  JsMap.keys (seenPostsBySubreddit st) = ["golang"]%string /\
  getSubscribersForSubreddit st "GoLang" = [] /\
  getSubscribersForSubreddit st "golang" = [] /\
  fst (unsubscribeFromSubreddit no_fault "0xABC" "GoLang" st) = Return false /\
  subscriptions (snapshot st) = Some [("0xabc", ["GoLang"])]%string.
Proof. cbv zeta. repeat split. Qed.

(* ================================================================= *)
(** ** Loading the document *)

(** The maps that an unchecked document leaves are those that the part of
    it that is stored, as a document of its own, leaves. *)
Lemma constructor_loose_maps f dir data :
  let st := snd (constructor f (mkDisk dir (Some (Parsed_loose data)))) in
  let st' := snd (constructor f (mkDisk dir (Some (Parsed (fst (stored_part data)))))) in
  userSubscriptions st = userSubscriptions st' /\
  seenPostsBySubreddit st = seenPostsBySubreddit st'.
Proof.
  cbv zeta. rewrite !constructor_eq. cbv zeta. cbn [snd dir_exists data_file].
  destruct (negb dir && mkdir_throws f), (read_throws f); auto.
Qed.




(* ================================================================= *)
(** ** The two [formatRedditPost] *)

Lemma list_ascii_of_string_append (a b : string) :
  list_ascii_of_string (a ++ b)%string = list_ascii_of_string a ++ list_ascii_of_string b.
Proof. induction a as [| c a IH]; cbn; [reflexivity | now rewrite IH]. Qed.

Lemma list_ascii_of_string_inj (a b : string) :
  list_ascii_of_string a = list_ascii_of_string b -> a = b.
Proof.
  intros H. rewrite <- (string_of_list_ascii_of_string a), <- (string_of_list_ascii_of_string b).
  now rewrite H.
Qed.

Lemma string_append_inv_head (a x y : string) : (a ++ x = a ++ y)%string -> x = y.
Proof. induction a as [| c a IH]; cbn; [auto | intros [= H]; auto]. Qed.

Lemma string_append_inv_tail (x y b : string) : (x ++ b = y ++ b)%string -> x = y.
Proof.
  intros H. apply list_ascii_of_string_inj.
  apply (f_equal list_ascii_of_string) in H.
  rewrite !list_ascii_of_string_append in H. now apply app_inv_tail in H.
Qed.

Lemma substring_length (n : nat) (s : string) :
  (n <= String.length s)%nat -> String.length (substring 0 n s) = n.
Proof.
  revert s. induction n as [| n IH]; intros s H.
  - now destruct s.
  - destruct s as [| c s]; cbn in *; [lia |]. rewrite IH; lia.
Qed.

Lemma strip_prefix_nonempty (p s r : string) :
  p <> EmptyString -> JsString.strip_prefix p s = Some r -> s <> EmptyString.
Proof. destruct p, s; cbn; congruence. Qed.

(** When the pattern matches, a slash and maybe more follow group 1. *)
Lemma redditUrlPattern_rest (url rest : string) :
  RedditService.redditUrlPattern url = Some rest ->
  rest <> EmptyString /\ url <> EmptyString.
Proof.
  unfold RedditService.redditUrlPattern. intros H.
  assert (Hpath : forall s r, RedditService.match_path s = Some r -> r <> EmptyString).
  { unfold RedditService.match_path, RedditService.and_then. intros s r Hs.
    destruct (JsString.strip_prefix "reddit.com/r/" s) as [r1 |]; [| discriminate].
    destruct (JsString.word_plus r1) as [r2 |]; [| discriminate].
    destruct (JsString.strip_prefix "/comments/" r2) as [r3 |]; [| discriminate].
    destruct (JsString.word_plus r3) as [r4 |]; [| discriminate].
    destruct (JsString.strip_prefix "/" r4) as [r5 |] eqn:E; [| discriminate].
    injection Hs as <-. apply strip_prefix_nonempty in E; [exact E | discriminate]. }
  assert (Hauth : forall s r, RedditService.match_authority s = Some r -> r <> EmptyString).
  { unfold RedditService.match_authority, RedditService.and_then, RedditService.orelse.
    intros s r Hs.
    destruct (JsString.strip_prefix "://" s) as [r0 |]; [| discriminate].
    destruct (JsString.word_plus r0) as [r1 |].
    - destruct (JsString.strip_prefix "." r1) as [r2 |].
      + destruct (RedditService.match_path r2) eqn:E.
        * injection Hs as <-. now apply Hpath in E.
        * now apply Hpath in Hs.
      + now apply Hpath in Hs.
    - now apply Hpath in Hs. }
  unfold RedditService.and_then, RedditService.orelse in H.
  destruct (JsString.strip_prefix "http" url) as [r0 |] eqn:E0; [| discriminate].
  split.
  - destruct (JsString.strip_prefix "s" r0) as [r1 |].
    + destruct (RedditService.match_authority r1) eqn:E.
      * injection H as <-. now apply Hauth in E.
      * now apply Hauth in H.
    + now apply Hauth in H.
  - apply strip_prefix_nonempty in E0; [exact E0 | discriminate].
Qed.

(** [trimRedditUrl] returns the url as it is exactly when the pattern does
    not match. *)
Lemma trimRedditUrl_fixed (url : string) :
  RedditService.trimRedditUrl url = url <-> RedditService.redditUrlPattern url = None.
Proof.
  unfold RedditService.trimRedditUrl.
  destruct (RedditService.redditUrlPattern url) as [rest |] eqn:E.
  - split; [| discriminate]. intros H. exfalso.
    apply redditUrlPattern_rest in E. destruct E as [Hrest Hurl].
    apply (f_equal String.length) in H. rewrite substring_length in H by lia.
    destruct rest; [congruence |]. destruct url; [congruence |]. cbn in H. lia.
  - tauto.
Qed.

(** C10, as the code has it. The [formatRedditPost] of reddit-service.ts
    and the one at the end of conversation-manager.ts give the same string
    exactly for the posts whose link [trimRedditUrl] returns as it is, that
    is, whose link does not match the pattern of a Reddit comments url. *)
Theorem formatRedditPost_copies_agree_iff
    (toUTCString : string -> string) (post : RedditPost) :
  (RedditService.formatRedditPost toUTCString post
   = EmbeddedCopy.formatRedditPost toUTCString post
   <-> RedditService.trimRedditUrl (link post) = link post) /\
  (RedditService.formatRedditPost toUTCString post
   = EmbeddedCopy.formatRedditPost toUTCString post
   <-> RedditService.redditUrlPattern (link post) = None).
Proof.
  assert (H : RedditService.formatRedditPost toUTCString post
              = EmbeddedCopy.formatRedditPost toUTCString post
              <-> RedditService.trimRedditUrl (link post) = link post).
  { unfold RedditService.formatRedditPost, EmbeddedCopy.formatRedditPost.
    change (EmbeddedCopy.published toUTCString post)
      with (RedditService.published toUTCString post).
    split.
    - intros E. cbv zeta in E.
      repeat apply string_append_inv_head in E.
      now apply string_append_inv_tail in E.
    - intros E. cbv zeta. now rewrite E. }
  split; [exact H |]. rewrite H. apply trimRedditUrl_fixed.
Qed.

(** C10 fails on the code: for the link of a Reddit comments page the first
    definition cuts the title off the link, the second one does not. *)
Lemma formatRedditPost_copies_counterexample :
  let post := mkPost "t3_abc123" "Title"
                "https://www.reddit.com/r/golang/comments/abc123/some_title/" "" None "u" in
  RedditService.trimRedditUrl (link post)
  = "https://www.reddit.com/r/golang/comments/abc123"%string /\
  RedditService.formatRedditPost (fun d => d) post
  <> EmbeddedCopy.formatRedditPost (fun d => d) post.
Proof. cbv zeta. split; [reflexivity |]. vm_compute. discriminate. Qed.

(** C10 as amended, on a link that is no Reddit comments url. *)
Lemma formatRedditPost_copies_agree_iff_witness :
  let post := mkPost "1" "Title" "https://example.com/a" "" (Some "2024-01-01"%string) "u" in
  RedditService.formatRedditPost (fun d => d) post
  = EmbeddedCopy.formatRedditPost (fun d => d) post.
Proof.
  cbv zeta. apply (proj2 (formatRedditPost_copies_agree_iff (fun d => d) _)). reflexivity.
Defined.

(* ================================================================= *)
(** ** What a save leaves *)

Lemma saved_write_throws f st :
  saved (set_write_throws true f) st
  = logged Error_save_failed (write_failed f (snapshot st) st).
Proof. now rewrite saved_eq. Qed.

Lemma saved_write_returns f st :
  saved (set_write_throws false f) st
  = with_disk (mkDisk (dir_exists (disk st)) (Some (Parsed (snapshot st)))) st.
Proof. now rewrite saved_eq. Qed.

(** The set changes when a new value enters and when a member leaves. *)
Lemma JsSet_add_changes (x : string) l :
  JsSet.has string_dec x l = false -> JsSet.add string_dec x l <> l.
Proof.
  intros H E. unfold JsSet.add in E. rewrite H in E.
  apply (f_equal (@length string)) in E. rewrite length_app in E. cbn in E. lia.
Qed.

Lemma JsSet_delete_changes (x : string) l :
  JsSet.has string_dec x l = true -> JsSet.delete string_dec x l <> l.
Proof.
  intros H E. apply JsSet_has_true in H. rewrite <- E in H.
  apply JsSet_in_delete in H. now destruct H.
Qed.

Lemma FifoSet_add_changes (x : string) w :
  FifoSet.has string_dec x w = false ->
  FifoSet.serialize (snd (FifoSet.add string_dec x w)) <> FifoSet.serialize w.
Proof.
  intros H E.
  assert (Hin : In x (FifoSet.items (snd (FifoSet.add string_dec x w)))).
  { apply (FifoSet_has_true string_dec). apply FifoSet_has_after_add. }
  unfold FifoSet.serialize in E. rewrite E in Hin.
  apply (FifoSet_has_true string_dec) in Hin. congruence.
Qed.

Lemma snapshot_ext st st' :
  seenPostsBySubreddit st' = seenPostsBySubreddit st ->
  userSubscriptions st' = userSubscriptions st ->
  snapshot st' = snapshot st.
Proof. unfold snapshot. now intros -> ->. Qed.

(* ================================================================= *)
(** ** More on the recency window *)

Section FifoSetMore.
Variable T : Type.
Variable T_eq_dec : forall x y : T, {x = y} + {x <> y}.

Lemma JsSet_delete_filter (x : T) l :
  JsSet.delete T_eq_dec x l = filter (fun y => if T_eq_dec x y then false else true) l.
Proof.
  unfold JsSet.delete. induction l as [| y l IH]; cbn; [reflexivity |].
  destruct (T_eq_dec x y); [exact IH | now rewrite IH].
Qed.

Lemma JsSet_has_delete_same (x : T) l : JsSet.has T_eq_dec x (JsSet.delete T_eq_dec x l) = false.
Proof. apply JsSet_has_false. intros H. apply JsSet_in_delete in H. now destruct H. Qed.

Lemma JsSet_has_congr (x : T) l l' :
  (In x l <-> In x l') -> JsSet.has T_eq_dec x l = JsSet.has T_eq_dec x l'.
Proof.
  intros H. destruct (JsSet.has T_eq_dec x l') eqn:E.
  - apply JsSet_has_true. apply H. now apply (JsSet_has_true T_eq_dec).
  - apply JsSet_has_false. intros Hin. apply H in Hin.
    apply (JsSet_has_true T_eq_dec) in Hin. congruence.
Qed.

Lemma JsSet_delete_absent (x : T) l : ~ In x l -> JsSet.delete T_eq_dec x l = l.
Proof. intros H. unfold JsSet.delete. now apply notin_remove. Qed.

Lemma JsSet_delete_length (x : T) l :
  NoDup l -> In x l -> S (length (JsSet.delete T_eq_dec x l)) = length l.
Proof.
  unfold JsSet.delete. induction 1 as [| y l Hy Hl IH]; [intros [] |].
  intros [-> | Hin]; cbn.
  - destruct (T_eq_dec x x); [| congruence]. now rewrite notin_remove.
  - destruct (T_eq_dec x y) as [-> | _]; [contradiction |]. cbn. now rewrite IH.
Qed.

(** X1. Whatever the capacity, [add] returns [true] exactly for an item
    that was not a member, the item is a member afterwards, the capacity is
    as before, and for a member the set is untouched. *)
Theorem add_reports_new_and_keeps_item (x : T) (s : FifoSet.t T) :
  let r := FifoSet.add T_eq_dec x s in
  fst r = negb (FifoSet.has T_eq_dec x s) /\
  FifoSet.has T_eq_dec x (snd r) = true /\
  FifoSet.capacity (snd r) = FifoSet.capacity s /\
  (FifoSet.has T_eq_dec x s = true -> snd r = s).
Proof.
  cbv zeta. repeat split.
  - unfold FifoSet.add, FifoSet.has. now destruct (JsSet.has T_eq_dec x (FifoSet.items s)).
  - apply FifoSet_has_after_add.
  - apply FifoSet_capacity_add.
  - intros H. apply FifoSet_has_true in H. now rewrite FifoSet_add_member.
Qed.

(** X2. A set made with a capacity of one or more never holds more items
    than its capacity, whatever [add], [delete] and [clear] calls follow;
    its capacity stays the one it was made with and no item is held twice. *)
Theorem size_within_capacity (C : Z) (ops : list (FifoSet.op T)) :
  (1 <= C)%Z ->
  let s := FifoSet.run T_eq_dec ops (FifoSet.new T C) in
  (Z.of_nat (FifoSet.size s) <= C)%Z /\
  FifoSet.capacity s = C /\
  NoDup (FifoSet.serialize s).
Proof.
  intros HC s. subst s. split; [| split].
  - apply FifoSet_size_run; [assumption | reflexivity | cbn; lia].
  - unfold FifoSet.capacity, FifoSet.run.
    generalize (FifoSet.new T C) (eq_refl : FifoSet.maxCapacity (FifoSet.new T C) = C).
    induction ops as [| o ops IH]; cbn [fold_left]; intros s Hs; [exact Hs |].
    apply IH. now rewrite FifoSet_capacity_step.
  - apply FifoSet_wf_run, FifoSet_wf_new.
Qed.

(** X3. [delete] returns whether the item was a member; afterwards it is
    not one, the other members are there in the order they had, and the
    size is one less when the item was a member. Deleting what is not a
    member changes nothing. *)
Theorem delete_removes_only_the_item (x : T) (s : FifoSet.t T) :
  FifoSet.wf s ->
  let r := FifoSet.delete T_eq_dec x s in
  fst r = FifoSet.has T_eq_dec x s /\
  FifoSet.has T_eq_dec x (snd r) = false /\
  (forall y, y <> x -> FifoSet.has T_eq_dec y (snd r) = FifoSet.has T_eq_dec y s) /\
  FifoSet.serialize (snd r)
  = filter (fun y => if T_eq_dec x y then false else true) (FifoSet.serialize s) /\
  FifoSet.size (snd r)
  = (FifoSet.size s - (if FifoSet.has T_eq_dec x s then 1 else 0))%nat /\
  (FifoSet.has T_eq_dec x s = false -> snd r = s).
Proof.
  intros Hwf r. subst r. unfold FifoSet.delete, FifoSet.has, FifoSet.serialize, FifoSet.size.
  cbn [fst snd FifoSet.items]. repeat split.
  - apply JsSet_has_delete_same.
  - intros y Hy. apply JsSet_has_congr. rewrite JsSet_in_delete. tauto.
  - apply JsSet_delete_filter.
  - destruct (JsSet.has T_eq_dec x (FifoSet.items s)) eqn:E.
    + apply (JsSet_has_true T_eq_dec) in E.
      pose proof (JsSet_delete_length x Hwf E). lia.
    + apply (JsSet_has_false T_eq_dec) in E. rewrite JsSet_delete_absent by assumption. lia.
  - intros E. apply (JsSet_has_false T_eq_dec) in E.
    rewrite JsSet_delete_absent by assumption. now destruct s.
Qed.

(** X4. Asking for a member, or adding it again, does not make it younger:
    in a full set, after [has] and [add] of the oldest member, the next new
    item still evicts that member, and the others keep their order. *)
Theorem oldest_member_is_not_refreshed (oldest x : T) (rest : list T) (c : Z) :
  NoDup (oldest :: rest) -> ~ In x (oldest :: rest) ->
  c = Z.of_nat (length (oldest :: rest)) ->
  let s := FifoSet.mk (oldest :: rest) c in
  let s1 := snd (FifoSet.add T_eq_dec oldest s) in
  let s2 := snd (FifoSet.add T_eq_dec x s1) in
  FifoSet.has T_eq_dec oldest s = true /\
  fst (FifoSet.add T_eq_dec oldest s) = false /\
  FifoSet.serialize s2 = rest ++ [x] /\
  FifoSet.has T_eq_dec oldest s2 = false.
Proof.
  intros Hnd Hx Hc s s1 s2.
  assert (Hin : In oldest (FifoSet.items s)) by now left.
  assert (H1 : FifoSet.add T_eq_dec oldest s = (false, s)) by now apply FifoSet_add_member.
  assert (H2 : s2 = FifoSet.mk (rest ++ [x]) c).
  { subst s2 s1. rewrite H1. cbn [snd]. subst s.
    rewrite FifoSet_add_full by (auto; lia). reflexivity. }
  repeat split.
  - now apply FifoSet_has_true.
  - now rewrite H1.
  - now rewrite H2.
  - rewrite H2. apply JsSet_has_false. cbn [FifoSet.items]. intros H.
    apply in_app_iff in H. inversion Hnd; subst. destruct H as [H | [<- | []]].
    + contradiction.
    + apply Hx. now left.
Qed.

Lemma FifoSet_in_add (x y : T) s :
  In y (FifoSet.items (snd (FifoSet.add T_eq_dec x s))) -> y = x \/ In y (FifoSet.items s).
Proof.
  unfold FifoSet.add. destruct (JsSet.has T_eq_dec x (FifoSet.items s)); cbn [snd]; [auto |].
  cbn [FifoSet.items]. intros H. apply JsSet_in_add in H. destruct H as [H | H]; [auto |].
  right. destruct (Z.of_nat _ >=? _)%Z; [| exact H].
  destruct (JsSet.first (FifoSet.items s)); [| exact H].
  apply JsSet_in_delete in H. tauto.
Qed.

Lemma FifoSet_in_add_all (xs : list T) y s :
  In y (FifoSet.items (FifoSet.add_all T_eq_dec xs s)) -> In y xs \/ In y (FifoSet.items s).
Proof.
  revert s. unfold FifoSet.add_all.
  induction xs as [| x xs IH]; cbn [fold_left]; intros s H; [auto |].
  apply IH in H. destruct H as [H | H]; [left; now right |].
  apply FifoSet_in_add in H. destruct H as [-> | H]; [left; now left | auto].
Qed.

Lemma FifoSet_add_all_app (xs ys : list T) s :
  FifoSet.add_all T_eq_dec (xs ++ ys) s
  = FifoSet.add_all T_eq_dec ys (FifoSet.add_all T_eq_dec xs s).
Proof. unfold FifoSet.add_all. apply fold_left_app. Qed.

Lemma FifoSet_size_add_all (xs : list T) s :
  (1 <= FifoSet.maxCapacity s)%Z ->
  (Z.of_nat (FifoSet.size s) <= FifoSet.maxCapacity s)%Z ->
  (Z.of_nat (FifoSet.size (FifoSet.add_all T_eq_dec xs s)) <= FifoSet.maxCapacity s)%Z /\
  FifoSet.maxCapacity (FifoSet.add_all T_eq_dec xs s) = FifoSet.maxCapacity s.
Proof.
  revert s. unfold FifoSet.add_all.
  induction xs as [| x xs IH]; cbn [fold_left]; intros s Hc Hs; [auto |].
  pose proof (FifoSet_size_step T_eq_dec s (FifoSet.Add x) Hc Hs) as H1.
  pose proof (FifoSet_capacity_step T_eq_dec s (FifoSet.Add x)) as H2.
  cbn [FifoSet.step] in H1, H2. rewrite H2 in H1.
  destruct (IH (snd (FifoSet.add T_eq_dec x s))) as [H3 H4];
    rewrite ?H2; auto.
  rewrite H2 in H3, H4. auto.
Qed.

(** X5. [deserialize] of any array, with repeated items or more items
    than the capacity, gives for a capacity of one or more a set within
    its capacity, without repeated items, whose members all come from the
    array; the last item of the array is always a member. *)
Theorem deserialize_is_bounded (xs : list T) (C : Z) :
  (1 <= C)%Z ->
  let s := FifoSet.deserialize T_eq_dec xs C in
  (Z.of_nat (FifoSet.size s) <= C)%Z /\
  FifoSet.capacity s = C /\
  NoDup (FifoSet.serialize s) /\
  (forall x, FifoSet.has T_eq_dec x s = true -> In x xs) /\
  (forall ys x, xs = ys ++ [x] -> FifoSet.has T_eq_dec x s = true).
Proof.
  intros HC s. subst s. unfold FifoSet.deserialize.
  destruct (FifoSet_size_add_all xs (FifoSet.new T C)) as [H1 H2]; [exact HC | cbn; lia |].
  repeat split.
  - exact H1.
  - exact H2.
  - apply FifoSet_wf_add_all, FifoSet_wf_new.
  - intros x H. apply FifoSet_has_true in H. apply FifoSet_in_add_all in H.
    destruct H as [H | []]. exact H.
  - intros ys x ->. rewrite FifoSet_add_all_app. unfold FifoSet.add_all at 1.
    cbn [fold_left]. apply FifoSet_has_after_add.
Qed.
End FifoSetMore.

(** X2 at capacity 2: three items added, one deleted, one added. *)
Lemma size_within_capacity_witness :
  (Z.of_nat (FifoSet.size
     (FifoSet.run string_dec
        [FifoSet.Add "a"; FifoSet.Add "b"; FifoSet.Add "c"; FifoSet.Delete "b";
         FifoSet.Add "d"]%string
        (FifoSet.new string 2))) <= 2)%Z.
Proof.
  refine (proj1 (size_within_capacity string_dec (C := 2) _ _)). lia.
Defined.

(** X3 on the set of [a], [b], [c]. *)
Lemma delete_removes_only_the_item_witness :
  FifoSet.serialize
    (snd (FifoSet.delete string_dec "b"%string (FifoSet.mk ["a"; "b"; "c"]%string 3)))
  = ["a"; "c"]%string.
Proof.
  assert (Hwf : FifoSet.wf (FifoSet.mk ["a"; "b"; "c"]%string 3)).
  { repeat constructor; simpl; intuition discriminate. }
  rewrite (proj1 (proj2 (proj2 (proj2
    (delete_removes_only_the_item string_dec "b"%string Hwf))))).
  reflexivity.
Defined.

(** X4 on the full set of [a], [b]: [a] leaves when [c] comes. *)
Lemma oldest_member_is_not_refreshed_witness :
  FifoSet.serialize
    (snd (FifoSet.add string_dec "c"%string
       (snd (FifoSet.add string_dec "a"%string (FifoSet.mk ["a"; "b"]%string 2)))))
  = ["b"; "c"]%string.
Proof.
  refine (proj1 (proj2 (proj2 (oldest_member_is_not_refreshed string_dec
    (oldest := "a"%string) (x := "c"%string) (rest := ["b"%string]) (c := 2) _ _ _)))).
  - repeat constructor; simpl; intuition discriminate.
  - simpl; intuition discriminate.
  - reflexivity.
Defined.

(** X5 on an array with a repeated item and more items than the capacity. *)
Lemma deserialize_is_bounded_witness :
  (Z.of_nat (FifoSet.size
     (FifoSet.deserialize string_dec ["a"; "b"; "a"; "c"; "d"]%string 2)) <= 2)%Z.
Proof.
  refine (proj1 (deserialize_is_bounded string_dec ["a"; "b"; "a"; "c"; "d"]%string
                   (C := 2) _)). lia.
Defined.

(* ================================================================= *)
(** ** More on the registry of subscriptions *)

Import Registry.

Lemma getUserSubscriptions_same_address st a a' :
  JsString.toLowerCase a' = JsString.toLowerCase a ->
  getUserSubscriptions st a' = getUserSubscriptions st a.
Proof. unfold getUserSubscriptions. now intros ->. Qed.

Lemma JsMap_in_delete_key (V : Type) k (m : JsMap.t V) e :
  In e (JsMap.delete k m) -> fst e <> k.
Proof.
  unfold JsMap.delete. intros H. apply filter_In in H. destruct H as [_ H].
  intros E. rewrite E, String.eqb_refl in H. discriminate.
Qed.

Lemma JsMap_in_get (V : Type) k (v : V) m :
  JsMap.wf m -> In (k, v) m -> JsMap.get k m = Some v.
Proof.
  unfold JsMap.wf, JsMap.keys. induction m as [| [k' v'] m IH]; cbn; [tauto |].
  intros Hnd [[= -> ->] | Hin].
  - now rewrite String.eqb_refl.
  - inversion Hnd as [| ? ? Hk Hm]; subst.
    destruct (String.eqb k k') eqn:E; [| now apply IH].
    apply String.eqb_eq in E. subst k'. exfalso. apply Hk.
    apply in_map_iff. now exists (k, v).
Qed.

Lemma JsMap_set_absent (V : Type) k (v : V) m :
  JsMap.get k m = None -> JsMap.set k v m = m ++ [(k, v)].
Proof.
  induction m as [| [k' v'] m IH]; cbn; [reflexivity |].
  destruct (String.eqb k k'); [discriminate |]. intros H. now rewrite IH.
Qed.

Lemma JsMap_set_present (V : Type) k (v : V) m :
  JsMap.get k m = Some v -> JsMap.set k v m = m.
Proof.
  induction m as [| [k' v'] m IH]; cbn; [discriminate |].
  destruct (String.eqb k k') eqn:E.
  - now intros [= ->].
  - intros H. now rewrite IH.
Qed.

Lemma JsMap_delete_absent (V : Type) k (m : JsMap.t V) :
  JsMap.get k m = None -> JsMap.delete k m = m.
Proof.
  unfold JsMap.delete. induction m as [| [k' v'] m IH]; cbn; [reflexivity |].
  destruct (String.eqb k k'); [discriminate |]. cbn. intros H. now rewrite IH.
Qed.

Lemma JsMap_delete_app (V : Type) k (m m' : JsMap.t V) :
  JsMap.delete k (m ++ m') = JsMap.delete k m ++ JsMap.delete k m'.
Proof. unfold JsMap.delete. apply filter_app. Qed.

(** After [subscribeToSubreddit] the topic is among the topics of the
    subscriber, whatever the call returned. *)
Lemma subscribe_member f a s st :
  In (JsString.toLowerCase s)
     (getUserSubscriptions (snd (subscribeToSubreddit f a s st)) a).
Proof.
  rewrite subscribeToSubreddit_eq. cbv zeta.
  destruct (JsSet.has string_dec _ _) eqn:E; cbn [snd].
  - now apply (JsSet_has_true string_dec).
  - unfold getUserSubscriptions at 1. rewrite userSubscriptions_logged_saved.
    rewrite JsMap_get_set_same. apply JsSet_in_add. now left.
Qed.

(** X6. A second subscription of the same subscriber to the same topic, in
    any spelling of the two, returns [false] and changes nothing: no map,
    no file, no line on the console. *)
Theorem subscribe_again_changes_nothing (f f' : Faults) (a s a' s' : string) (st : state) :
  JsString.toLowerCase a' = JsString.toLowerCase a ->
  JsString.toLowerCase s' = JsString.toLowerCase s ->
  let st1 := snd (subscribeToSubreddit f a s st) in
  subscribeToSubreddit f' a' s' st1 = (Return false, st1).
Proof.
  intros Ha Hs st1. rewrite subscribeToSubreddit_eq. cbv zeta.
  rewrite (getUserSubscriptions_same_address _ _ _ Ha), Hs.
  assert (H : JsSet.has string_dec (JsString.toLowerCase s) (getUserSubscriptions st1 a) = true).
  { apply JsSet_has_true. apply subscribe_member. }
  now rewrite H.
Qed.

(** X6 on a new manager. *)
Lemma subscribe_again_changes_nothing_witness :
  let st1 := snd (subscribeToSubreddit no_fault "0xABC" "golang" (fresh (mkDisk true None))) in
  subscribeToSubreddit no_fault "0xabc" "GoLang" st1 = (Return false, st1).
Proof.
  apply (@subscribe_again_changes_nothing no_fault no_fault "0xABC" "golang" "0xabc" "GoLang");
    reflexivity.
Defined.

(** X7. In a registry without empty topic sets, subscribing someone to a
    topic they do not have and then unsubscribing them from it returns
    [true] twice and gives back the map of subscriptions as it was; the
    windows of seen posts are not touched. *)
Theorem subscribe_unsubscribe_round_trip (f f' : Faults) (a s : string) (st : state) :
  no_empty_topic_set (userSubscriptions st) ->
  ~ In (JsString.toLowerCase s) (getUserSubscriptions st a) ->
  let r1 := subscribeToSubreddit f a s st in
  let r2 := unsubscribeFromSubreddit f' a s (snd r1) in
  fst r1 = Return true /\ fst r2 = Return true /\
  userSubscriptions (snd r2) = userSubscriptions st /\
  seenPostsBySubreddit (snd r2) = seenPostsBySubreddit st.
Proof.
  intros Hne Hnot r1 r2. subst r2 r1.
  pose proof Hnot as Hhas. apply (JsSet_has_false string_dec) in Hhas.
  rewrite subscribeToSubreddit_eq. cbv zeta. rewrite Hhas. cbn [fst snd].
  rewrite unsubscribeFromSubreddit_eq. cbv zeta.
  rewrite userSubscriptions_logged_saved, JsMap_get_set_same.
  rewrite JsSet_add_fresh by assumption.
  assert (Hin : JsSet.has string_dec (JsString.toLowerCase s)
                  (getUserSubscriptions st a ++ [JsString.toLowerCase s]) = true).
  { apply JsSet_has_true, in_or_app. right. now left. }
  rewrite Hin. cbn [fst snd].
  assert (Hdel : JsSet.delete string_dec (JsString.toLowerCase s)
                   (getUserSubscriptions st a ++ [JsString.toLowerCase s])
                 = getUserSubscriptions st a).
  { unfold JsSet.delete. rewrite remove_app. cbn [remove].
    destruct (string_dec _ _); [| congruence].
    rewrite app_nil_r. now apply notin_remove. }
  rewrite Hdel, JsMap_set_set.
  split; [reflexivity |]. split; [reflexivity |]. split.
  - rewrite userSubscriptions_logged_saved.
    unfold getUserSubscriptions in *.
    destruct (JsMap.get (JsString.toLowerCase a) (userSubscriptions st)) as [subs |] eqn:G.
    + assert (Hsubs : subs <> []) by now apply (no_empty_get _ Hne G).
      destruct subs as [| t subs]; [congruence |]. cbn [length Nat.eqb].
      now apply JsMap_set_present.
    + cbn [length Nat.eqb]. rewrite JsMap_set_absent by exact G.
      rewrite JsMap_delete_app. rewrite JsMap_delete_absent by exact G.
      unfold JsMap.delete. cbn.
      rewrite String.eqb_refl. cbn. apply app_nil_r.
  - cbn [logged with_console seenPostsBySubreddit].
    rewrite (proj1 (saved_memory f' _)). cbn [with_subscriptions seenPostsBySubreddit].
    cbn [logged with_console seenPostsBySubreddit].
    now rewrite (proj1 (saved_memory f _)).
Qed.

(** X7 on a new manager. *)
Lemma subscribe_unsubscribe_round_trip_witness :
  let st := fresh (mkDisk true None) in
  userSubscriptions
    (snd (unsubscribeFromSubreddit no_fault "0xABC" "golang"
            (snd (subscribeToSubreddit no_fault "0xABC" "golang" st))))
  = userSubscriptions st.
Proof.
  cbv zeta.
  refine (proj1 (proj2 (proj2 (@subscribe_unsubscribe_round_trip no_fault no_fault
    "0xABC" "golang" (fresh (mkDisk true None)) _ _)))).
  - constructor.
  - intros [].
Defined.

(** X8. Unsubscribing someone from a topic they do not have, and
    unsubscribing from everything someone without topics, returns [false]
    and changes nothing: no map, no file, no line on the console. *)
Theorem unsubscribe_without_subscription (f : Faults) (a s : string) (st : state) :
  (~ In (JsString.toLowerCase s) (getUserSubscriptions st a) ->
   unsubscribeFromSubreddit f a s st = (Return false, st)) /\
  (getUserSubscriptions st a = [] ->
   unsubscribeFromAllSubreddits f a st = (Return false, st)).
Proof.
  unfold getUserSubscriptions. split; intros H.
  - rewrite unsubscribeFromSubreddit_eq. cbv zeta.
    destruct (JsMap.get (JsString.toLowerCase a) (userSubscriptions st)); [| reflexivity].
    apply (JsSet_has_false string_dec) in H. now rewrite H.
  - rewrite unsubscribeFromAllSubreddits_eq. cbv zeta.
    destruct (JsMap.get (JsString.toLowerCase a) (userSubscriptions st)); [| reflexivity].
    now rewrite H.
Qed.

(** X9. [unsubscribeFromAllSubreddits] of someone with a topic returns
    [true]; afterwards they have no topic, under any spelling of their
    address, and they are a subscriber of no subreddit. The windows of seen
    posts are not touched. *)
Theorem unsubscribe_all_removes_subscriber (f : Faults) (a : string) (st : state) :
  getUserSubscriptions st a <> [] ->
  let r := unsubscribeFromAllSubreddits f a st in
  fst r = Return true /\
  (forall a', JsString.toLowerCase a' = JsString.toLowerCase a ->
              getUserSubscriptions (snd r) a' = []) /\
  (forall s, ~ In (JsString.toLowerCase a) (getSubscribersForSubreddit (snd r) s)) /\
  seenPostsBySubreddit (snd r) = seenPostsBySubreddit st.
Proof.
  intros H r. subst r. rewrite unsubscribeFromAllSubreddits_eq. cbv zeta.
  unfold getUserSubscriptions in H.
  destruct (JsMap.get (JsString.toLowerCase a) (userSubscriptions st)) as [subs |];
    [| congruence].
  destruct subs as [| t subs]; [congruence |]. cbn [length Nat.eqb fst snd].
  split; [reflexivity |]. split; [| split].
  - intros a' Ha. unfold getUserSubscriptions.
    rewrite userSubscriptions_logged_saved, Ha. now rewrite JsMap_get_delete_same.
  - intros s Hin. rewrite getSubscribersForSubreddit_filter in Hin.
    rewrite userSubscriptions_logged_saved in Hin.
    apply in_map_iff in Hin. destruct Hin as [e [He Hin]].
    apply filter_In in Hin. destruct Hin as [Hin _].
    now apply JsMap_in_delete_key in Hin.
  - cbn [logged with_console seenPostsBySubreddit].
    now rewrite (proj1 (saved_memory f _)).
Qed.

(** X9 on a manager with one subscriber. *)
Lemma unsubscribe_all_removes_subscriber_witness :
  let st := snd (subscribeToSubreddit no_fault "0xABC" "golang" (fresh (mkDisk true None))) in
  fst (unsubscribeFromAllSubreddits no_fault "0xAbC" st) = Return true.
Proof.
  cbv zeta.
  refine (proj1 (@unsubscribe_all_removes_subscriber no_fault "0xAbC"
    (snd (subscribeToSubreddit no_fault "0xABC" "golang" (fresh (mkDisk true None)))) _)).
  vm_compute. discriminate.
Defined.

Lemma registry_call_frame f o b st :
  JsString.toLowerCase b <> JsString.toLowerCase (op_address o) ->
  getUserSubscriptions (snd (registry_call f o st)) b = getUserSubscriptions st b.
Proof.
  intros Hb. unfold getUserSubscriptions.
  destruct o as [a s | a s | a]; cbn [registry_call op_address] in *.
  - rewrite subscribeToSubreddit_eq. cbv zeta.
    destruct (JsSet.has string_dec _ _); cbn [snd]; [reflexivity |].
    rewrite userSubscriptions_logged_saved. now rewrite JsMap_get_set_other.
  - rewrite unsubscribeFromSubreddit_eq. cbv zeta.
    destruct (JsMap.get (JsString.toLowerCase a) (userSubscriptions st)); [| reflexivity].
    destruct (JsSet.has string_dec _ _); cbn [snd]; [| reflexivity].
    rewrite userSubscriptions_logged_saved.
    destruct (length _ =? 0)%nat.
    + rewrite JsMap_get_delete_other by assumption. now rewrite JsMap_get_set_other.
    + now rewrite JsMap_get_set_other.
  - rewrite unsubscribeFromAllSubreddits_eq. cbv zeta.
    destruct (JsMap.get (JsString.toLowerCase a) (userSubscriptions st)); [| reflexivity].
    destruct (length _ =? 0)%nat; cbn [snd]; [reflexivity |].
    rewrite userSubscriptions_logged_saved. now rewrite JsMap_get_delete_other.
Qed.

(** X10. A registry call about one address leaves the topics of every
    other address as they were. *)
Theorem registry_call_leaves_others (f : Faults) (o : registry_op) (b : string) (st : state) :
  JsString.toLowerCase b <> JsString.toLowerCase (op_address o) ->
  getUserSubscriptions (snd (registry_call f o st)) b = getUserSubscriptions st b.
Proof. apply registry_call_frame. Qed.

(** X10: [0xabc] leaves everything, [0xdef] keeps its topic. *)
Lemma registry_call_leaves_others_witness :
  let st := registry_run [(no_fault, Subscribe "0xABC" "golang");
                          (no_fault, Subscribe "0xDEF" "rust")] (fresh (mkDisk true None)) in
  getUserSubscriptions (snd (registry_call no_fault (UnsubscribeAll "0xABC") st)) "0xDEF"
  = getUserSubscriptions st "0xDEF".
Proof.
  cbv zeta. apply (@registry_call_leaves_others no_fault (UnsubscribeAll "0xABC") "0xDEF").
  vm_compute. discriminate.
Defined.

(* ================================================================= *)
(** ** The queries of the registry *)

Lemma JsSet_fold_add_in (l acc : list string) t :
  In t (fold_left (fun acc sub => JsSet.add string_dec sub acc) l acc) <-> In t acc \/ In t l.
Proof.
  revert acc. induction l as [| x l IH]; intros acc; cbn [fold_left]; [cbn; tauto |].
  rewrite IH, JsSet_in_add. cbn. intuition.
Qed.

Lemma JsSet_fold_add_NoDup (l acc : list string) :
  NoDup acc -> NoDup (fold_left (fun acc sub => JsSet.add string_dec sub acc) l acc).
Proof.
  revert acc. induction l as [| x l IH]; intros acc H; cbn [fold_left]; [exact H |].
  apply IH. now apply JsSet_add_NoDup.
Qed.

(** X11. [getAllSubscribedSubreddits] lists each subreddit once, and lists
    exactly the subreddits that some subscriber of the registry has. *)
Theorem all_subscribed_subreddits_exact (st : state) :
  NoDup (getAllSubscribedSubreddits st) /\
  (forall t, In t (getAllSubscribedSubreddits st)
             <-> exists address subs, In (address, subs) (userSubscriptions st) /\ In t subs).
Proof.
  unfold getAllSubscribedSubreddits.
  assert (G : forall (m : JsMap.t (list string)) (acc : list string),
    NoDup acc ->
    NoDup (fold_left (fun allSubs e =>
             fold_left (fun acc sub => JsSet.add string_dec sub acc) (snd e) allSubs) m acc) /\
    (forall t,
       In t (fold_left (fun allSubs e =>
               fold_left (fun acc sub => JsSet.add string_dec sub acc) (snd e) allSubs) m acc)
       <-> In t acc \/ exists address subs, In (address, subs) m /\ In t subs)).
  { induction m as [| [k v] m IH]; intros acc Hacc; cbn [fold_left snd].
    - split; [exact Hacc |]. intros t. split; [auto |].
      intros [H | [a [subs [[] _]]]]. exact H.
    - destruct (IH _ (JsSet_fold_add_NoDup v Hacc)) as [H1 H2]. split; [exact H1 |].
      intros t. rewrite H2, JsSet_fold_add_in. split.
      + intros [[H | H] | [a [subs [Hin Ht]]]].
        * now left.
        * right. exists k, v. split; [now left | exact H].
        * right. exists a, subs. split; [now right | exact Ht].
      + intros [H | [a [subs [[[= -> ->] | Hin] Ht]]]].
        * left. now left.
        * left. now right.
        * right. exists a, subs. tauto. }
  destruct (G (userSubscriptions st) [] (NoDup_nil _)) as [H1 H2]. split; [exact H1 |].
  intros t. rewrite H2. cbn. tauto.
Qed.

(** X12. In a registry that holds each subscriber once,
    [getSubscribersForSubreddit] lists each subscriber once, and lists
    exactly the subscribers whose topics hold the lowercase of the
    subreddit asked for. *)
Theorem subscribers_for_subreddit_exact (st : state) (subreddit : string) :
  JsMap.wf (userSubscriptions st) ->
  NoDup (getSubscribersForSubreddit st subreddit) /\
  (forall k, In k (getSubscribersForSubreddit st subreddit)
             <-> exists subs, JsMap.get k (userSubscriptions st) = Some subs /\
                              In (JsString.toLowerCase subreddit) subs).
Proof.
  intros Hwf. rewrite getSubscribersForSubreddit_filter. split.
  - now apply NoDup_keys_filter.
  - intros k. rewrite in_map_iff. split.
    + intros [[k' subs] [Hk Hin]]. cbn [fst] in Hk. subst k'.
      apply filter_In in Hin. destruct Hin as [Hin Hhas]. cbn [snd] in Hhas.
      exists subs. split; [now apply JsMap_in_get |].
      now apply (JsSet_has_true string_dec).
    + intros [subs [Hget Hin]]. exists (k, subs). split; [reflexivity |].
      apply filter_In. split; [now apply JsMap_get_in |].
      cbn [snd]. now apply (JsSet_has_true string_dec).
Qed.

(** X12 on a registry with two subscribers of [golang]. *)
Lemma subscribers_for_subreddit_exact_witness :
  let st := registry_run [(no_fault, Subscribe "0xABC" "golang");
                          (no_fault, Subscribe "0xDEF" "GoLang")] (fresh (mkDisk true None)) in
  NoDup (getSubscribersForSubreddit st "GOLANG").
Proof.
  cbv zeta.
  refine (proj1 (@subscribers_for_subreddit_exact _ "GOLANG" _)).
  vm_compute. repeat constructor; simpl; intuition discriminate.
Defined.

(* ================================================================= *)
(** ** The shape of the registry that the manager keeps *)

(** Each subscriber once and under a lowercase address, each topic of a
    subscriber once. *)
Abbreviation registry_shape m :=
  (wf_registry m /\ lowercase_keys m).

Lemma registry_shape_set k v (m : JsMap.t (list string)) :
  is_lowercase k -> NoDup v -> registry_shape m -> registry_shape (JsMap.set k v m).
Proof.
  unfold wf_registry, lowercase_keys. intros Hk Hv [[H1 H2] H3]. repeat split.
  - now apply JsMap_wf_set.
  - now apply JsMap_Forall_set.
  - now apply JsMap_Forall_set.
Qed.

Lemma registry_shape_delete k (m : JsMap.t (list string)) :
  registry_shape m -> registry_shape (JsMap.delete k m).
Proof.
  unfold wf_registry, lowercase_keys. intros [[H1 H2] H3]. repeat split.
  - now apply JsMap_wf_delete.
  - now apply JsMap_Forall_delete.
  - now apply JsMap_Forall_delete.
Qed.

Lemma registry_shape_topics k subs (m : JsMap.t (list string)) :
  registry_shape m -> JsMap.get k m = Some subs -> NoDup subs.
Proof.
  unfold wf_registry. intros [[_ H] _] G. apply JsMap_get_in in G.
  rewrite Forall_forall in H. exact (H _ G).
Qed.

Lemma load_subscriptions_shape entries m :
  registry_shape m -> registry_shape (load_subscriptions entries m).
Proof.
  unfold load_subscriptions. revert m.
  induction entries as [| e entries IH]; intros m H; cbn [fold_left]; [exact H |].
  apply IH. apply registry_shape_set; [apply toLowerCase_idempotent | | exact H].
  apply JsSet_of_list_NoDup.
Qed.

Lemma registry_shape_nil : registry_shape (@nil (string * list string)).
Proof. repeat split; constructor. Qed.

Lemma constructor_shape f d : registry_shape (userSubscriptions (snd (constructor f d))).
Proof.
  rewrite constructor_eq. cbv zeta. cbn [snd].
  destruct (negb (dir_exists d) && mkdir_throws f); [apply registry_shape_nil |].
  destruct (data_file d) as [[| data | data] |].
  - destruct (read_throws f); apply registry_shape_nil.
  - destruct (read_throws f); [apply registry_shape_nil |].
    cbn [logged with_console userSubscriptions].
    destruct (subscriptions data) as [entries |]; [| apply registry_shape_nil].
    apply load_subscriptions_shape, registry_shape_nil.
  - destruct (read_throws f); [apply registry_shape_nil |].
    cbn [logged with_console userSubscriptions].
    destruct (subscriptions (fst (stored_part data))) as [entries |];
      [| apply registry_shape_nil].
    apply load_subscriptions_shape, registry_shape_nil.
  - unfold write_failed.
    destruct (write_throws f), (write_leaves f); apply registry_shape_nil.
Qed.

Lemma registry_call_shape f o st :
  registry_shape (userSubscriptions st) ->
  registry_shape (userSubscriptions (snd (registry_call f o st))).
Proof.
  intros H. destruct o as [a s | a s | a]; cbn [registry_call].
  - rewrite subscribeToSubreddit_eq. cbv zeta.
    destruct (JsSet.has string_dec _ _); cbn [snd]; [exact H |].
    rewrite userSubscriptions_logged_saved.
    apply registry_shape_set; [apply toLowerCase_idempotent | | exact H].
    apply JsSet_add_NoDup. unfold getUserSubscriptions.
    destruct (JsMap.get (JsString.toLowerCase a) (userSubscriptions st)) eqn:G;
      [now apply (registry_shape_topics _ H G) | constructor].
  - rewrite unsubscribeFromSubreddit_eq. cbv zeta.
    destruct (JsMap.get (JsString.toLowerCase a) (userSubscriptions st)) eqn:G; [| exact H].
    destruct (JsSet.has string_dec _ _); cbn [snd]; [| exact H].
    rewrite userSubscriptions_logged_saved.
    assert (Hset : registry_shape
              (JsMap.set (JsString.toLowerCase a)
                 (JsSet.delete string_dec (JsString.toLowerCase s) l) (userSubscriptions st))).
    { apply registry_shape_set; [apply toLowerCase_idempotent | | exact H].
      apply JsSet_delete_NoDup. now apply (registry_shape_topics _ H G). }
    destruct (length _ =? 0)%nat; [now apply registry_shape_delete | exact Hset].
  - rewrite unsubscribeFromAllSubreddits_eq. cbv zeta.
    destruct (JsMap.get (JsString.toLowerCase a) (userSubscriptions st)); [| exact H].
    destruct (length _ =? 0)%nat; cbn [snd]; [exact H |].
    rewrite userSubscriptions_logged_saved. now apply registry_shape_delete.
Qed.

(** X13. Whatever document is loaded, and whatever registry calls follow,
    the registry holds each subscriber once, under a lowercase address, and
    no topic twice for a subscriber: addresses of the document that differ
    by case only end up in one entry, and a topic repeated in the document
    is kept once. *)
Theorem registry_shape_kept (f : Faults) (d : Disk) (calls : list (Faults * registry_op)) :
  let st := registry_run calls (snd (constructor f d)) in
  NoDup (JsMap.keys (userSubscriptions st)) /\
  Forall (fun e => NoDup (snd e)) (userSubscriptions st) /\
  Forall (fun e => JsString.toLowerCase (fst e) = fst e) (userSubscriptions st).
Proof.
  cbv zeta.
  assert (H : registry_shape (userSubscriptions (registry_run calls (snd (constructor f d))))).
  { generalize (constructor_shape f d). generalize (snd (constructor f d)).
    unfold registry_run. induction calls as [| c calls IH]; intros st H; cbn [fold_left];
      [exact H |].
    apply IH. now apply registry_call_shape. }
  destruct H as [[H1 H2] H3]. repeat split; assumption.
Qed.

(* ================================================================= *)
(** ** Saving, then starting again *)

Lemma JsMap_get_absent (V : Type) k (m : JsMap.t V) :
  ~ In k (JsMap.keys m) -> JsMap.get k m = None.
Proof.
  intros H. destruct (JsMap.get k m) eqn:E; [| reflexivity].
  exfalso. apply H. apply JsMap_has_in_keys. unfold JsMap.has. now rewrite E.
Qed.

Lemma JsSet_of_list_NoDup_id (l : list string) : NoDup l -> JsSet.of_list string_dec l = l.
Proof.
  unfold JsSet.of_list.
  assert (G : forall acc, NoDup (acc ++ l) ->
              fold_left (fun acc x => JsSet.add string_dec x acc) l acc = acc ++ l).
  { induction l as [| x l IH]; intros acc H; cbn [fold_left]; [now rewrite app_nil_r |].
    assert (Hx : ~ In x acc).
    { intros Hin. apply NoDup_remove_2 in H. apply H, in_or_app. now left. }
    rewrite JsSet_add_fresh by assumption. rewrite IH; rewrite <- app_assoc; auto. }
  intros H. now rewrite G.
Qed.

Lemma map_pair_eta (V : Type) (m : list (string * V)) : map (fun e => (fst e, snd e)) m = m.
Proof. induction m as [| [k v] m IH]; cbn; [reflexivity | now rewrite IH]. Qed.

Lemma load_subscriptions_append entries acc :
  lowercase_keys entries ->
  NoDup (JsMap.keys acc ++ JsMap.keys entries) ->
  Forall (fun e => NoDup (snd e)) entries ->
  load_subscriptions entries acc = acc ++ entries.
Proof.
  unfold load_subscriptions, lowercase_keys, is_lowercase. revert acc.
  induction entries as [| [k v] entries IH]; intros acc Hlow Hnd Hv; cbn [fold_left];
    [now rewrite app_nil_r |].
  inversion Hlow as [| ? ? Hk Hlow']; subst. inversion Hv as [| ? ? Hkv Hv']; subst.
  cbn [fst snd] in *. rewrite Hk, JsSet_of_list_NoDup_id by assumption.
  assert (Habs : JsMap.get k acc = None).
  { apply JsMap_get_absent. intros Hin. cbn [JsMap.keys map fst] in Hnd.
    apply NoDup_remove_2 in Hnd. apply Hnd, in_or_app. now left. }
  rewrite JsMap_set_absent by assumption. rewrite IH; auto.
  - now rewrite <- app_assoc.
  - unfold JsMap.keys in *. rewrite map_app, <- app_assoc. exact Hnd.
Qed.

Lemma load_seen_append entries acc :
  lowercase_keys entries ->
  NoDup (JsMap.keys acc ++ JsMap.keys entries) ->
  load_seen entries acc
  = acc ++ map (fun e => (fst e, FifoSet.deserialize string_dec (snd e) 1000)) entries.
Proof.
  unfold load_seen, lowercase_keys, is_lowercase. revert acc.
  induction entries as [| [k v] entries IH]; intros acc Hlow Hnd; cbn [fold_left map];
    [now rewrite app_nil_r |].
  inversion Hlow as [| ? ? Hk Hlow']; subst. cbn [fst snd] in *. rewrite Hk.
  assert (Habs : JsMap.get k acc = None).
  { apply JsMap_get_absent. intros Hin. cbn [JsMap.keys map fst] in Hnd.
    apply NoDup_remove_2 in Hnd. apply Hnd, in_or_app. now left. }
  rewrite JsMap_set_absent by assumption. rewrite IH; auto.
  - now rewrite <- app_assoc.
  - unfold JsMap.keys in *. rewrite map_app, <- app_assoc. exact Hnd.
Qed.

(** *** Plain objects: what [Object.entries] lists *)

Lemma JsMap_get_filter (V : Type) (p : string -> bool) k (m : JsMap.t V) :
  p k = true -> JsMap.get k (filter (fun e => p (fst e)) m) = JsMap.get k m.
Proof.
  intros Hk. induction m as [| [k' v] m IH]; cbn [filter JsMap.get fst]; [reflexivity |].
  destruct (String.eqb k k') eqn:E.
  - apply String.eqb_eq in E. subst k'. rewrite Hk. cbn [JsMap.get].
    now rewrite String.eqb_refl.
  - destruct (p k'); cbn [JsMap.get]; [rewrite E |]; exact IH.
Qed.

Lemma JsMap_get_filter_out (V : Type) (p : string -> bool) k (m : JsMap.t V) :
  p k = false -> JsMap.get k (filter (fun e => p (fst e)) m) = None.
Proof.
  intros Hk. induction m as [| [k' v] m IH]; cbn [filter JsMap.get fst]; [reflexivity |].
  destruct (p k') eqn:P; [| exact IH]. cbn [JsMap.get].
  destruct (String.eqb k k') eqn:E; [| exact IH].
  apply String.eqb_eq in E. congruence.
Qed.

Lemma JsMap_wf_perm (V : Type) (m m' : JsMap.t V) :
  Permutation m m' -> JsMap.wf m -> JsMap.wf m'.
Proof.
  unfold JsMap.wf, JsMap.keys. intros Hp. apply Permutation_NoDup.
  now apply Permutation_map.
Qed.

(** Two maps with the same entries, each key once, answer alike. *)
Lemma JsMap_get_perm (V : Type) k (m m' : JsMap.t V) :
  Permutation m m' -> JsMap.wf m -> JsMap.get k m' = JsMap.get k m.
Proof.
  intros Hp Hwf. pose proof (JsMap_wf_perm Hp Hwf) as Hwf'.
  destruct (JsMap.get k m) as [v |] eqn:E.
  - apply JsMap_in_get; [exact Hwf' |].
    apply (Permutation_in _ Hp). now apply JsMap_get_in.
  - destruct (JsMap.get k m') as [v' |] eqn:E'; [| reflexivity].
    apply JsMap_get_in in E'. apply (Permutation_in _ (Permutation_sym Hp)) in E'.
    apply (JsMap_in_get _ _ Hwf) in E'. congruence.
Qed.

Lemma JsObject_fold_assign (V : Type) (m o : JsMap.t V) :
  NoDup (JsMap.keys o ++ JsMap.keys m) ->
  fold_left (fun o e => JsObject.assign (fst e) (snd e) o) m o
  = o ++ filter (fun e => negb (String.eqb (fst e) "__proto__")) m.
Proof.
  revert o. induction m as [| [k v] m IH]; intros o H; cbn [fold_left filter fst snd].
  - now rewrite app_nil_r.
  - cbn [JsMap.keys map fst] in H. unfold JsObject.assign at 2.
    destruct (String.eqb k "__proto__"); cbn [negb].
    + apply IH. now apply NoDup_remove_1 in H.
    + assert (Habs : JsMap.get k o = None).
      { apply JsMap_get_absent. intros Hin.
        apply NoDup_remove_2 in H. apply H, in_or_app. now left. }
      rewrite JsMap_set_absent by exact Habs. rewrite IH.
      * now rewrite <- app_assoc.
      * unfold JsMap.keys in *. rewrite map_app, <- app_assoc. exact H.
Qed.

Lemma insert_by_index_perm (V : Type) x (l : list (N * (string * V))) :
  Permutation (JsObject.insert_by_index x l) (x :: l).
Proof.
  induction l as [| y l IH]; cbn [JsObject.insert_by_index]; [reflexivity |].
  destruct (fst x <=? fst y)%N; [reflexivity |].
  rewrite IH. apply perm_swap.
Qed.

Lemma sort_by_index_perm (V : Type) (l : list (N * (string * V))) :
  Permutation (JsObject.sort_by_index l) l.
Proof.
  unfold JsObject.sort_by_index.
  induction l as [| x l IH]; cbn [fold_right]; [constructor |].
  rewrite insert_by_index_perm. now constructor.
Qed.

Lemma indexed_named_perm (V : Type) (o : JsMap.t V) :
  Permutation (map snd (JsObject.indexed o) ++ JsObject.named o) o.
Proof.
  unfold JsObject.named.
  induction o as [| e o IH]; cbn [JsObject.indexed filter]; [constructor |].
  destruct (JsObject.array_index (fst e)); cbn [map snd app].
  - now constructor.
  - apply Permutation_sym, Permutation_cons_app. now apply Permutation_sym.
Qed.

(** [Object.entries] lists every property once. *)
Lemma JsObject_entries_perm (V : Type) (o : JsMap.t V) :
  Permutation (JsObject.entries o) o.
Proof.
  unfold JsObject.entries.
  apply Permutation_trans with (map snd (JsObject.indexed o) ++ JsObject.named o).
  - apply Permutation_app_tail, Permutation_map, sort_by_index_perm.
  - apply indexed_named_perm.
Qed.

(** The object filled from a map has the entries of the map, but for the
    one of the key [__proto__]. *)
Lemma JsObject_of_map_perm (V : Type) (m : JsMap.t V) :
  JsMap.wf m ->
  Permutation (JsObject.of_map m)
    (filter (fun e => negb (String.eqb (fst e) "__proto__")) m).
Proof.
  intros Hwf. unfold JsObject.of_map.
  rewrite JsObject_fold_assign by exact Hwf. apply JsObject_entries_perm.
Qed.

Lemma JsObject_of_map_in (V : Type) (m : JsMap.t V) e :
  JsMap.wf m -> In e (JsObject.of_map m) -> In e m.
Proof.
  intros Hwf Hin. apply (Permutation_in _ (JsObject_of_map_perm Hwf)) in Hin.
  now apply filter_In in Hin.
Qed.

Lemma JsObject_of_map_Forall (V : Type) (P : string * V -> Prop) (m : JsMap.t V) :
  JsMap.wf m -> Forall P m -> Forall P (JsObject.of_map m).
Proof.
  intros Hwf H. apply Forall_forall. intros e He.
  rewrite Forall_forall in H. apply H. now apply JsObject_of_map_in.
Qed.

Lemma JsMap_wf_filter (V : Type) (p : string * V -> bool) (m : JsMap.t V) :
  JsMap.wf m -> JsMap.wf (filter p m).
Proof.
  unfold JsMap.wf, JsMap.keys. induction m as [| e m IH]; cbn [filter map]; [auto |].
  intros H. inversion H as [| ? ? Hk Hm]; subst.
  destruct (p e); [| now apply IH]. cbn [map]. constructor; [| now apply IH].
  intros Hin. apply Hk. apply in_map_iff in Hin. destruct Hin as [e' [E He']].
  apply filter_In in He'. apply in_map_iff. exists e'. tauto.
Qed.

Lemma JsObject_of_map_wf (V : Type) (m : JsMap.t V) :
  JsMap.wf m -> JsMap.wf (JsObject.of_map m).
Proof.
  intros Hwf.
  apply (JsMap_wf_perm (Permutation_sym (JsObject_of_map_perm Hwf))).
  now apply JsMap_wf_filter.
Qed.

Lemma JsObject_get_of_map (V : Type) k (m : JsMap.t V) :
  JsMap.wf m -> k <> "__proto__"%string ->
  JsMap.get k (JsObject.of_map m) = JsMap.get k m.
Proof.
  intros Hwf Hk.
  rewrite (JsMap_get_perm k (Permutation_sym (JsObject_of_map_perm Hwf)))
    by now apply JsMap_wf_filter.
  apply (JsMap_get_filter (fun k => negb (String.eqb k "__proto__"))).
  apply negb_true_iff. now apply String.eqb_neq.
Qed.

(** Whatever the map keeps under [__proto__], the object has no entry of
    that key. *)
Lemma JsObject_get_of_map_proto (V : Type) (m : JsMap.t V) :
  JsMap.wf m -> JsMap.get "__proto__" (JsObject.of_map m) = None.
Proof.
  intros Hwf.
  rewrite (JsMap_get_perm "__proto__" (Permutation_sym (JsObject_of_map_perm Hwf)))
    by now apply JsMap_wf_filter.
  now apply (JsMap_get_filter_out (fun k => negb (String.eqb k "__proto__"))).
Qed.

Lemma JsMap_wf_map (V W : Type) (g : V -> W) (m : JsMap.t V) :
  JsMap.wf m -> JsMap.wf (map (fun e => (fst e, g (snd e))) m).
Proof. unfold JsMap.wf, JsMap.keys. now rewrite map_map. Qed.

(** What a new manager finds after a save that succeeded. *)
Lemma restart_maps f f' st :
  write_throws f = false -> read_throws f' = false ->
  dir_exists (disk st) = true ->
  let st' := snd (constructor f' (disk (saved f st))) in
  userSubscriptions st' = load_subscriptions (JsObject.of_map (userSubscriptions st)) [] /\
  seenPostsBySubreddit st'
  = load_seen
      (JsObject.of_map
         (map (fun e => (fst e, FifoSet.serialize (snd e))) (seenPostsBySubreddit st))) [].
Proof.
  intros Hw Hr Hdir st'. subst st'. rewrite constructor_eq, saved_eq, Hw. cbv zeta.
  cbn [snd with_disk disk dir_exists data_file]. rewrite Hdir, Hr.
  cbn [negb andb snapshot subscriptions seenPosts logged with_console
       userSubscriptions seenPostsBySubreddit].
  split; reflexivity.
Qed.

(** X14. After a save that succeeds, a new manager that reads the file
    finds, for every subscriber other than [__proto__], the topics the
    subscriber had, and for every topic other than [__proto__] a window
    with the same ids in the same order, now of capacity 1000: the same
    posts count as seen. The map of subscriptions is the list of the
    entries of the object that was saved: the keys that are array indices
    come first, and what the maps kept under [__proto__] is lost. This
    holds for maps that hold each key once, the keys being lowercase
    strings of ASCII characters, topic sets and windows without
    repetition, and windows of at most 1000 ids. *)
Theorem restart_restores_state (f f' : Faults) (st : state) :
  write_throws f = false -> read_throws f' = false ->
  dir_exists (disk st) = true ->
  wf_registry (userSubscriptions st) -> lowercase_keys (userSubscriptions st) ->
  wf_windows (seenPostsBySubreddit st) -> lowercase_keys (seenPostsBySubreddit st) ->
  Forall (fun e => JsText.ascii_only (fst e) = true) (userSubscriptions st) ->
  Forall (fun e => JsText.ascii_only (fst e) = true) (seenPostsBySubreddit st) ->
  Forall (fun e => (Z.of_nat (FifoSet.size (snd e)) <= 1000)%Z) (seenPostsBySubreddit st) ->
  let st' := snd (constructor f' (disk (saved f st))) in
  userSubscriptions st' = JsObject.of_map (userSubscriptions st) /\
  (forall address,
     JsString.toLowerCase address <> "__proto__"%string ->
     getUserSubscriptions st' address = getUserSubscriptions st address) /\
  (forall k,
     k <> "__proto__"%string ->
     JsMap.get k (seenPostsBySubreddit st')
     = option_map (fun w => FifoSet.mk (FifoSet.items w) 1000)
         (JsMap.get k (seenPostsBySubreddit st))) /\
  (forall subreddit postId,
     JsString.toLowerCase subreddit <> "__proto__"%string ->
     seen st' subreddit postId = seen st subreddit postId) /\
  getUserSubscriptions st' "__proto__" = [] /\
  (forall postId, seen st' "__proto__" postId = false).
Proof.
  intros Hw Hr Hdir [Hwf1 Hnd1] Hlow1 [Hwf2 Hnd2] Hlow2 _ _ Hsize st'.
  destruct (restart_maps f f' st Hw Hr Hdir) as [Es Ew]. fold st' in Es, Ew.
  set (ser := fun e : string * FifoSet.t string => (fst e, FifoSet.serialize (snd e))) in *.
  assert (Hwfser : JsMap.wf (map ser (seenPostsBySubreddit st))).
  { now apply (JsMap_wf_map (@FifoSet.serialize string)). }
  assert (Hsubs : userSubscriptions st' = JsObject.of_map (userSubscriptions st)).
  { rewrite Es. rewrite load_subscriptions_append; [reflexivity | | |].
    - now apply JsObject_of_map_Forall.
    - cbn [JsMap.keys map app]. now apply JsObject_of_map_wf.
    - now apply JsObject_of_map_Forall. }
  assert (Hseen : seenPostsBySubreddit st'
            = map (fun e => (fst e, FifoSet.deserialize string_dec (snd e) 1000))
                (JsObject.of_map (map ser (seenPostsBySubreddit st)))).
  { rewrite Ew. rewrite load_seen_append; [reflexivity | |].
    - apply JsObject_of_map_Forall; [exact Hwfser |].
      unfold lowercase_keys in *. rewrite Forall_map. exact Hlow2.
    - cbn [JsMap.keys map app]. now apply JsObject_of_map_wf. }
  assert (Hget : forall k, k <> "__proto__"%string ->
            JsMap.get k (seenPostsBySubreddit st')
            = option_map (fun w => FifoSet.mk (FifoSet.items w) 1000)
                (JsMap.get k (seenPostsBySubreddit st))).
  { intros k Hk. rewrite Hseen.
    rewrite (JsMap_get_map (fun ids => FifoSet.deserialize string_dec ids 1000)).
    rewrite JsObject_get_of_map by assumption. subst ser.
    rewrite (JsMap_get_map (@FifoSet.serialize string)).
    destruct (JsMap.get k (seenPostsBySubreddit st)) as [w |] eqn:G; [| reflexivity].
    cbn [option_map]. f_equal. apply JsMap_get_in in G.
    rewrite Forall_forall in Hnd2, Hsize.
    specialize (Hnd2 _ G). specialize (Hsize _ G). cbn [snd] in *.
    unfold FifoSet.deserialize, FifoSet.new, FifoSet.serialize.
    now rewrite FifoSet_add_all_fits. }
  split; [exact Hsubs |]. split; [| split; [exact Hget | split; [| split]]].
  - intros address Ha. unfold getUserSubscriptions.
    now rewrite Hsubs, JsObject_get_of_map.
  - intros subreddit postId Hs. unfold seen. rewrite Hget by exact Hs.
    now destruct (JsMap.get _ (seenPostsBySubreddit st)).
  - unfold getUserSubscriptions. cbn [JsString.toLowerCase].
    change (JsString.toLowerCase "__proto__") with "__proto__"%string.
    now rewrite Hsubs, JsObject_get_of_map_proto.
  - intros postId. unfold seen.
    change (JsString.toLowerCase "__proto__") with "__proto__"%string.
    rewrite Hseen.
    rewrite (JsMap_get_map (fun ids => FifoSet.deserialize string_dec ids 1000)).
    now rewrite JsObject_get_of_map_proto.
Qed.

(** X14 on a manager with one subscriber and two topics with a post seen,
    [golang] and [196]: the window of [196] comes first in the file, and
    the same posts count as seen. *)
Lemma restart_restores_state_witness :
  let post := mkPost "t3_1" "Title" "https://example.com/a" "" None "u" in
  let st := snd (sendRedditPostToSubscribers (fun d => d) no_fault post "196"
              (snd (sendRedditPostToSubscribers (fun d => d) no_fault post "golang"
                 (snd (subscribeToSubreddit no_fault "0xABC" "GoLang"
                         (fresh (mkDisk true None))))))) in
  let st' := snd (constructor no_fault (disk (saved no_fault st))) in
  JsMap.keys (seenPostsBySubreddit st) = ["golang"; "196"]%string /\
  JsMap.keys (seenPostsBySubreddit st') = ["196"; "golang"]%string /\
  getUserSubscriptions st' "0xABC" = getUserSubscriptions st "0xABC" /\
  seen st' "golang" "t3_1" = seen st "golang" "t3_1" /\
  seen st' "196" "t3_1" = seen st "196" "t3_1".
Proof.
  cbv zeta. split; [reflexivity |]. split; [reflexivity |].
  pose proof (@restart_restores_state no_fault no_fault
    (snd (sendRedditPostToSubscribers (fun d => d) no_fault
            (mkPost "t3_1" "Title" "https://example.com/a" "" None "u") "196"
       (snd (sendRedditPostToSubscribers (fun d => d) no_fault
               (mkPost "t3_1" "Title" "https://example.com/a" "" None "u") "golang"
               (snd (subscribeToSubreddit no_fault "0xABC" "GoLang"
                       (fresh (mkDisk true None))))))))
    eq_refl eq_refl eq_refl) as H.
  cbv zeta in H.
  destruct H as [_ [H1 [_ [H3 _]]]].
  - split; vm_compute; repeat constructor; simpl; intuition discriminate.
  - vm_compute. repeat constructor.
  - split; vm_compute; repeat constructor; simpl; intuition discriminate.
  - vm_compute. repeat constructor.
  - vm_compute. repeat constructor.
  - vm_compute. repeat constructor.
  - vm_compute. repeat constructor; discriminate.
  - split; [apply H1; vm_compute; discriminate |].
    split; apply H3; vm_compute; discriminate.
Defined.

(* ================================================================= *)
(** ** A save that fails *)

(** Snapshots differ when the maps answer differently for a key that the
    object keeps. *)
Lemma snapshot_differs_subscriptions k st st' :
  JsMap.wf (userSubscriptions st) -> JsMap.wf (userSubscriptions st') ->
  k <> "__proto__"%string ->
  JsMap.get k (userSubscriptions st') <> JsMap.get k (userSubscriptions st) ->
  snapshot st' <> snapshot st.
Proof.
  intros Hwf Hwf' Hk H E. apply H. unfold snapshot in E. injection E as Es _.
  apply (f_equal (JsMap.get k)) in Es.
  now rewrite !JsObject_get_of_map in Es by assumption.
Qed.

Lemma snapshot_differs_seen k st st' :
  JsMap.wf (seenPostsBySubreddit st) -> JsMap.wf (seenPostsBySubreddit st') ->
  k <> "__proto__"%string ->
  option_map (@FifoSet.serialize string) (JsMap.get k (seenPostsBySubreddit st'))
  <> option_map (@FifoSet.serialize string) (JsMap.get k (seenPostsBySubreddit st)) ->
  snapshot st' <> snapshot st.
Proof.
  intros Hwf Hwf' Hk H E. apply H. unfold snapshot in E. injection E as _ Ep.
  apply (f_equal (JsMap.get k)) in Ep.
  rewrite !JsObject_get_of_map in Ep
    by (try apply (JsMap_wf_map (@FifoSet.serialize string)); assumption).
  now rewrite !(JsMap_get_map (@FifoSet.serialize string)) in Ep.
Qed.

Lemma change_kept_ext o st st' :
  seenPostsBySubreddit st' = seenPostsBySubreddit st ->
  userSubscriptions st' = userSubscriptions st ->
  change_kept o st -> change_kept o st'.
Proof.
  intros Hs Hu.
  destruct o as [[a s | a s | a] | post s]; cbn [change_kept];
    unfold getUserSubscriptions, seen; now rewrite ?Hs, ?Hu.
Qed.

(** A write that throws leaves the maps, the console and the outbox, and
    the file as it was or cut short. *)
Lemma write_failed_leaves f data st :
  seenPostsBySubreddit (write_failed f data st) = seenPostsBySubreddit st /\
  userSubscriptions (write_failed f data st) = userSubscriptions st /\
  console (write_failed f data st) = console st /\
  outbox (write_failed f data st) = outbox st /\
  dir_exists (disk (write_failed f data st)) = dir_exists (disk st) /\
  (data_file (disk (write_failed f data st)) = data_file (disk st) \/
   data_file (disk (write_failed f data st)) = Some Unparseable \/
   write_leaves f = Text_written /\
   data_file (disk (write_failed f data st)) = Some (Parsed data)).
Proof. unfold write_failed. destruct (write_leaves f); cbn; auto 10. Qed.

(** What a call owes when its save fails: against the same call with a
    save that succeeds, and against the state [st] before the call. *)
Abbreviation save_failure_kept f o bad ok st :=
  ((fst bad = fst ok /\
    seenPostsBySubreddit (snd bad) = seenPostsBySubreddit (snd ok) /\
    userSubscriptions (snd bad) = userSubscriptions (snd ok) /\
    outbox (snd bad) = outbox (snd ok)) /\
   (dir_exists (disk (snd bad)) = dir_exists (disk st) /\
    (data_file (disk (snd bad)) = data_file (disk st) \/
     data_file (disk (snd bad)) = Some Unparseable \/
     write_leaves f = Text_written /\
     data_file (disk (snd bad)) = Some (Parsed (snapshot (snd bad))))) /\
   (reaches_save o st = false -> fst bad = Return false /\ snd bad = st) /\
   (reaches_save o st = true ->
    change_kept o (snd bad) /\
    (forall r, o = Registry r -> fst bad = Return true) /\
    (exists rest, console (snd bad) = console st ++ Error_save_failed :: rest) /\
    (userSubscriptions (snd bad) <> userSubscriptions st \/
     seenPostsBySubreddit (snd bad) <> seenPostsBySubreddit st) /\
    data_file (disk (snd ok)) = Some (Parsed (snapshot (snd ok))) /\
    (JsMap.wf (userSubscriptions st) -> JsMap.wf (seenPostsBySubreddit st) ->
     written_key o <> "__proto__"%string ->
     snapshot (snd bad) <> snapshot st /\
     (data_file (disk st) = Some (Parsed (snapshot st)) ->
      write_leaves f <> Text_written ->
      data_file (disk (snd bad)) <> Some (Parsed (snapshot (snd bad))) /\
      data_file (disk (snd bad)) <> data_file (disk (snd ok)))))).

(** A call that returns [false] without touching the state. *)
Lemma save_failure_unchanged f o (st : state) :
  reaches_save o st = false ->
  save_failure_kept f o (Return false, st) (Return false, st) st.
Proof.
  intros H. cbn [fst snd]. split; [auto |]. split; [auto |]. split; [auto |].
  intros H'. congruence.
Qed.

(** A call that updates a map, saves, and goes on with steps [W] that
    leave the maps and the disk alone. *)
Lemma save_failure_changed f o (W : state -> state) (r : completion bool) st_m st :
  (forall x, seenPostsBySubreddit (W x) = seenPostsBySubreddit x) ->
  (forall x, userSubscriptions (W x) = userSubscriptions x) ->
  (forall x, disk (W x) = disk x) ->
  (forall x, exists rest, console (W x) = console x ++ rest) ->
  (forall x y, outbox x = outbox y -> outbox (W x) = outbox (W y)) ->
  disk st_m = disk st -> console st_m = console st ->
  reaches_save o st = true ->
  change_kept o st_m ->
  (forall x, o = Registry x -> r = Return true) ->
  (JsMap.get (written_key o) (userSubscriptions st_m)
   <> JsMap.get (written_key o) (userSubscriptions st) /\
   (JsMap.wf (userSubscriptions st) -> JsMap.wf (userSubscriptions st_m))
   \/
   option_map (@FifoSet.serialize string)
     (JsMap.get (written_key o) (seenPostsBySubreddit st_m))
   <> option_map (@FifoSet.serialize string)
        (JsMap.get (written_key o) (seenPostsBySubreddit st)) /\
   (JsMap.wf (seenPostsBySubreddit st) -> JsMap.wf (seenPostsBySubreddit st_m))) ->
  save_failure_kept f o (r, W (saved (set_write_throws true f) st_m))
                        (r, W (saved (set_write_throws false f) st_m)) st.
Proof.
  intros Wseen Wsubs Wdisk Wcons Wout Hdisk Hcons Hreach Hkept Hr Hdiff.
  rewrite saved_write_throws, saved_write_returns. cbn [fst snd].
  destruct (write_failed_leaves f (snapshot st_m) st_m) as [F1 [F2 [F3 [F4 [F5 F6]]]]].
  set (bad := W (logged Error_save_failed (write_failed f (snapshot st_m) st_m))).
  set (ok := W (with_disk (mkDisk (dir_exists (disk st_m))
                                  (Some (Parsed (snapshot st_m)))) st_m)).
  assert (Bseen : seenPostsBySubreddit bad = seenPostsBySubreddit st_m).
  { subst bad. rewrite Wseen. exact F1. }
  assert (Bsubs : userSubscriptions bad = userSubscriptions st_m).
  { subst bad. rewrite Wsubs. exact F2. }
  assert (Oseen : seenPostsBySubreddit ok = seenPostsBySubreddit st_m).
  { subst ok. now rewrite Wseen. }
  assert (Osubs : userSubscriptions ok = userSubscriptions st_m).
  { subst ok. now rewrite Wsubs. }
  assert (Bsnap : snapshot bad = snapshot st_m) by now apply snapshot_ext.
  assert (Osnap : snapshot ok = snapshot st_m) by now apply snapshot_ext.
  assert (Bdisk : disk bad = disk (write_failed f (snapshot st_m) st_m)).
  { subst bad. now rewrite Wdisk. }
  assert (Odisk : data_file (disk ok) = Some (Parsed (snapshot st_m))).
  { subst ok. now rewrite Wdisk. }
  assert (Bfile : data_file (disk bad) = data_file (disk st) \/
                  data_file (disk bad) = Some Unparseable \/
                  write_leaves f = Text_written /\
                  data_file (disk bad) = Some (Parsed (snapshot st_m))).
  { rewrite Bdisk, <- Hdisk. exact F6. }
  split; [| split; [| split]].
  - split; [reflexivity |]. split; [congruence |]. split; [congruence |].
    subst bad ok. apply Wout. cbn [logged with_console with_disk outbox]. exact F4.
  - split; [rewrite Bdisk, <- Hdisk; exact F5 |]. now rewrite Bsnap.
  - intros H. congruence.
  - intros _. split; [| split; [| split; [| split; [| split]]]].
    + now apply (@change_kept_ext o st_m bad Bseen Bsubs).
    + exact Hr.
    + subst bad.
      destruct (Wcons (logged Error_save_failed (write_failed f (snapshot st_m) st_m)))
        as [rest Hrest].
      exists rest. rewrite Hrest. cbn [logged with_console console].
      now rewrite F3, Hcons, <- app_assoc.
    + rewrite Bsubs, Bseen. destruct Hdiff as [[Hd _] | [Hd _]].
      * left. intros E. apply Hd. now rewrite E.
      * right. intros E. apply Hd. now rewrite E.
    + now rewrite Osnap.
    + intros Hwf1 Hwf2 Hk.
      assert (Hchg : snapshot st_m <> snapshot st).
      { destruct Hdiff as [[Hd Hwf] | [Hd Hwf]].
        - now apply (snapshot_differs_subscriptions Hwf1 (Hwf Hwf1) Hk).
        - now apply (snapshot_differs_seen Hwf2 (Hwf Hwf2) Hk). }
      split; [now rewrite Bsnap |].
      intros Hsync Hleaves. rewrite Bsnap, Odisk.
      assert (Hne : data_file (disk bad) <> Some (Parsed (snapshot st_m))).
      { destruct Bfile as [B | [B | [B _]]]; [| rewrite B; discriminate | contradiction].
        rewrite B, Hsync. intros E. apply Hchg. congruence. }
      split; exact Hne.
Qed.

Lemma logged_steps e :
  (forall x, seenPostsBySubreddit (logged e x) = seenPostsBySubreddit x) /\
  (forall x, userSubscriptions (logged e x) = userSubscriptions x) /\
  (forall x, disk (logged e x) = disk x) /\
  (forall x, exists rest, console (logged e x) = console x ++ rest) /\
  (forall x y, outbox x = outbox y -> outbox (logged e x) = outbox (logged e y)).
Proof. repeat split; auto. intros x. now exists [e]. Qed.

Lemma save_failure_subscribe f a s st :
  save_failure_kept f (Registry (Subscribe a s))
    (subscribeToSubreddit (set_write_throws true f) a s st)
    (subscribeToSubreddit (set_write_throws false f) a s st) st.
Proof.
  rewrite !subscribeToSubreddit_eq. cbv zeta.
  destruct (JsSet.has string_dec _ _) eqn:E.
  { apply save_failure_unchanged. cbn [reaches_save]. now rewrite E. }
  destruct (logged_steps (Log_subscribed a s)) as [W1 [W2 [W3 [W4 W5]]]].
  apply (@save_failure_changed f (Registry (Subscribe a s)) (logged (Log_subscribed a s)));
    auto.
  - cbn [reaches_save]. now rewrite E.
  - cbn [change_kept]. unfold getUserSubscriptions at 1.
    cbn [with_subscriptions userSubscriptions]. rewrite JsMap_get_set_same.
    apply JsSet_in_add. now left.
  - left. cbn [written_key with_subscriptions userSubscriptions]. split.
    + rewrite JsMap_get_set_same. unfold getUserSubscriptions in *.
      destruct (JsMap.get (JsString.toLowerCase a) (userSubscriptions st));
        [| discriminate].
      intros [= H]. now apply JsSet_add_changes in H.
    + apply JsMap_wf_set.
Qed.

Lemma save_failure_unsubscribe f a s st :
  save_failure_kept f (Registry (Unsubscribe a s))
    (unsubscribeFromSubreddit (set_write_throws true f) a s st)
    (unsubscribeFromSubreddit (set_write_throws false f) a s st) st.
Proof.
  rewrite !unsubscribeFromSubreddit_eq. cbv zeta.
  destruct (JsMap.get (JsString.toLowerCase a) (userSubscriptions st)) as [subs |] eqn:G.
  2: { apply save_failure_unchanged. cbn [reaches_save]. unfold getUserSubscriptions.
       now rewrite G. }
  destruct (JsSet.has string_dec _ _) eqn:E.
  2: { apply save_failure_unchanged. cbn [reaches_save]. unfold getUserSubscriptions.
       now rewrite G. }
  destruct (logged_steps (Log_unsubscribed a s)) as [W1 [W2 [W3 [W4 W5]]]].
  apply (@save_failure_changed f (Registry (Unsubscribe a s)) (logged (Log_unsubscribed a s)));
    auto.
  - cbn [reaches_save]. unfold getUserSubscriptions. now rewrite G.
  - cbn [change_kept]. unfold getUserSubscriptions at 1.
    cbn [with_subscriptions userSubscriptions].
    destruct (length _ =? 0)%nat.
    + rewrite JsMap_get_delete_same. intros [].
    + rewrite JsMap_get_set_same. intros Hin. apply JsSet_in_delete in Hin.
      now destruct Hin.
  - left. cbn [written_key with_subscriptions userSubscriptions]. rewrite G. split.
    + destruct (length _ =? 0)%nat.
      * now rewrite JsMap_get_delete_same.
      * rewrite JsMap_get_set_same. intros [= H]. now apply JsSet_delete_changes in H.
    + intros Hwf. destruct (length _ =? 0)%nat.
      * now apply JsMap_wf_delete, JsMap_wf_set.
      * now apply JsMap_wf_set.
Qed.

Lemma save_failure_unsubscribe_all f a st :
  save_failure_kept f (Registry (UnsubscribeAll a))
    (unsubscribeFromAllSubreddits (set_write_throws true f) a st)
    (unsubscribeFromAllSubreddits (set_write_throws false f) a st) st.
Proof.
  rewrite !unsubscribeFromAllSubreddits_eq. cbv zeta.
  destruct (JsMap.get (JsString.toLowerCase a) (userSubscriptions st)) as [subs |] eqn:G.
  2: { apply save_failure_unchanged. cbn [reaches_save]. unfold getUserSubscriptions.
       now rewrite G. }
  destruct (length subs =? 0)%nat eqn:L.
  { apply save_failure_unchanged. cbn [reaches_save]. unfold getUserSubscriptions.
    now rewrite G, L. }
  destruct (logged_steps (Log_unsubscribed_all a (length subs))) as [W1 [W2 [W3 [W4 W5]]]].
  apply (@save_failure_changed f (Registry (UnsubscribeAll a))
           (logged (Log_unsubscribed_all a (length subs)))); auto.
  - cbn [reaches_save]. unfold getUserSubscriptions. now rewrite G, L.
  - cbn [change_kept]. unfold getUserSubscriptions.
    cbn [with_subscriptions userSubscriptions]. now rewrite JsMap_get_delete_same.
  - left. cbn [written_key with_subscriptions userSubscriptions]. rewrite G. split.
    + now rewrite JsMap_get_delete_same.
    + apply JsMap_wf_delete.
Qed.

Lemma save_failure_deliver toUTCString f post s st :
  save_failure_kept f (Deliver post s)
    (sendRedditPostToSubscribers toUTCString (set_write_throws true f) post s st)
    (sendRedditPostToSubscribers toUTCString (set_write_throws false f) post s st) st.
Proof.
  rewrite !sendRedditPostToSubscribers_eq. cbv zeta.
  cbn [set_write_throws list_throws].
  assert (Hseen : seen st s (id post)
                  = FifoSet.has string_dec (id post)
                      match JsMap.get (JsString.toLowerCase s) (seenPostsBySubreddit st) with
                      | Some w => w
                      | None => FifoSet.new string 50
                      end).
  { unfold seen. now destruct (JsMap.get _ _). }
  set (w := match JsMap.get _ _ with Some w => w | None => FifoSet.new string 50 end) in *.
  destruct (FifoSet.has string_dec (id post) w) eqn:E.
  - destruct (JsMap.get (JsString.toLowerCase s) (seenPostsBySubreddit st)) eqn:G.
    + apply save_failure_unchanged. cbn [reaches_save]. now rewrite Hseen.
    + subst w. discriminate E.
  - set (st_m := with_seen (JsMap.set (JsString.toLowerCase s)
                              (snd (FifoSet.add string_dec (id post) w))
                              (seenPostsBySubreddit st)) st).
    assert (Hreach : reaches_save (Deliver post s) st = true).
    { cbn [reaches_save]. now rewrite Hseen. }
    assert (Hkept : change_kept (Deliver post s) st_m).
    { cbn [change_kept]. unfold seen. subst st_m. cbn [with_seen seenPostsBySubreddit].
      rewrite JsMap_get_set_same. apply FifoSet_has_after_add. }
    assert (Hdiff :
      option_map (@FifoSet.serialize string)
        (JsMap.get (written_key (Deliver post s)) (seenPostsBySubreddit st_m))
      <> option_map (@FifoSet.serialize string)
           (JsMap.get (written_key (Deliver post s)) (seenPostsBySubreddit st)) /\
      (JsMap.wf (seenPostsBySubreddit st) -> JsMap.wf (seenPostsBySubreddit st_m))).
    { subst st_m. cbn [written_key with_seen seenPostsBySubreddit]. split.
      - rewrite JsMap_get_set_same. cbn [option_map]. subst w.
        destruct (JsMap.get (JsString.toLowerCase s) (seenPostsBySubreddit st));
          [| discriminate].
        cbn [option_map]. intros [= H]. now apply FifoSet_add_changes in H.
      - apply JsMap_wf_set. }
    destruct (length _ =? 0)%nat; [| destruct (list_throws f)].
    + destruct (logged_steps (Log_no_subscribers s)) as [W1 [W2 [W3 [W4 W5]]]].
      apply (@save_failure_changed f (Deliver post s) (logged (Log_no_subscribers s)));
        auto; discriminate.
    + apply (@save_failure_changed f (Deliver post s) (fun x => x)); auto;
        try discriminate.
      intros x. exists []. now rewrite app_nil_r.
    + apply (@save_failure_changed f (Deliver post s)
               (fun x => with_outbox
                  (outbox x ++ [(RedditService.formatRedditPost toUTCString post,
                                 getSubscribersForSubreddit st s)]) x)); auto;
        try discriminate.
      * intros x. exists []. now rewrite app_nil_r.
      * intros x y H. cbn [with_outbox outbox]. now rewrite H.
Qed.



(* ================================================================= *)
(** ** More on the delivery of posts *)

Section DeliveryMore.
Variable toUTCString : string -> string.

(** X15. Whatever a call of [sendRedditPostToSubscribers] did, sent,
    skipped for lack of subscribers, or thrown by the messaging client, a
    call for a post with the same id and the same subreddit in any
    spelling, after any registry calls, returns [false] and changes
    nothing: a post is offered for delivery once. *)
Theorem second_offer_is_skipped
    (f f' : Faults) (post post' : RedditPost) (subreddit subreddit' : string)
    (calls : list (Faults * registry_op)) (st : state) :
  id post' = id post ->
  JsString.toLowerCase subreddit' = JsString.toLowerCase subreddit ->
  let st1 := registry_run calls
               (snd (sendRedditPostToSubscribers toUTCString f post subreddit st)) in
  sendRedditPostToSubscribers toUTCString f' post' subreddit' st1 = (Return false, st1).
Proof.
  intros Hid Hs st1. apply sendRedditPostToSubscribers_seen.
  rewrite Hid, (seen_same_topic _ _ _ _ Hs). subst st1.
  rewrite (seen_ext _ _ _ _ (registry_run_seen calls _)).
  apply sendRedditPostToSubscribers_marks_seen.
Qed.

(** X16. For a post not seen under its subreddit, with a subscriber of the
    subreddit and a messaging client that lists its conversations, the call
    returns [true], hands the formatted post once to
    [sendToSpecificAddresses] with the subscribers of the subreddit, marks
    the post seen and leaves the subscriptions alone. *)
Theorem unseen_post_is_handed_over
    (f : Faults) (post : RedditPost) (subreddit : string) (st : state) :
  seen st subreddit (id post) = false ->
  getSubscribersForSubreddit st subreddit <> [] ->
  list_throws f = false ->
  let r := sendRedditPostToSubscribers toUTCString f post subreddit st in
  fst r = Return true /\
  outbox (snd r)
  = outbox st ++ [(RedditService.formatRedditPost toUTCString post,
                   getSubscribersForSubreddit st subreddit)] /\
  seen (snd r) subreddit (id post) = true /\
  userSubscriptions (snd r) = userSubscriptions st.
Proof.
  intros Hseen Hsubs Hlist r.
  assert (Hr : r = (Return true,
            with_outbox
              (outbox st ++ [(RedditService.formatRedditPost toUTCString post,
                              getSubscribersForSubreddit st subreddit)])
              (saved f (with_seen
                 (JsMap.set (JsString.toLowerCase subreddit)
                    (snd (FifoSet.add string_dec (id post) (window st subreddit)))
                    (seenPostsBySubreddit st)) st)))).
  { subst r. rewrite sendRedditPostToSubscribers_eq. cbv zeta.
    fold (window st subreddit).
    assert (Hw : FifoSet.has string_dec (id post) (window st subreddit) = false).
    { unfold seen in Hseen. unfold window.
      destruct (JsMap.get (JsString.toLowerCase subreddit) (seenPostsBySubreddit st));
        [exact Hseen | reflexivity]. }
    rewrite Hw, Hlist.
    destruct (getSubscribersForSubreddit st subreddit); [congruence |].
    cbn [length Nat.eqb]. now rewrite (proj2 (proj2 (saved_memory f _))). }
  repeat split.
  - now rewrite Hr.
  - now rewrite Hr.
  - subst r. apply sendRedditPostToSubscribers_marks_seen.
  - rewrite Hr. cbn [snd with_outbox userSubscriptions].
    now rewrite (proj1 (proj2 (saved_memory f _))).
Qed.

(** X17. When the messaging client throws on listing its conversations,
    the call throws after the post was marked seen and saved: nothing is
    handed over, and the post counts as seen from then on. When the write
    succeeded, the map of windows holds each topic once and the topic is
    written in ASCII and is not [__proto__], the document in the file
    lists the id under the topic. *)
Theorem failed_delivery_still_marks_seen
    (f : Faults) (post : RedditPost) (subreddit : string) (st : state) :
  seen st subreddit (id post) = false ->
  getSubscribersForSubreddit st subreddit <> [] ->
  list_throws f = true ->
  let r := sendRedditPostToSubscribers toUTCString f post subreddit st in
  fst r = Throw /\
  outbox (snd r) = outbox st /\
  seen (snd r) subreddit (id post) = true /\
  (write_throws f = false ->
   JsMap.wf (seenPostsBySubreddit st) ->
   JsText.ascii_only subreddit = true ->
   JsString.toLowerCase subreddit <> "__proto__"%string ->
   exists data entries ids,
     data_file (disk (snd r)) = Some (Parsed data) /\
     seenPosts data = Some entries /\
     JsMap.get (JsString.toLowerCase subreddit) entries = Some ids /\
     In (id post) ids).
Proof.
  intros Hseen Hsubs Hlist r.
  assert (Hr : r = (Throw,
              saved f (with_seen
                 (JsMap.set (JsString.toLowerCase subreddit)
                    (snd (FifoSet.add string_dec (id post) (window st subreddit)))
                    (seenPostsBySubreddit st)) st))).
  { subst r. rewrite sendRedditPostToSubscribers_eq. cbv zeta.
    fold (window st subreddit).
    assert (Hw : FifoSet.has string_dec (id post) (window st subreddit) = false).
    { unfold seen in Hseen. unfold window.
      destruct (JsMap.get (JsString.toLowerCase subreddit) (seenPostsBySubreddit st));
        [exact Hseen | reflexivity]. }
    rewrite Hw, Hlist.
    destruct (getSubscribersForSubreddit st subreddit); [congruence |]. reflexivity. }
  repeat split.
  - now rewrite Hr.
  - rewrite Hr. cbn [snd]. now rewrite (proj2 (proj2 (saved_memory f _))).
  - subst r. apply sendRedditPostToSubscribers_marks_seen.
  - intros Hw Hwf _ Hk. rewrite Hr. cbn [snd]. rewrite saved_eq, Hw.
    cbn [with_disk disk data_file].
    eexists. eexists. eexists. split; [reflexivity |].
    cbn [snapshot seenPosts with_seen seenPostsBySubreddit]. split; [reflexivity |].
    rewrite JsObject_get_of_map;
      [| apply (JsMap_wf_map (@FifoSet.serialize string)); now apply JsMap_wf_set
       | exact Hk].
    rewrite (JsMap_get_map (@FifoSet.serialize string)), JsMap_get_set_same.
    cbn [option_map]. split; [reflexivity |].
    unfold FifoSet.serialize. apply (FifoSet_has_true string_dec).
    apply FifoSet_has_after_add.
Qed.

(** The window of a subreddit after a call: the id of the post was added
    to it, whatever the call returned. *)
Lemma window_after_offer f post subreddit st :
  window (snd (sendRedditPostToSubscribers toUTCString f post subreddit st)) subreddit
  = snd (FifoSet.add string_dec (id post) (window st subreddit)).
Proof.
  rewrite sendRedditPostToSubscribers_eq. cbv zeta. fold (window st subreddit).
  destruct (FifoSet.has string_dec (id post) (window st subreddit)) eqn:E.
  - apply (FifoSet_has_true string_dec) in E. rewrite FifoSet_add_member by assumption.
    cbn [snd]. unfold window.
    destruct (JsMap.get (JsString.toLowerCase subreddit) (seenPostsBySubreddit st)) eqn:G.
    + now rewrite G.
    + cbn [with_seen seenPostsBySubreddit]. now rewrite JsMap_get_set_same.
  - set (m := JsMap.set _ _ _).
    assert (Hm : forall st', seenPostsBySubreddit st' = m ->
                 window st' subreddit
                 = snd (FifoSet.add string_dec (id post) (window st subreddit))).
    { intros st' Est. unfold window at 1. rewrite Est. subst m.
      now rewrite JsMap_get_set_same. }
    destruct (length _ =? 0)%nat; [| destruct (list_throws f)]; cbn [snd]; apply Hm;
      cbn [logged with_console with_outbox seenPostsBySubreddit];
      now rewrite (proj1 (saved_memory f _)).
Qed.

Lemma window_after_offer_all faults subreddit posts st :
  window (offer_all toUTCString faults subreddit posts st) subreddit
  = FifoSet.add_all string_dec (map id posts) (window st subreddit).
Proof.
  revert st. unfold offer_all, FifoSet.add_all.
  induction posts as [| p posts IH]; intros st; cbn [fold_left map]; [reflexivity |].
  rewrite IH. now rewrite window_after_offer.
Qed.

Lemma seen_window st subreddit postId :
  seen st subreddit postId = FifoSet.has string_dec postId (window st subreddit).
Proof.
  unfold seen, window.
  now destruct (JsMap.get (JsString.toLowerCase subreddit) (seenPostsBySubreddit st)).
Qed.

(** X18. For a subreddit without window yet, after calls for more than 50
    posts with pairwise different ids, whatever each call returned, the
    posts seen under the subreddit are exactly the last 50: the earlier
    ones are not seen any more. *)
Theorem fresh_window_keeps_last_fifty
    (faults : RedditPost -> Faults) (subreddit : string) (posts : list RedditPost)
    (st : state) :
  JsMap.get (JsString.toLowerCase subreddit) (seenPostsBySubreddit st) = None ->
  NoDup (map id posts) ->
  (50 < length posts)%nat ->
  let st' := offer_all toUTCString faults subreddit posts st in
  forall postId,
    seen st' subreddit postId = true
    <-> In postId (skipn (length posts - 50) (map id posts)).
Proof.
  intros Hnone Hnd Hlen st' postId. subst st'.
  rewrite seen_window, window_after_offer_all.
  unfold window. rewrite Hnone. unfold FifoSet.new.
  change 50%Z with (Z.of_nat 50).
  rewrite FifoSet_add_all_window; cbn [app length]; auto; try lia.
  rewrite length_map. apply FifoSet_has_true.
Qed.
End DeliveryMore.

(** X15 on a new manager: the first call finds no subscriber, the second
    one comes after a subscription. *)
Lemma second_offer_is_skipped_witness :
  let post := mkPost "t3_1" "Title" "https://example.com/a" "" None "u" in
  let st1 := registry_run [(no_fault, Subscribe "0xABC" "golang")]
               (snd (sendRedditPostToSubscribers (fun d => d) no_fault post "golang"
                       (fresh (mkDisk true None)))) in
  sendRedditPostToSubscribers (fun d => d) no_fault post "GoLang" st1 = (Return false, st1).
Proof.
  cbv zeta.
  apply (@second_offer_is_skipped (fun d => d) no_fault no_fault
           (mkPost "t3_1" "Title" "https://example.com/a" "" None "u")
           (mkPost "t3_1" "Title" "https://example.com/a" "" None "u")
           "golang" "GoLang" [(no_fault, Subscribe "0xABC" "golang")]
           (fresh (mkDisk true None)));
    reflexivity.
Defined.

(** X16 on a manager with one subscriber of [golang]. *)
Lemma unseen_post_is_handed_over_witness :
  let post := mkPost "t3_1" "Title" "https://example.com/a" "" None "u" in
  let st := snd (subscribeToSubreddit no_fault "0xABC" "golang" (fresh (mkDisk true None))) in
  fst (sendRedditPostToSubscribers (fun d => d) no_fault post "GoLang" st) = Return true.
Proof.
  cbv zeta.
  refine (proj1 (@unseen_post_is_handed_over (fun d => d) no_fault
    (mkPost "t3_1" "Title" "https://example.com/a" "" None "u") "GoLang"
    (snd (subscribeToSubreddit no_fault "0xABC" "golang" (fresh (mkDisk true None))))
    _ _ _)).
  - reflexivity.
  - vm_compute. discriminate.
  - reflexivity.
Defined.

(** X17 on a manager with one subscriber of [golang] and a messaging
    client that throws. *)
Lemma failed_delivery_still_marks_seen_witness :
  let post := mkPost "t3_1" "Title" "https://example.com/a" "" None "u" in
  let st := snd (subscribeToSubreddit no_fault "0xABC" "golang" (fresh (mkDisk true None))) in
  let r := sendRedditPostToSubscribers (fun d => d) (mkFaults false false false true Not_opened)
             post "golang" st in
  fst r = Throw /\ seen (snd r) "golang" "t3_1" = true /\
  exists data entries ids,
    data_file (disk (snd r)) = Some (Parsed data) /\
    seenPosts data = Some entries /\
    JsMap.get "golang" entries = Some ids /\
    In "t3_1"%string ids.
Proof.
  cbv zeta.
  pose proof (@failed_delivery_still_marks_seen (fun d => d)
    (mkFaults false false false true Not_opened)
    (mkPost "t3_1" "Title" "https://example.com/a" "" None "u") "golang"
    (snd (subscribeToSubreddit no_fault "0xABC" "golang" (fresh (mkDisk true None))))
    eq_refl) as H.
  cbv zeta in H. destruct H as [H1 [_ [H3 H4]]].
  - vm_compute. discriminate.
  - reflexivity.
  - split; [exact H1 |]. split; [exact H3 |].
    apply H4; [reflexivity | constructor | reflexivity | vm_compute; discriminate].
Defined.

Lemma NoDup_map_injective (A B : Type) (g : A -> B) (l : list A) :
  (forall x y, g x = g y -> x = y) -> NoDup l -> NoDup (map g l).
Proof.
  intros Hg. induction 1 as [| x l Hx Hl IH]; cbn; constructor; auto.
  intros Hin. apply in_map_iff in Hin. destruct Hin as [y [Hy Hin]].
  apply Hg in Hy. now subst y.
Qed.

(** X18 on 51 posts with the ids [a], [aa], [aaa], ...: the second id is
    seen at the end. *)
Lemma fresh_window_keeps_last_fifty_witness :
  let posts := map (fun n => mkPost (string_of_list_ascii (repeat "a"%char n))
                                    "" "" "" None "") (seq 1 51) in
  seen (offer_all (fun d => d) (fun _ => no_fault) "golang" posts (fresh (mkDisk true None)))
       "golang" "aa" = true.
Proof.
  cbv zeta.
  apply (@fresh_window_keeps_last_fifty (fun d => d) (fun _ => no_fault) "golang"
           (map (fun n => mkPost (string_of_list_ascii (repeat "a"%char n))
                                 "" "" "" None "") (seq 1 51))
           (fresh (mkDisk true None))).
  - reflexivity.
  - rewrite map_map. cbn [id]. apply NoDup_map_injective; [| apply seq_NoDup].
    intros n m H. apply (f_equal list_ascii_of_string) in H.
    rewrite !list_ascii_of_string_of_list_ascii in H.
    apply (f_equal (@length ascii)) in H. now rewrite !repeat_length in H.
  - rewrite length_map, length_seq. lia.
  - rewrite length_map, length_seq. vm_compute. left. reflexivity.
Defined.

(* ================================================================= *)
(** ** Spelling of addresses and subreddits; the loader *)

(** X19. The methods of the manager see an address and a subreddit through
    their lowercase only: two spellings with the same lowercase give the
    same result, the same maps and the same file for [subscribe],
    [unsubscribe] and [unsubscribe-all], and the same answer for the two
    lookups. Only the line on the console shows the spelling. *)
Theorem methods_ignore_case (f : Faults) (a a' s s' : string) (st : state) :
  JsString.toLowerCase a' = JsString.toLowerCase a ->
  JsString.toLowerCase s' = JsString.toLowerCase s ->
  (forall o o',
     (o = Subscribe a s /\ o' = Subscribe a' s') \/
     (o = Unsubscribe a s /\ o' = Unsubscribe a' s') \/
     (o = UnsubscribeAll a /\ o' = UnsubscribeAll a') ->
     let r := registry_call f o st in
     let r' := registry_call f o' st in
     fst r' = fst r /\
     userSubscriptions (snd r') = userSubscriptions (snd r) /\
     seenPostsBySubreddit (snd r') = seenPostsBySubreddit (snd r) /\
     disk (snd r') = disk (snd r)) /\
  getUserSubscriptions st a' = getUserSubscriptions st a /\
  getSubscribersForSubreddit st s' = getSubscribersForSubreddit st s.
Proof.
  intros Ha Hs. split; [| split].
  - intros o o' [[-> ->] | [[-> ->] | [-> ->]]]; cbn [registry_call]; cbv zeta.
    + rewrite !subscribeToSubreddit_eq. cbv zeta.
      rewrite (getUserSubscriptions_same_address _ _ _ Ha), Ha, Hs.
      destruct (JsSet.has string_dec _ _); cbn [fst snd]; auto;
        rewrite !saved_eq; destruct (write_throws f); auto.
    + rewrite !unsubscribeFromSubreddit_eq. cbv zeta. rewrite Ha, Hs.
      destruct (JsMap.get _ _); [| auto].
      destruct (JsSet.has string_dec _ _); cbn [fst snd]; auto;
        rewrite !saved_eq; destruct (write_throws f); auto.
    + rewrite !unsubscribeFromAllSubreddits_eq. cbv zeta. rewrite Ha.
      destruct (JsMap.get _ _); [| auto].
      destruct (length _ =? 0)%nat; cbn [fst snd]; auto;
        rewrite !saved_eq; destruct (write_throws f); auto.
  - now apply getUserSubscriptions_same_address.
  - unfold getSubscribersForSubreddit. now rewrite Hs.
Qed.

(** X19 on two spellings of an address and of a subreddit. *)
Lemma methods_ignore_case_witness :
  let st := fresh (mkDisk true None) in
  userSubscriptions (snd (subscribeToSubreddit no_fault "0xabc" "GOLANG" st))
  = userSubscriptions (snd (subscribeToSubreddit no_fault "0xABC" "golang" st)).
Proof.
  cbv zeta.
  pose proof (@methods_ignore_case no_fault "0xABC" "0xabc" "golang" "GOLANG"
                (fresh (mkDisk true None)) eq_refl eq_refl) as H.
  destruct H as [H _].
  exact (proj1 (proj2 (H (Subscribe "0xABC" "golang") (Subscribe "0xabc" "GOLANG")
                         (or_introl (conj eq_refl eq_refl))))).
Defined.

Lemma load_subscriptions_app entries entries' m :
  load_subscriptions (entries ++ entries') m
  = load_subscriptions entries' (load_subscriptions entries m).
Proof. unfold load_subscriptions. apply fold_left_app. Qed.

Lemma load_subscriptions_get_other k entries m :
  Forall (fun e => JsString.toLowerCase (fst e) <> k) entries ->
  JsMap.get k (load_subscriptions entries m) = JsMap.get k m.
Proof.
  unfold load_subscriptions. revert m.
  induction entries as [| e entries IH]; intros m H; cbn [fold_left]; [reflexivity |].
  inversion H; subst. rewrite IH by assumption.
  apply JsMap_get_set_other. congruence.
Qed.

(** X20. When the document lists one address several times in different
    spellings, [loadUserData] keeps the topics of the last such entry only,
    each topic once: the topics of the earlier entries are dropped. *)
Theorem load_last_spelling_wins
    (before after : list (string * list string)) (address : string)
    (topics : list string) (m : JsMap.t (list string)) :
  Forall (fun e => JsString.toLowerCase (fst e) <> JsString.toLowerCase address) after ->
  JsMap.get (JsString.toLowerCase address)
    (load_subscriptions (before ++ (address, topics) :: after) m)
  = Some (JsSet.of_list string_dec topics).
Proof.
  intros H. rewrite load_subscriptions_app.
  change ((address, topics) :: after) with ([(address, topics)] ++ after).
  rewrite load_subscriptions_app, load_subscriptions_get_other by assumption.
  unfold load_subscriptions at 1. cbn [fold_left fst snd].
  apply JsMap_get_set_same.
Qed.

(** X20 on a document with [0xABC] and then [0xabc]. *)
Lemma load_last_spelling_wins_witness :
  getUserSubscriptions
    (snd (constructor no_fault
            (mkDisk true
               (Some (Parsed (mkUserData
                  (Some [("0xABC", ["golang"; "rust"]); ("0xabc", ["news"; "news"])]%string)
                  (Some []))))))) "0xabc"
  = ["news"%string].
Proof.
  pose proof (@load_last_spelling_wins [("0xABC", ["golang"; "rust"])]%string [] "0xabc"
                ["news"; "news"]%string [] (Forall_nil _)) as H.
  unfold getUserSubscriptions. rewrite constructor_eq. cbv zeta.
  cbn [snd dir_exists data_file negb andb read_throws no_fault subscriptions seenPosts
       logged with_console userSubscriptions].
  cbn [app] in H. rewrite H. reflexivity.
Defined.

(* ================================================================= *)
(** ** The loop over the conversations *)

Lemma Transport_loop_from (addresses : list string) (convs : list Transport.Conversation)
    (t : Transport.Tally) :
  let wanted c :=
    JsSet.has string_dec (JsString.toLowerCase (Transport.getAddressFromConversation c))
      addresses in
  let t' := fold_left (Transport.visit addresses) convs t in
  Transport.delivered t'
  = Transport.delivered t
    ++ filter (fun c => wanted c && negb (Transport.send_throws c)) convs /\
  Transport.sentCount t'
  = (Transport.sentCount t
     + length (filter (fun c => wanted c && negb (Transport.send_throws c)) convs))%nat /\
  Transport.skippedCount t'
  = (Transport.skippedCount t + length (filter (fun c => negb (wanted c)) convs))%nat /\
  Transport.failedCount t'
  = (Transport.failedCount t
     + length (filter (fun c => wanted c && Transport.send_throws c) convs))%nat.
Proof.
  cbv zeta. revert t. induction convs as [| c convs IH]; intros t; cbn [fold_left filter].
  - rewrite app_nil_r. cbn. repeat split; lia.
  - destruct (IH (Transport.visit addresses t c)) as [H1 [H2 [H3 H4]]].
    rewrite H1, H2, H3, H4. unfold Transport.visit.
    destruct (JsSet.has string_dec _ addresses); cbn [negb andb];
      [destruct (Transport.send_throws c) |];
      cbn [negb andb Transport.delivered Transport.sentCount Transport.skippedCount
           Transport.failedCount length];
      rewrite <- ?app_assoc; cbn [app]; repeat split; lia.
Qed.

(** X21. In [sendToSpecificAddresses] the message goes to exactly the
    conversations whose address, in lowercase, is in the list and whose
    [send] does not throw, in the order of the messaging client and once per
    conversation: a [send] that throws stops nothing after it. Every
    conversation counts once, as sent, skipped or failed. *)
Theorem message_goes_to_listed_conversations
    (conversations : list Transport.Conversation) (addresses : list string) :
  let wanted c :=
    JsSet.has string_dec (JsString.toLowerCase (Transport.getAddressFromConversation c))
      addresses in
  let t := Transport.sendToSpecificAddresses conversations addresses in
  Transport.delivered t
  = filter (fun c => wanted c && negb (Transport.send_throws c)) conversations /\
  Transport.sentCount t = length (Transport.delivered t) /\
  Transport.skippedCount t = length (filter (fun c => negb (wanted c)) conversations) /\
  (Transport.sentCount t + Transport.skippedCount t + Transport.failedCount t)%nat
  = length conversations.
Proof.
  cbv zeta. unfold Transport.sendToSpecificAddresses.
  destruct (Transport_loop_from addresses conversations (Transport.mkTally [] 0 0 0))
    as [H1 [H2 [H3 H4]]].
  cbv zeta in H1, H2, H3, H4. cbn [Transport.delivered Transport.sentCount
    Transport.skippedCount Transport.failedCount app Nat.add] in H1, H2, H3, H4.
  rewrite H1, H2, H3, H4. repeat split.
  clear. induction conversations as [| c convs IH]; cbn [filter length]; [reflexivity |].
  destruct (JsSet.has string_dec _ addresses); cbn [negb andb];
    [destruct (Transport.send_throws c) |]; cbn [negb andb length]; lia.
Qed.

(* ================================================================= *)
(** ** What [trimRedditUrl] cuts *)

Section TrimFacts.
Import JsString JsText RedditService.
Local Open Scope string_scope.

Lemma string_append_assoc (a b c : string) : (a ++ b) ++ c = a ++ (b ++ c).
Proof. induction a as [| x a IH]; cbn; [reflexivity | now rewrite IH]. Qed.

Lemma string_append_nil_r (a : string) : a ++ "" = a.
Proof. induction a as [| x a IH]; cbn; [reflexivity | now rewrite IH]. Qed.

Lemma string_length_append (a b : string) :
  String.length (a ++ b) = (String.length a + String.length b)%nat.
Proof. induction a as [| x a IH]; cbn; [reflexivity | now rewrite IH]. Qed.

Lemma substring_prefix (a b : string) : substring 0 (String.length a) (a ++ b) = a.
Proof.
  induction a as [| x a IH]; cbn.
  - now destruct b.
  - now rewrite IH.
Qed.

Lemma strip_prefix_sound p s r : strip_prefix p s = Some r -> s = p ++ r.
Proof.
  revert s. induction p as [| a p IH]; intros s; cbn.
  - now intros [= ->].
  - destruct s as [| b s]; [discriminate |].
    destruct (Ascii.eqb a b) eqn:E; [| discriminate].
    apply Ascii.eqb_eq in E. subst b. intros H. now rewrite (IH _ H).
Qed.

Lemma strip_prefix_app p r : strip_prefix p (p ++ r) = Some r.
Proof.
  induction p as [| a p IH]; cbn; [reflexivity |]. now rewrite Ascii.eqb_refl.
Qed.

Lemma span_word_sound s :
  s = fst (span_word s) ++ snd (span_word s) /\
  all_word (fst (span_word s)) /\ starts_outside_word (snd (span_word s)).
Proof.
  induction s as [| c s IH]; cbn; [auto |].
  destruct (is_word c) eqn:E; [| cbn; auto].
  destruct (span_word s) as [w r]. cbn in *. destruct IH as [H1 [H2 H3]].
  repeat split; auto. now rewrite <- H1.
Qed.

Lemma span_word_app w r :
  all_word w -> starts_outside_word r -> span_word (w ++ r) = (w, r).
Proof.
  induction w as [| c w IH]; cbn; intros Hw Hr.
  - destruct r as [| c r]; [reflexivity |]. cbn in *. now rewrite Hr.
  - destruct Hw as [Hc Hw]. now rewrite Hc, IH.
Qed.

Lemma word_plus_sound s r :
  word_plus s = Some r ->
  exists w, w <> "" /\ s = w ++ r /\ all_word w /\ starts_outside_word r.
Proof.
  unfold word_plus. destruct (span_word_sound s) as [H1 [H2 H3]].
  destruct (span_word s) as [w r']. cbn [fst snd] in *.
  destruct w as [| c w]; [discriminate |]. intros [= <-].
  exists (String c w). split; [discriminate |]. split; [exact H1 |]. split; assumption.
Qed.

Lemma word_plus_app w r :
  w <> "" -> all_word w -> starts_outside_word r -> word_plus (w ++ r) = Some r.
Proof.
  intros Hne Hw Hr. unfold word_plus. rewrite span_word_app by assumption.
  destruct w; [congruence | reflexivity].
Qed.

(** A match of the path: the part before what is left is the path up to
    the post id, what is left starts with a slash, and that part alone does
    not match. *)
Lemma match_path_shape s r :
  match_path s = Some r ->
  exists tail, s = ("reddit.com/r/" ++ tail) ++ r /\
               match_path ("reddit.com/r/" ++ tail) = None /\
               strip_prefix "/" r <> None.
Proof.
  unfold match_path, and_then. intros H.
  destruct (strip_prefix "reddit.com/r/" s) as [r1 |] eqn:E1; [| discriminate].
  destruct (word_plus r1) as [r2 |] eqn:E2; [| discriminate].
  destruct (strip_prefix "/comments/" r2) as [r3 |] eqn:E3; [| discriminate].
  destruct (word_plus r3) as [r4 |] eqn:E4; [| discriminate].
  destruct (strip_prefix "/" r4) as [r5 |] eqn:E5; [| discriminate].
  injection H as <-.
  apply strip_prefix_sound in E1, E3.
  apply word_plus_sound in E2, E4.
  destruct E2 as [sub [Hsub [E2 [Wsub _]]]]. destruct E4 as [pid [Hpid [E4 [Wpid _]]]].
  exists (sub ++ "/comments/" ++ pid). split; [| split].
  - subst s r1 r2 r3. now rewrite !string_append_assoc.
  - rewrite strip_prefix_app.
    rewrite word_plus_app by (auto; cbn; reflexivity).
    rewrite strip_prefix_app.
    rewrite <- (string_append_nil_r pid) at 1.
    rewrite word_plus_app by (auto; cbn; exact I). reflexivity.
  - now rewrite E5.
Qed.

(** A word, a dot and then the host of Reddit do not start like the host
    of Reddit. *)
Lemma match_path_subdomain w tail :
  all_word w -> match_path (w ++ "." ++ "reddit.com/r/" ++ tail) = None.
Proof.
  intros Hw. unfold match_path, and_then.
  destruct (strip_prefix "reddit.com/r/" (w ++ "." ++ "reddit.com/r/" ++ tail))
    as [r1 |] eqn:E; [| reflexivity].
  exfalso. apply strip_prefix_sound in E.
  apply (f_equal span_word) in E.
  rewrite span_word_app in E by (auto; cbn; reflexivity).
  cbn in E. injection E as _ E. discriminate E.
Qed.

Lemma match_authority_shape s r :
  match_authority s = Some r ->
  exists tail, s = ("://" ++ tail) ++ r /\
               match_authority ("://" ++ tail) = None /\
               strip_prefix "/" r <> None.
Proof.
  unfold match_authority, and_then, orelse. intros H.
  destruct (strip_prefix "://" s) as [r0 |] eqn:E0; [| discriminate].
  apply strip_prefix_sound in E0.
  destruct (match word_plus r0 with
            | Some r1 => match strip_prefix "." r1 with
                         | Some r2 => match_path r2
                         | None => None
                         end
            | None => None
            end) as [r' |] eqn:Esub.
  - injection H as ->.
    destruct (word_plus r0) as [r1 |] eqn:E1; [| discriminate].
    destruct (strip_prefix "." r1) as [r2 |] eqn:E2; [| discriminate].
    apply word_plus_sound in E1. destruct E1 as [w [Hw [E1 [Ww _]]]].
    apply strip_prefix_sound in E2.
    destruct (match_path_shape _ Esub) as [tail [E3 [Hnone Hslash]]].
    exists (w ++ "." ++ "reddit.com/r/" ++ tail). split; [| split].
    + subst s r0 r1 r2. now rewrite !string_append_assoc.
    + rewrite strip_prefix_app.
      rewrite word_plus_app by (auto; cbn; reflexivity).
      rewrite strip_prefix_app, Hnone. now apply match_path_subdomain.
    + exact Hslash.
  - destruct (match_path_shape _ H) as [tail [E3 [Hnone Hslash]]].
    exists ("reddit.com/r/" ++ tail). split; [| split].
    + subst s r0. now rewrite !string_append_assoc.
    + rewrite strip_prefix_app. cbn. exact Hnone.
    + exact Hslash.
Qed.

Lemma redditUrlPattern_shape url rest :
  redditUrlPattern url = Some rest ->
  exists pre, url = pre ++ rest /\ redditUrlPattern pre = None /\
              strip_prefix "/" rest <> None.
Proof.
  unfold redditUrlPattern, and_then, orelse. intros H.
  destruct (strip_prefix "http" url) as [r0 |] eqn:E0; [| discriminate].
  apply strip_prefix_sound in E0.
  destruct (match strip_prefix "s" r0 with
            | Some r1 => match_authority r1
            | None => None
            end) as [r' |] eqn:Es.
  - injection H as ->.
    destruct (strip_prefix "s" r0) as [r1 |] eqn:E1; [| discriminate].
    apply strip_prefix_sound in E1.
    destruct (match_authority_shape _ Es) as [tail [E2 [Hnone Hslash]]].
    exists ("http" ++ "s" ++ "://" ++ tail). split; [| split].
    + subst url r0 r1. now rewrite !string_append_assoc.
    + rewrite strip_prefix_app, strip_prefix_app, Hnone. reflexivity.
    + exact Hslash.
  - destruct (match_authority_shape _ H) as [tail [E2 [Hnone Hslash]]].
    exists ("http" ++ "://" ++ tail). split; [| split].
    + subst url r0. now rewrite !string_append_assoc.
    + rewrite strip_prefix_app. cbn [strip_prefix append Ascii.eqb Bool.eqb].
      exact Hnone.
    + exact Hslash.
Qed.

Lemma trimRedditUrl_of_match url pre rest :
  redditUrlPattern url = Some rest -> url = pre ++ rest -> trimRedditUrl url = pre.
Proof.
  intros H E. unfold trimRedditUrl. rewrite H. subst url.
  rewrite string_length_append.
  replace (String.length pre + String.length rest - String.length rest)%nat
    with (String.length pre) by lia.
  apply substring_prefix.
Qed.

(** X22. [trimRedditUrl] returns the start of the url it is given: the
    whole url when the pattern does not match, else the url without a tail
    that starts with a slash; it never adds or changes a character. *)
Theorem trimRedditUrl_returns_a_prefix (url : string) :
  is_prefix_of (trimRedditUrl url) url /\
  (redditUrlPattern url = None -> trimRedditUrl url = url) /\
  (forall rest, redditUrlPattern url = Some rest ->
                url = trimRedditUrl url ++ rest /\ startsWith "/" rest = true).
Proof.
  split; [| split].
  - destruct (redditUrlPattern url) as [rest |] eqn:E.
    + destruct (redditUrlPattern_shape _ E) as [pre [Hurl _]].
      exists rest. now rewrite (trimRedditUrl_of_match _ E Hurl).
    + exists "". unfold trimRedditUrl. rewrite E. now rewrite string_append_nil_r.
  - intros E. unfold trimRedditUrl. now rewrite E.
  - intros rest E. destruct (redditUrlPattern_shape _ E) as [pre [Hurl [_ Hslash]]].
    rewrite (trimRedditUrl_of_match _ E Hurl). split; [exact Hurl |].
    unfold startsWith. now destruct (strip_prefix "/" rest).
Qed.

(** X23. Trimming a url a second time changes nothing: what
    [trimRedditUrl] returns does not match the pattern any more. *)
Theorem trimRedditUrl_idempotent (url : string) :
  trimRedditUrl (trimRedditUrl url) = trimRedditUrl url /\
  redditUrlPattern (trimRedditUrl url) = None.
Proof.
  assert (H : redditUrlPattern (trimRedditUrl url) = None).
  { destruct (redditUrlPattern url) as [rest |] eqn:E.
    - destruct (redditUrlPattern_shape _ E) as [pre [Hurl [Hnone _]]].
      now rewrite (trimRedditUrl_of_match _ E Hurl).
    - unfold trimRedditUrl. now rewrite E. }
  split; [| exact H]. unfold trimRedditUrl at 1. now rewrite H.
Qed.
End TrimFacts.

(* ================================================================= *)
(** ** The message handler of index.ts *)

Lemma registry_call_returns f o st : exists b, fst (registry_call f o st) = Return b.
Proof.
  destruct o as [a s | a s | a]; cbn [registry_call].
  - rewrite subscribeToSubreddit_eq. cbv zeta.
    destruct (JsSet.has string_dec _ _); eexists; reflexivity.
  - rewrite unsubscribeFromSubreddit_eq. cbv zeta.
    destruct (JsMap.get _ _); [| eexists; reflexivity].
    destruct (JsSet.has string_dec _ _); eexists; reflexivity.
  - rewrite unsubscribeFromAllSubreddits_eq. cbv zeta.
    destruct (JsMap.get _ _); [| eexists; reflexivity].
    destruct (length _ =? 0)%nat; eexists; reflexivity.
Qed.

Lemma registry_call_outbox f o st : outbox (snd (registry_call f o st)) = outbox st.
Proof.
  destruct o as [a s | a s | a]; cbn [registry_call].
  - rewrite subscribeToSubreddit_eq. cbv zeta.
    destruct (JsSet.has string_dec _ _); cbn [snd]; [reflexivity |].
    cbn [logged with_console outbox]. now rewrite (proj2 (proj2 (saved_memory f _))).
  - rewrite unsubscribeFromSubreddit_eq. cbv zeta.
    destruct (JsMap.get _ _); [| reflexivity].
    destruct (JsSet.has string_dec _ _); cbn [snd]; [| reflexivity].
    cbn [logged with_console outbox]. now rewrite (proj2 (proj2 (saved_memory f _))).
  - rewrite unsubscribeFromAllSubreddits_eq. cbv zeta.
    destruct (JsMap.get _ _); [| reflexivity].
    destruct (length _ =? 0)%nat; cbn [snd]; [reflexivity |].
    cbn [logged with_console outbox]. now rewrite (proj2 (proj2 (saved_memory f _))).
Qed.

Section HandlerFacts.
Import Index.
Variable toUTCString : string -> string.
Variable fetch : string -> list RedditPost.

(** A relation between the manager before and after that every step of the
    handler keeps. *)
Section Kept.
Variable R : state -> state -> Prop.
Hypothesis R_refl : forall st, R st st.
Hypothesis R_trans : forall st1 st2 st3, R st1 st2 -> R st2 st3 -> R st1 st3.

Lemma keeps_done : keeps R done.
Proof. intros w. apply R_refl. Qed.

Lemma keeps_send r k : keeps R k -> keeps R (send r k).
Proof.
  intros Hk w. unfold send. destruct (sends_left w) as [[| n] |].
  - apply R_refl.
  - apply (Hk (mkWorld (manager w) (replies w ++ [r]) (Some n))).
  - apply (Hk (mkWorld (manager w) (replies w ++ [r]) None)).
Qed.

Lemma keeps_send_each ts k : keeps R k -> keeps R (send_each ts k).
Proof.
  intros Hk. induction ts as [| t ts IH]; cbn [send_each]; [exact Hk |].
  now apply keeps_send.
Qed.

Lemma keeps_call (A : Type) (m : M A) (k : A -> world -> outcome) :
  (forall st, R st (snd (m st))) -> (forall a, keeps R (k a)) -> keeps R (call m k).
Proof.
  intros Hm Hk w. unfold call. specialize (Hm (manager w)).
  destruct (m (manager w)) as [[a |] st]; cbn [snd] in *.
  - eapply R_trans; [exact Hm |].
    apply (Hk a (mkWorld st (replies w) (sends_left w))).
  - exact Hm.
Qed.

Lemma keeps_handle_message f address text :
  (forall o st, op_address o = address -> R st (snd (registry_call f o st))) ->
  keeps R (handle_message toUTCString fetch f address text).
Proof.
  intros HR. unfold handle_message.
  assert (Hgets : forall (A : Type) (g : state -> A) st, R st (snd (gets g st))).
  { intros A g st. apply R_refl. }
  destruct (String.eqb _ "stop").
  - apply keeps_call; [intros st; now apply (HR (UnsubscribeAll address)) |].
    intros []; apply keeps_send, keeps_done.
  - destruct (JsText.startsWith "reddit" _).
    + destruct (JsText.split_space _) as [| p0 [| sub [| x l]]];
        try (apply keeps_send, keeps_done).
      * apply keeps_call; [apply Hgets |]. intros userSubs.
        destruct (length userSubs =? 0)%nat; apply keeps_send, keeps_done.
      * apply keeps_call; [apply Hgets |]. intros userSubs.
        assert (Hfetch : keeps R
          (if (0 <? length (fetch sub))%nat
           then send_each (map (RedditService.formatRedditPost toUTCString) (fetch sub)) done
           else send (Reply_no_posts sub) done)).
        { destruct (0 <? _)%nat; [apply keeps_send_each | apply keeps_send];
            apply keeps_done. }
        cbv zeta. destruct (negb _); [| exact Hfetch].
        apply keeps_call; [intros st; now apply (HR (Subscribe address sub)) |].
        intros _. now apply keeps_send.
    + destruct (JsText.startsWith "unsubscribe" _); [| apply keeps_send, keeps_done].
      destruct (JsText.split_space _) as [| p0 [| sub [| x l]]];
        try (apply keeps_send, keeps_done).
      apply keeps_call; [intros st; now apply (HR (Unsubscribe address sub)) |].
      intros []; apply keeps_send, keeps_done.
Qed.
End Kept.

(** X24. Whatever the text, the handler leaves the windows of seen posts
    and the messages handed to [sendToSpecificAddresses] as they were: the
    posts it sends on request are not marked seen. *)
Theorem handler_leaves_windows_alone
    (f : Faults) (addressFromInboxId textContent : string) (w : world) :
  let w' := snd (handle_message toUTCString fetch f addressFromInboxId textContent w) in
  seenPostsBySubreddit (manager w') = seenPostsBySubreddit (manager w) /\
  outbox (manager w') = outbox (manager w).
Proof.
  cbv zeta.
  apply (@keeps_handle_message
           (fun st st' => seenPostsBySubreddit st' = seenPostsBySubreddit st /\
                          outbox st' = outbox st)).
  - auto.
  - intros st1 st2 st3 [H1 H2] [H3 H4]. split; congruence.
  - intros o st _. split; [apply registry_call_seen | apply registry_call_outbox].
Qed.

(** X25. The handler changes the subscriptions of the sender only: the
    topics of every other address are as before, whatever the text. *)
Theorem handler_touches_sender_only
    (f : Faults) (addressFromInboxId textContent other : string) (w : world) :
  JsString.toLowerCase other <> JsString.toLowerCase addressFromInboxId ->
  let w' := snd (handle_message toUTCString fetch f addressFromInboxId textContent w) in
  getUserSubscriptions (manager w') other = getUserSubscriptions (manager w) other.
Proof.
  intros Hother. cbv zeta.
  apply (@keeps_handle_message
           (fun st st' => getUserSubscriptions st' other = getUserSubscriptions st other)).
  - auto.
  - intros st1 st2 st3 H1 H2. congruence.
  - intros o st Ho. apply registry_call_frame. now rewrite Ho.
Qed.
End HandlerFacts.

Section HandlerAnswers.
Import Index.
Variable toUTCString : string -> string.
Variable fetch : string -> list RedditPost.

Lemma answers_done : answers false done.
Proof.
  intros w Hw. cbn. repeat split; auto. exists []. split; [now rewrite app_nil_r | discriminate].
Qed.

Lemma answers_send strict r k : answers false k -> answers strict (send r k).
Proof.
  intros Hk w Hw. unfold send. rewrite Hw.
  destruct (Hk (mkWorld (manager w) (replies w ++ [r]) None) eq_refl) as [H1 [H2 [rs [H3 _]]]].
  repeat split; auto. exists (r :: rs). split.
  - rewrite H3. cbn [replies]. now rewrite <- app_assoc.
  - discriminate.
Qed.

Lemma answers_weaken k : answers true k -> answers false k.
Proof.
  intros Hk w Hw. destruct (Hk w Hw) as [H1 [H2 [rs [H3 _]]]].
  repeat split; auto. exists rs. split; [exact H3 | discriminate].
Qed.

Lemma answers_send_each strict ts k :
  ts <> [] -> answers false k -> answers strict (send_each ts k).
Proof.
  intros Hts Hk. destruct ts as [| t ts]; [congruence |]. cbn [send_each].
  apply answers_send. clear Hts t.
  induction ts as [| t ts IH]; cbn [send_each]; [exact Hk |].
  now apply answers_send.
Qed.

Lemma answers_call strict (A : Type) (m : M A) (k : A -> world -> outcome) :
  (forall st, exists a, fst (m st) = Return a) ->
  (forall a, answers strict (k a)) -> answers strict (call m k).
Proof.
  intros Hm Hk w Hw. unfold call. destruct (Hm (manager w)) as [a Ha].
  destruct (m (manager w)) as [[a' |] st]; cbn [fst] in Ha; [| discriminate].
  apply (Hk a' (mkWorld st (replies w) (sends_left w))). exact Hw.
Qed.

(** X26. When no [conversation.send] throws, the handler returns for every
    text and every state, and it sends at least one reply. *)
Theorem handler_always_answers
    (f : Faults) (addressFromInboxId textContent : string) (w : world) :
  sends_left w = None ->
  let r := handle_message toUTCString fetch f addressFromInboxId textContent w in
  fst r = Return tt /\
  exists reply rest, replies (snd r) = replies w ++ reply :: rest.
Proof.
  intros Hw.
  assert (H : answers true (handle_message toUTCString fetch f addressFromInboxId textContent)).
  { unfold handle_message.
    assert (Hgets : forall (A : Type) (g : state -> A) st, exists a, fst (gets g st) = Return a).
    { intros A g st. now exists (g st). }
    destruct (String.eqb _ "stop").
    - apply answers_call; [intros st; apply (registry_call_returns f (UnsubscribeAll _)) |].
      intros []; apply answers_send, answers_done.
    - destruct (JsText.startsWith "reddit" _).
      + destruct (JsText.split_space _) as [| p0 [| sub [| x l]]];
          try (apply answers_send, answers_done).
        * apply answers_call; [apply Hgets |]. intros userSubs.
          destruct (length userSubs =? 0)%nat; apply answers_send, answers_done.
        * apply answers_call; [apply Hgets |]. intros userSubs.
          assert (Hfetch : answers true
            (if (0 <? length (fetch sub))%nat
             then send_each (map (RedditService.formatRedditPost toUTCString) (fetch sub)) done
             else send (Reply_no_posts sub) done)).
          { destruct (0 <? length (fetch sub))%nat eqn:E.
            - apply answers_send_each; [| apply answers_done].
              destruct (fetch sub); [discriminate E | discriminate].
            - apply answers_send, answers_done. }
          cbv zeta. destruct (negb _); [| exact Hfetch].
          apply answers_call;
            [intros st; apply (registry_call_returns f (Subscribe _ _)) |].
          intros _. apply answers_send. now apply answers_weaken.
      + destruct (JsText.startsWith "unsubscribe" _); [| apply answers_send, answers_done].
        destruct (JsText.split_space _) as [| p0 [| sub [| x l]]];
          try (apply answers_send, answers_done).
        apply answers_call;
          [intros st; apply (registry_call_returns f (Unsubscribe _ _)) |].
        intros []; apply answers_send, answers_done. }
  cbv zeta. destruct (H w Hw) as [H1 [_ [rs [H3 H4]]]]. split; [exact H1 |].
  destruct rs as [| reply rest]; [now specialize (H4 eq_refl) |].
  now exists reply, rest.
Qed.

Lemma manager_after_sends (h : world -> outcome) w :
  keeps (fun st st' => st' = st) h -> manager (snd (h w)) = manager w.
Proof. intros H. apply H. Qed.

Lemma keeps_eq_send r k :
  keeps (fun st st' => st' = st) k -> keeps (fun st st' => st' = st) (send r k).
Proof. apply keeps_send. auto. Qed.

Lemma keeps_eq_done : keeps (fun st st' : state => st' = st) done.
Proof. now apply keeps_done. Qed.

Lemma keeps_eq_send_each ts k :
  keeps (fun st st' => st' = st) k -> keeps (fun st st' => st' = st) (send_each ts k).
Proof. apply keeps_send_each. auto. Qed.

(** X27. A text that is [stop] once in lowercase and trimmed leaves the
    sender without any topic, whatever the state before and even when the
    reply cannot be sent. *)
Theorem stop_removes_all_subscriptions
    (f : Faults) (addressFromInboxId textContent : string) (w : world) :
  JsText.trim (JsString.toLowerCase textContent) = "stop"%string ->
  let w' := snd (handle_message toUTCString fetch f addressFromInboxId textContent w) in
  getUserSubscriptions (manager w') addressFromInboxId = [].
Proof.
  intros Htext. cbv zeta. unfold handle_message. rewrite Htext.
  change (String.eqb "stop" "stop") with true. cbv iota. unfold call.
  rewrite unsubscribeFromAllSubreddits_eq. cbv zeta.
  destruct (JsMap.get (JsString.toLowerCase addressFromInboxId)
              (userSubscriptions (manager w))) as [subs |] eqn:G.
  - destruct subs as [| t subs]; cbn [length Nat.eqb].
    + rewrite manager_after_sends by apply keeps_eq_send, keeps_eq_done.
      cbn [manager]. unfold getUserSubscriptions. now rewrite G.
    + rewrite manager_after_sends by apply keeps_eq_send, keeps_eq_done.
      cbn [manager]. unfold getUserSubscriptions.
      rewrite userSubscriptions_logged_saved. now rewrite JsMap_get_delete_same.
  - rewrite manager_after_sends by apply keeps_eq_send, keeps_eq_done.
    cbn [manager]. unfold getUserSubscriptions. now rewrite G.
Qed.

(** X28. A text of ASCII characters that, in lowercase and trimmed, starts
    with [reddit] and has two pieces when split at its spaces leaves the
    sender subscribed to the second piece, whether the replies can be sent
    or not, and whatever the first piece is beyond its first six letters;
    a sender who had the topic keeps the registry as it was. *)
Theorem reddit_command_subscribes
    (f : Faults) (addressFromInboxId textContent first subreddit : string) (w : world) :
  JsText.ascii_only textContent = true ->
  JsText.startsWith "reddit" (JsText.trim (JsString.toLowerCase textContent)) = true ->
  JsText.split_space (JsText.trim (JsString.toLowerCase textContent)) = [first; subreddit] ->
  let w' := snd (handle_message toUTCString fetch f addressFromInboxId textContent w) in
  In (JsString.toLowerCase subreddit)
     (getUserSubscriptions (manager w') addressFromInboxId) /\
  (In (JsString.toLowerCase subreddit)
      (getUserSubscriptions (manager w) addressFromInboxId) ->
   manager w' = manager w).
Proof.
  intros _ Hstart Hsplit w'.
  assert (Hm : manager w'
               = if JsSet.has string_dec (JsString.toLowerCase subreddit)
                      (getUserSubscriptions (manager w) addressFromInboxId)
                 then manager w
                 else snd (subscribeToSubreddit f addressFromInboxId subreddit (manager w))).
  { subst w'. unfold handle_message.
    destruct (String.eqb _ "stop") eqn:Estop.
    { apply String.eqb_eq in Estop. rewrite Estop in Hsplit. discriminate Hsplit. }
    rewrite Hstart, Hsplit. unfold call at 1. cbn [gets fst snd manager].
    assert (Hfetch : keeps (fun st st' => st' = st)
      (if (0 <? length (fetch subreddit))%nat
       then send_each (map (RedditService.formatRedditPost toUTCString) (fetch subreddit)) done
       else send (Reply_no_posts subreddit) done)).
    { destruct (0 <? _)%nat; [apply keeps_eq_send_each | apply keeps_eq_send];
        apply keeps_eq_done. }
    destruct (JsSet.has string_dec (JsString.toLowerCase subreddit)
                (getUserSubscriptions (manager w) addressFromInboxId)); cbn [negb].
    - now rewrite manager_after_sends by exact Hfetch.
    - unfold call. cbn [manager replies sends_left].
      destruct (subscribeToSubreddit f addressFromInboxId subreddit (manager w))
        as [[b |] st1] eqn:Es.
      + cbv beta iota.
        now rewrite manager_after_sends by (apply keeps_eq_send; exact Hfetch).
      + reflexivity. }
  rewrite Hm.
  destruct (JsSet.has string_dec (JsString.toLowerCase subreddit)
              (getUserSubscriptions (manager w) addressFromInboxId)) eqn:E.
  - split; [now apply (JsSet_has_true string_dec) | reflexivity].
  - split; [apply subscribe_member |].
    intros Hin. apply (JsSet_has_true string_dec) in Hin. congruence.
Qed.
End HandlerAnswers.

(** X25: [0xabc] says [stop], the topic of [0xdef] stays. *)
Lemma handler_touches_sender_only_witness :
  let st := registry_run [(no_fault, Subscribe "0xABC" "golang");
                          (no_fault, Subscribe "0xDEF" "rust")] (fresh (mkDisk true None)) in
  let w := Index.mkWorld st [] None in
  getUserSubscriptions
    (Index.manager (snd (Index.handle_message (fun d => d) (fun _ => []) no_fault
                           "0xABC" "stop" w))) "0xDEF"
  = getUserSubscriptions st "0xDEF".
Proof.
  cbv zeta.
  apply (@handler_touches_sender_only (fun d => d) (fun _ => []) no_fault
           "0xABC" "stop" "0xDEF").
  vm_compute. discriminate.
Defined.

(** X26: a text that is no command gets the help. *)
Lemma handler_always_answers_witness :
  let w := Index.mkWorld (fresh (mkDisk true None)) [] None in
  fst (Index.handle_message (fun d => d) (fun _ => []) no_fault "0xABC" "hello" w)
  = Return tt.
Proof.
  cbv zeta.
  refine (proj1 (@handler_always_answers (fun d => d) (fun _ => []) no_fault
                   "0xABC" "hello" _ _)).
  reflexivity.
Defined.

(** X27: [ STOP ] with spaces around, from a sender with a topic, and a
    [send] that throws. *)
Lemma stop_removes_all_subscriptions_witness :
  let st := snd (subscribeToSubreddit no_fault "0xABC" "golang" (fresh (mkDisk true None))) in
  let w := Index.mkWorld st [] (Some 0%nat) in
  getUserSubscriptions
    (Index.manager (snd (Index.handle_message (fun d => d) (fun _ => []) no_fault
                           "0xABC" " STOP " w))) "0xABC"
  = [].
Proof.
  cbv zeta.
  apply (@stop_removes_all_subscriptions (fun d => d) (fun _ => []) no_fault
           "0xABC" " STOP ").
  reflexivity.
Defined.

(** X28: [Reddit GoLang] from a new sender. *)
Lemma reddit_command_subscribes_witness :
  let w := Index.mkWorld (fresh (mkDisk true None)) [] None in
  In "golang"%string
     (getUserSubscriptions
        (Index.manager (snd (Index.handle_message (fun d => d) (fun _ => []) no_fault
                               "0xABC" " Reddit GoLang " w))) "0xABC").
Proof.
  cbv zeta.
  refine (proj1 (@reddit_command_subscribes (fun d => d) (fun _ => []) no_fault
                   "0xABC" " Reddit GoLang " "reddit" "golang" _ _ _ _)).
  - reflexivity.
  - reflexivity.
  - reflexivity.
Defined.

(* ================================================================= *)
(** ** The periodic check of index.ts *)

Section PeriodicCheck.
Variable toUTCString : string -> string.
Variable fetch : string -> list RedditPost.

(** One call hands over nothing, or the formatted post to the subscribers
    of the subreddit, of which there is one at least. *)
Lemma offer_hands_over f post s st :
  let st' := snd (sendRedditPostToSubscribers toUTCString f post s st) in
  userSubscriptions st' = userSubscriptions st /\
  (outbox st' = outbox st \/
   (outbox st' = outbox st ++ [(RedditService.formatRedditPost toUTCString post,
                                getSubscribersForSubreddit st s)] /\
    getSubscribersForSubreddit st s <> [])).
Proof.
  cbv zeta. rewrite sendRedditPostToSubscribers_eq. cbv zeta.
  destruct (FifoSet.has string_dec (id post) _).
  - cbn [snd]. destruct (JsMap.get _ _); cbn; auto.
  - destruct (length (getSubscribersForSubreddit st s) =? 0)%nat eqn:E;
      [| destruct (list_throws f)]; cbn [snd logged with_console with_outbox
                                         userSubscriptions outbox];
      rewrite ?(proj1 (proj2 (saved_memory f _))), ?(proj2 (proj2 (saved_memory f _)));
      cbn [with_seen userSubscriptions outbox]; split; auto.
    right. split; [reflexivity |].
    intros H. rewrite H in E. discriminate E.
Qed.

(** What a run of calls added to the messages handed over: each one is a
    post of [posts], formatted, for the subscribers of [s]. *)
Abbreviation handed_over st st0 s posts new :=
  (outbox st = outbox st0 ++ new /\
   forall msg addrs, In (msg, addrs) new ->
     addrs <> [] /\
     exists post, In post posts /\
                  msg = RedditService.formatRedditPost toUTCString post /\
                  addrs = getSubscribersForSubreddit st0 s).

Lemma send_posts_hands_over faults s posts st :
  let st' := snd (Index.send_posts toUTCString faults s posts st) in
  userSubscriptions st' = userSubscriptions st /\
  exists new, handed_over st' st s posts new.
Proof.
  cbv zeta. revert st. induction posts as [| p posts IH]; intros st; cbn [Index.send_posts].
  - cbn [snd]. split; [reflexivity |]. exists []. split; [now rewrite app_nil_r |].
    intros msg addrs [].
  - destruct (offer_hands_over (faults s p) p s st) as [Hsubs Hout]. cbv zeta in Hsubs, Hout.
    destruct (sendRedditPostToSubscribers toUTCString (faults s p) p s st)
      as [[b |] st1]; cbn [snd] in *.
    + destruct (IH st1) as [Hsubs' [new [Hnew Hent]]].
      split; [congruence |].
      assert (Hsame : getSubscribersForSubreddit st1 s = getSubscribersForSubreddit st s).
      { now apply getSubscribersForSubreddit_ext. }
      destruct Hout as [Hout | [Hout Hne]].
      * exists new. split; [congruence |].
        intros msg addrs Hin. destruct (Hent _ _ Hin) as [H1 [post [H2 [H3 H4]]]].
        split; [exact H1 |]. exists post.
        split; [now right | split; [exact H3 | congruence]].
      * exists ((RedditService.formatRedditPost toUTCString p,
                 getSubscribersForSubreddit st s) :: new).
        split; [rewrite Hnew, Hout; now rewrite <- app_assoc |].
        intros msg addrs [[= <- <-] | Hin].
        -- split; [exact Hne |]. exists p. repeat split. now left.
        -- destruct (Hent _ _ Hin) as [H1 [post [H2 [H3 H4]]]].
           split; [exact H1 |]. exists post.
           split; [now right | split; [exact H3 | congruence]].
    + split; [exact Hsubs |].
      destruct Hout as [Hout | [Hout Hne]].
      * exists []. split; [now rewrite app_nil_r |]. intros msg addrs [].
      * exists [(RedditService.formatRedditPost toUTCString p,
                 getSubscribersForSubreddit st s)].
        split; [exact Hout |].
        intros msg addrs [[= <- <-] | []].
        split; [exact Hne |]. exists p. repeat split. now left.
Qed.

(** X29. The periodic check never changes the subscriptions. Every message
    it hands to [sendToSpecificAddresses] is the formatted text of a post
    that the feed gave for a subreddit somebody is subscribed to, and goes
    to the subscribers of that subreddit, of which there is one at least.
    With no subscription it changes nothing at all. *)
Theorem periodic_check_offers_feed_posts
    (faults : string -> RedditPost -> Faults) (st : state) :
  let st' := Index.checkAndSendRedditPosts toUTCString fetch faults st in
  userSubscriptions st' = userSubscriptions st /\
  (getAllSubscribedSubreddits st = [] -> st' = st) /\
  exists new,
    outbox st' = outbox st ++ new /\
    forall msg addrs, In (msg, addrs) new ->
      addrs <> [] /\
      exists subreddit post,
        In subreddit (getAllSubscribedSubreddits st) /\ In post (fetch subreddit) /\
        msg = RedditService.formatRedditPost toUTCString post /\
        addrs = getSubscribersForSubreddit st subreddit.
Proof.
  cbv zeta. unfold Index.checkAndSendRedditPosts.
  split; [| split].
  - generalize (getAllSubscribedSubreddits st). intros l.
    assert (G : forall acc, userSubscriptions acc = userSubscriptions st ->
      userSubscriptions
        (fold_left (fun acc s => snd (Index.send_posts toUTCString faults s (fetch s) acc)) l acc)
      = userSubscriptions st).
    { induction l as [| s l IH]; intros acc H; cbn [fold_left]; [exact H |].
      apply IH. destruct (send_posts_hands_over faults s (fetch s) acc) as [H1 _].
      cbv zeta in H1. congruence. }
    now apply G.
  - intros ->. reflexivity.
  - generalize (getAllSubscribedSubreddits st). intros l.
    assert (G : forall (done : list string) acc new0,
      userSubscriptions acc = userSubscriptions st ->
      outbox acc = outbox st ++ new0 ->
      (forall msg addrs, In (msg, addrs) new0 ->
         addrs <> [] /\
         exists subreddit post,
           In subreddit (done ++ l) /\ In post (fetch subreddit) /\
           msg = RedditService.formatRedditPost toUTCString post /\
           addrs = getSubscribersForSubreddit st subreddit) ->
      exists new,
        outbox (fold_left
                  (fun acc s => snd (Index.send_posts toUTCString faults s (fetch s) acc)) l acc)
        = outbox st ++ new /\
        forall msg addrs, In (msg, addrs) new ->
          addrs <> [] /\
          exists subreddit post,
            In subreddit (done ++ l) /\ In post (fetch subreddit) /\
            msg = RedditService.formatRedditPost toUTCString post /\
            addrs = getSubscribersForSubreddit st subreddit).
    { induction l as [| s l IH]; intros done acc new0 Hsubs Hout Hent; cbn [fold_left].
      - exists new0. auto.
      - destruct (send_posts_hands_over faults s (fetch s) acc) as [H1 [new1 [H2 H3]]].
        cbv zeta in H1, H2, H3.
        replace (done ++ s :: l) with ((done ++ [s]) ++ l) by now rewrite <- app_assoc.
        apply (IH (done ++ [s]) _ (new0 ++ new1)).
        + congruence.
        + rewrite H2, Hout. now rewrite <- app_assoc.
        + intros msg addrs Hin. apply in_app_iff in Hin. destruct Hin as [Hin | Hin].
          * destruct (Hent _ _ Hin) as [Ha [s' [post [Hs' Hrest]]]].
            split; [exact Ha |]. exists s', post. split; [| exact Hrest].
            rewrite <- app_assoc. exact Hs'.
          * destruct (H3 _ _ Hin) as [Ha [post [Hp [Hm Haddr]]]].
            split; [exact Ha |]. exists s, post. repeat split; auto.
            -- apply in_or_app. left. apply in_or_app. right. now left.
            -- rewrite Haddr. now apply getSubscribersForSubreddit_ext. }
    destruct (G [] st [] eq_refl) as [new [H1 H2]].
    + now rewrite app_nil_r.
    + intros msg addrs [].
    + exists new. split; [exact H1 |]. exact H2.
Qed.
End PeriodicCheck.
